(** * calibre.library.database2: a shallow embedding

    The development follows [src/calibre/library/database2.py]:

    - [Sanitize]: [sanitize_file_name] and the string helpers it needs;
    - [CoverCache]: the decoded-image cache and its load queue ([set_cache]);
    - [ResultCache]: the sorted and filtered in-memory view, with the Python
      lists it mutates kept in a store so that aliasing is visible;
    - [Library]: the part of [LibraryDatabase2] that derives paths from
      metadata, relocates book directories and removes formats, as a state
      and error monad over a database, a file system and an effect trace;
    - [Concatenate] and [TitleSort]: the aggregate and the function that
      [connect] registers with SQLite;
    - [CoverThread]: the worker of [CoverCache] and the calls that feed it;
    - [ResultRows]: the accessors of [ResultCache] and its grouped sorts.

    Book ids are SQLite row ids, modelled as [nat].  Text is modelled as
    [string] whose characters are single bytes of the file system encoding,
    so that [encode]/[decode] with that encoding are the identity. *)

From Stdlib Require Import String Ascii List Arith Bool Lia DecimalString DecimalNat.
From stdpp Require Import base list gmap strings.
Import ListNotations.

(** ** Python values shared by the modules *)

(** The exceptions the modelled code can raise. *)
Inductive pyerr : Type :=
| IndexError
| TypeError
| ValueError
| OSError
| IOError
| InterfaceError.

(** The outcome of a call: a value, or a raised exception. *)
Inductive result (A : Type) : Type :=
| Ok (a : A)
| Raise (e : pyerr).
Arguments Ok {A} a.
Arguments Raise {A} e.

Definition rbind {A B : Type} (r : result A) (k : A -> result B) : result B :=
  match r with
  | Ok a => k a
  | Raise e => Raise e
  end.

(** ** sanitize_file_name (lines 26-40) *)
Module Sanitize.

(** The character class of [_filename_sanitize]:
    NUL, backslash, |, ?, *, <, double quote, :, >, +, [, ], / *)
Definition invalid_codes : list nat :=
  [0; 92; 124; 63; 42; 60; 34; 58; 62; 43; 91; 93; 47].

Definition is_invalid (c : ascii) : bool :=
  existsb (Nat.eqb (nat_of_ascii c)) invalid_codes.

(** The class [\s] of a byte pattern: tab, line feed, vertical tab, form
    feed, carriage return, space. *)
Definition whitespace_codes : list nat := [9; 10; 11; 12; 13; 32].

Definition is_space (c : ascii) : bool :=
  existsb (Nat.eqb (nat_of_ascii c)) whitespace_codes.

Definition space : ascii := ascii_of_nat 32.

(** [_filename_sanitize.sub(substitute, name)] *)
Fixpoint sub_invalid (substitute : string) (name : string) : string :=
  match name with
  | EmptyString => EmptyString
  | String c rest =>
      if is_invalid c then substitute +:+ sub_invalid substitute rest
      else String c (sub_invalid substitute rest)
  end.

(** [re.sub(r'\s', ' ', one)] *)
Fixpoint sub_space (one : string) : string :=
  match one with
  | EmptyString => EmptyString
  | String c rest =>
      String (if is_space c then space else c) (sub_space rest)
  end.

Fixpoint lstrip (s : string) : string :=
  match s with
  | EmptyString => EmptyString
  | String c rest => if is_space c then lstrip rest else s
  end.

Fixpoint rstrip (s : string) : string :=
  match s with
  | EmptyString => EmptyString
  | String c rest =>
      match rstrip rest with
      | EmptyString => if is_space c then EmptyString else String c EmptyString
      | r => String c r
      end
  end.

(** [str.strip()] *)
Definition strip (s : string) : string := rstrip (lstrip s).

Definition sanitize_file_name_with (substitute : string) (name : string) : string :=
  let one := sub_invalid substitute name in
  strip (sub_space one).

(** [sanitize_file_name(name)], with the default [substitute='_'] *)
Definition sanitize_file_name (name : string) : string :=
  sanitize_file_name_with "_" name.

End Sanitize.

(** ** Strings as the path policy uses them *)
Module PyStr.

(** [s[:n]] *)
Fixpoint take (n : nat) (s : string) : string :=
  match n, s with
  | S n', String c rest => String c (take n' rest)
  | _, _ => EmptyString
  end.

Definition comma : ascii := ascii_of_nat 44.
Definition slash : ascii := ascii_of_nat 47.

(** [s.split(sep)[0]]: the characters before the first separator *)
Fixpoint split_head (sep : ascii) (s : string) : string :=
  match s with
  | EmptyString => EmptyString
  | String c rest =>
      if Ascii.eqb c sep then EmptyString else String c (split_head sep rest)
  end.

(** [s.split(sep)] for a one-character separator *)
Fixpoint split (sep : ascii) (s : string) : list string :=
  match s with
  | EmptyString => [EmptyString]
  | String c rest =>
      if Ascii.eqb c sep then EmptyString :: split sep rest
      else match split sep rest with
           | [] => [String c EmptyString]
           | w :: ws => String c w :: ws
           end
  end.

(** ['%d' % n] for a row id *)
Definition of_nat (n : nat) : string := NilEmpty.string_of_uint (Nat.to_uint n).

Definition is_upper (c : ascii) : bool :=
  (65 <=? nat_of_ascii c) && (nat_of_ascii c <=? 90).
Definition is_lower (c : ascii) : bool :=
  (97 <=? nat_of_ascii c) && (nat_of_ascii c <=? 122).

Fixpoint upper (s : string) : string :=
  match s with
  | EmptyString => EmptyString
  | String c rest =>
      String (if is_lower c then ascii_of_nat (nat_of_ascii c - 32) else c) (upper rest)
  end.

Fixpoint lower (s : string) : string :=
  match s with
  | EmptyString => EmptyString
  | String c rest =>
      String (if is_upper c then ascii_of_nat (nat_of_ascii c + 32) else c) (lower rest)
  end.

(** Truth value of a string: [if s:] *)
Definition truthy (s : string) : bool :=
  match s with EmptyString => false | _ => true end.

(** [sep.join(parts)] *)
Fixpoint join (sep : string) (parts : list string) : string :=
  match parts with
  | [] => EmptyString
  | [p] => p
  | p :: ps => p +:+ sep +:+ join sep ps
  end.

End PyStr.


(** ** CoverCache (lines 42-150) *)
Module CoverCache.
Section WithImage.

(** A decoded [QImage]; its content is not inspected. *)
Context {Image : Type}.

(** The fields of a [CoverCache] object.  The locks and the worker thread
    are not part of the state: [set_cache] is modelled as the sequence of
    its statements. *)
Record t : Type := mk {
  library_path : string;
  id_map : option (gmap nat string);
  load_queue : list nat;
  cache : gmap nat Image;
  id_map_stale : bool;
  keep_running : bool
}.

(** One turn of [for id in self.cache.keys()]: keep the entry and remember
    the id, or pop it.  [keys()] is a copy made before the loop, so the
    popped key is always present. *)
Definition set_cache_step (ids : list nat)
  (st : gmap nat Image * gset nat) (id : nat) : gmap nat Image * gset nat :=
  if bool_decide (id ∈ ids) then (st.1, {[id]} ∪ st.2)
  else (delete id st.1, st.2).

Definition set_cache (ids : list nat) (c : t) : t :=
  let keys := (map_to_list (cache c)).*1 in
  let st := fold_left (set_cache_step ids) keys (cache c, ∅) in
  let already_loaded := st.2 in
  let ids' := List.filter (fun i => negb (bool_decide (i ∈ already_loaded))) ids in
  {| library_path := library_path c;
     id_map := id_map c;
     load_queue := ids';
     cache := st.1;
     id_map_stale := id_map_stale c;
     keep_running := keep_running c |}.

End WithImage.
Arguments t Image : clear implicits.
End CoverCache.

(** ** ResultCache (lines 169-328) *)
Module ResultCache.

(** A row of the [meta] view: column 0 is the book id. *)
Record Row : Type := mkRow { row_id : nat; row_cols : list string }.

(** What the three lists of a [ResultCache] can hold. *)
Inductive pyval : Type :=
| PNone
| PInt (n : nat)
| PRow (r : Row).

#[global] Instance Row_eq_dec : EqDecision Row.
Proof. solve_decision. Defined.

#[global] Instance pyval_eq_dec : EqDecision pyval.
Proof. solve_decision. Defined.

(** A [ResultCache] object: three attributes, each a reference to a list
    object of the store.  Two attributes may name the same object. *)
Record t : Type := mk {
  heap : list (list pyval);
  _map : nat;
  _map_filtered : nat;
  _data : nat
}.

Definition deref (c : t) (ref : nat) : list pyval := default [] (heap c !! ref).

(** In-place update of the list object [ref]. *)
Definition store (c : t) (ref : nat) (l : list pyval) : t :=
  {| heap := <[ref := l]> (heap c);
     _map := _map c; _map_filtered := _map_filtered c; _data := _data c |}.

(** [self._map = self._map_filtered = self._data = []]: one list object. *)
Definition init : t :=
  {| heap := [[]]; _map := 0; _map_filtered := 0; _data := 0 |}.

(** [x in l] *)
Definition py_in (x : pyval) (l : list pyval) : bool := bool_decide (x ∈ l).

(** [l.remove(x)]: drops the first element equal to [x]. *)
Fixpoint list_remove (x : pyval) (l : list pyval) : result (list pyval) :=
  match l with
  | [] => Raise ValueError
  | y :: l' =>
      if decide (x = y) then Ok l'
      else rbind (list_remove x l') (fun r => Ok (y :: r))
  end.

(** [l[i] = v] *)
Definition setitem (l : list pyval) (i : nat) (v : pyval) : result (list pyval) :=
  if decide (i < length l) then Ok (<[i := v]> l) else Raise IndexError.

(** [l[i]] for a subscript taken out of one of the lists *)
Definition getitem (l : list pyval) (i : pyval) : result pyval :=
  match i with
  | PInt n => match l !! n with Some v => Ok v | None => Raise IndexError end
  | _ => Raise TypeError
  end.

(** [remove] (lines 201-206) *)
Definition remove (id : nat) (c : t) : result t :=
  rbind (setitem (deref c (_data c)) id PNone) (fun d =>
  let c1 := store c (_data c) d in
  rbind (if py_in (PInt id) (deref c1 (_map c1))
         then rbind (list_remove (PInt id) (deref c1 (_map c1)))
                    (fun m => Ok (store c1 (_map c1) m))
         else Ok c1) (fun c2 =>
  if py_in (PInt id) (deref c2 (_map_filtered c2))
  then rbind (list_remove (PInt id) (deref c2 (_map_filtered c2)))
             (fun f => Ok (store c2 (_map_filtered c2) f))
  else Ok c2)).

(** [conn.execute('SELECT * from meta WHERE id=?', (id,)).fetchone()] *)
Definition fetchone (conn : nat -> option Row) (id : nat) : pyval :=
  match conn id with Some r => PRow r | None => PNone end.

(** [for id in ids: self._data[id] = ...fetchone()] *)
Fixpoint load_rows (conn : nat -> option Row) (ids : list nat) (d : list pyval)
  : result (list pyval) :=
  match ids with
  | [] => Ok d
  | id :: rest => rbind (setitem d id (fetchone conn id)) (load_rows conn rest)
  end.

(** [books_added] (lines 224-231) *)
Definition books_added (ids : list nat) (conn : nat -> option Row) (c : t) : result t :=
  match ids with
  | [] => Ok c
  | _ :: _ =>
      let d := deref c (_data c) in
      let c1 := store c (_data c) (d ++ replicate (max_list ids + 2 - length d) PNone) in
      rbind (load_rows conn ids (deref c1 (_data c1))) (fun d' =>
      let c2 := store c1 (_data c1) d' in
      let c3 := store c2 (_map c2) ((PInt <$> ids) ++ deref c2 (_map c2)) in
      Ok (store c3 (_map_filtered c3) ((PInt <$> ids) ++ deref c3 (_map_filtered c3))))
  end.

(** [sort_on_tags] (lines 321-328).  [no_tags] is the result of the first
    SELECT, [tags] the ids the second SELECT yields in order, and
    [books_of_tag t] the result of the third SELECT for tag [t]. *)
Definition sort_on_tags (ascending : bool) (no_tags : list nat) (tags : list nat)
  (books_of_tag : nat -> list nat) : list nat :=
  let ans := flat_map books_of_tag tags in
  if ascending then no_tags ++ ans else ans ++ no_tags.

(** [for r in temp: self._data[r[0]] = r] *)
Fixpoint fill_rows (temp : list Row) (d : list pyval) : result (list pyval) :=
  match temp with
  | [] => Ok d
  | r :: rest => rbind (setitem d (row_id r) (PRow r)) (fill_rows rest)
  end.

(** [refresh] (lines 233-246).  [rows] is the value of
    [map(operator.itemgetter(0), method(order, db))], the ids in the order of
    the chosen sort; [temp] is the result of [SELECT * FROM meta]. *)
Definition refresh (rows : list nat) (temp : list Row) (c : t) : result t :=
  let m := length (heap c) in
  let h1 := heap c ++ [PInt <$> rows] in
  let f := length h1 in
  let h2 := h1 ++ [PInt <$> rows] in
  let d0 := match last temp with
            | Some r => replicate (row_id r + 2) PNone
            | None => []
            end in
  rbind (fill_rows temp d0) (fun d =>
  Ok {| heap := h2 ++ [d]; _map := m; _map_filtered := f; _data := length h2 |}).

(** A [SearchToken], seen through its [match] method. *)
Definition token : Type := pyval -> bool.

(** The first loop of [filter]: the ids to drop, in the order met. *)
Fixpoint filter_scan (filters : list token) (OR : bool) (d : list pyval)
  (ids : list pyval) : result (list pyval) :=
  match ids with
  | [] => Ok []
  | id :: rest =>
      rbind (getitem d id) (fun row =>
      rbind (filter_scan filters OR d rest) (fun rm =>
      let keep := if OR then existsb (fun tok : token => tok row) filters
                  else forallb (fun tok : token => tok row) filters in
      Ok (if keep then rm else id :: rm)))
  end.

(** [for id in remove: self._map_filtered.remove(id)] *)
Fixpoint remove_all (rm : list pyval) (l : list pyval) : result (list pyval) :=
  match rm with
  | [] => Ok l
  | id :: rest => rbind (list_remove id l) (remove_all rest)
  end.

(** [filter] (lines 248-277) *)
Definition filter (filters : list token) (refilter OR : bool) (c : t) : result t :=
  let c1 := if refilter then c
            else {| heap := heap c ++ [deref c (_map c)];
                    _map := _map c;
                    _map_filtered := length (heap c);
                    _data := _data c |} in
  match filters with
  | [] => Ok c1
  | _ :: _ =>
      rbind (filter_scan filters OR (deref c1 (_data c1)) (deref c1 (_map_filtered c1)))
        (fun rm =>
      rbind (remove_all rm (deref c1 (_map_filtered c1))) (fun f =>
      Ok (store c1 (_map_filtered c1) f)))
  end.

(** The three lists as a caller reads them. *)
Definition all_ids (c : t) : list pyval := deref c (_map c).
Definition visible_ids (c : t) : list pyval := deref c (_map_filtered c).
Definition rows (c : t) : list pyval := deref c (_data c).

(** The three attributes name three different list objects of the store, as
    they do from the first [refresh] on. *)
Definition separated (c : t) : Prop :=
  _map c ≠ _map_filtered c ∧ _map c ≠ _data c ∧ _map_filtered c ≠ _data c ∧
  _map c < length (heap c) ∧ _map_filtered c < length (heap c) ∧
  _data c < length (heap c).

(** [id] has a row that is not the tombstone [None]. *)
Definition has_row (c : t) (v : pyval) : Prop :=
  ∃ n r, v = PInt n ∧ rows c !! n = Some (PRow r).

(** The invariant of the data model: the visible ids are a subsequence of
    all ids, and every listed id has a row. *)
Definition consistent (c : t) : Prop :=
  visible_ids c `sublist_of` all_ids c ∧
  (∀ v, v ∈ all_ids c → has_row c v) ∧
  (∀ v, v ∈ visible_ids c → has_row c v).

(** The invariant with duplicates ruled out: distinct list objects, the
    visible ids a subsequence of all ids, a row for every listed id, and no
    id listed twice. *)
Definition healthy (c : t) : Prop :=
  separated c ∧ consistent c ∧ NoDup (all_ids c).

End ResultCache.

(** ** os.path and the file system, as on a POSIX platform

    [os.sep] is [/], [os.path.normcase] is the identity, and every entry of
    the file system is readable and writable.  The file system is keyed by
    absolute normalised paths, the way the operating system resolves them. *)
Module Os.

Definition chars (s : string) : list ascii := list_ascii_of_string s.
Definition text (l : list ascii) : string := string_of_list_ascii l.

Definition is_slash (c : ascii) : bool := Ascii.eqb c PyStr.slash.

Definition starts_with_slash (s : string) : bool :=
  match s with String c _ => is_slash c | EmptyString => false end.

Definition ends_with_slash (s : string) : bool :=
  match rev (chars s) with c :: _ => is_slash c | [] => false end.

(** [posixpath.join(a, *parts)] *)
Fixpoint join (a : string) (parts : list string) : string :=
  match parts with
  | [] => a
  | b :: rest =>
      if starts_with_slash b then join b rest
      else if negb (PyStr.truthy a) || ends_with_slash a then join (a +:+ b) rest
      else join (a +:+ "/" +:+ b) rest
  end.

Fixpoint drop_while (f : ascii -> bool) (l : list ascii) : list ascii :=
  match l with
  | c :: rest => if f c then drop_while f rest else l
  | [] => []
  end.

(** [posixpath.dirname(p)] *)
Definition dirname (p : string) : string :=
  let head := rev (drop_while (fun c => negb (is_slash c)) (rev (chars p))) in
  if forallb is_slash head then text head
  else text (rev (drop_while is_slash (rev head))).

(** The loop of [posixpath.normpath] over the components. *)
Fixpoint norm_comps (rooted : bool) (comps : list string) (acc : list string)
  : list string :=
  match comps with
  | [] => rev acc
  | comp :: rest =>
      if String.eqb comp "" || String.eqb comp "." then norm_comps rooted rest acc
      else if negb (String.eqb comp "..") then norm_comps rooted rest (comp :: acc)
      else match acc with
           | [] => if rooted then norm_comps rooted rest acc
                   else norm_comps rooted rest (comp :: acc)
           | top :: acc' =>
               if String.eqb top ".." then norm_comps rooted rest (comp :: acc)
               else norm_comps rooted rest acc'
           end
  end.

(** [posixpath.normpath(path)] *)
Definition normpath (path : string) : string :=
  match path with
  | EmptyString => "."
  | _ =>
      let initial_slashes :=
        if starts_with_slash path then
          if String.prefix "//" path && negb (String.prefix "///" path) then 2 else 1
        else 0 in
      let comps := norm_comps (0 <? initial_slashes) (PyStr.split PyStr.slash path) [] in
      let joined := PyStr.join "/" comps in
      let res := match initial_slashes with
                 | 0 => joined
                 | 1 => "/" +:+ joined
                 | _ => "//" +:+ joined
                 end in
      if PyStr.truthy res then res else "."
  end.

Record FS : Type := mkFS {
  cwd : string;
  dirs : list string;
  files : list (string * string)
}.

(** [os.path.abspath(path)] *)
Definition abspath (fs : FS) (path : string) : string :=
  if starts_with_slash path then normpath path
  else normpath (join (cwd fs) [path]).

(** [norm = lambda x : os.path.abspath(os.path.normcase(x))] of [set_path] *)
Definition norm (fs : FS) (x : string) : string := abspath fs x.

Definition is_dir (fs : FS) (p : string) : bool :=
  bool_decide (abspath fs p ∈ dirs fs).

Fixpoint assoc (k : string) (l : list (string * string)) : option string :=
  match l with
  | [] => None
  | (k', v) :: rest => if String.eqb k k' then Some v else assoc k rest
  end.

Definition file (fs : FS) (p : string) : option string :=
  assoc (abspath fs p) (files fs).

(** [os.path.exists(p)] *)
Definition exists_ (fs : FS) (p : string) : bool :=
  is_dir fs p || bool_decide (is_Some (file fs p)).

(** [os.access(p, os.R_OK | os.W_OK)] and [os.access(p, os.R_OK)] *)
Definition access (fs : FS) (p : string) : bool := exists_ fs p.

(** The directory [k] and the directories above it. *)
Fixpoint ancestors (fuel : nat) (k : string) : list string :=
  match fuel with
  | 0 => []
  | S fuel' =>
      if forallb is_slash (chars k) then []
      else k :: ancestors fuel' (dirname k)
  end.

(** [os.makedirs(p)] *)
Definition makedirs (fs : FS) (p : string) : result FS :=
  let k := abspath fs p in
  if exists_ fs p then Raise OSError
  else
    let fresh := List.filter (fun a => negb (bool_decide (a ∈ dirs fs)))
                             (ancestors (String.length k) k) in
    Ok (mkFS (cwd fs) (fresh ++ dirs fs) (files fs)).

(** [open(p, 'wb').write(content)] *)
Definition write_file (fs : FS) (p : string) (content : string) : result FS :=
  let k := abspath fs p in
  if is_dir fs p || negb (is_dir fs (dirname k)) then Raise IOError
  else
    Ok (mkFS (cwd fs) (dirs fs)
          ((k, content) :: List.filter (fun e => negb (String.eqb (fst e) k)) (files fs))).

(** [open(p, 'rb').read()] *)
Definition read_file (fs : FS) (p : string) : result string :=
  match file fs p with
  | Some content => Ok content
  | None => Raise IOError
  end.

(** [os.remove(p)] *)
Definition remove (fs : FS) (p : string) : result FS :=
  let k := abspath fs p in
  match file fs p with
  | Some _ =>
      Ok (mkFS (cwd fs) (dirs fs)
            (List.filter (fun e => negb (String.eqb (fst e) k)) (files fs)))
  | None => Raise OSError
  end.

(** [k'] is [k] or lies below it. *)
Definition under (k k' : string) : bool :=
  String.eqb k k' || String.prefix (k +:+ "/") k'.

(** [shutil.rmtree(p)] *)
Definition rmtree (fs : FS) (p : string) : result FS :=
  let k := abspath fs p in
  if is_dir fs p then
    Ok (mkFS (cwd fs)
          (List.filter (fun d => negb (under k d)) (dirs fs))
          (List.filter (fun e => negb (under k (fst e))) (files fs)))
  else Raise OSError.

(** [os.listdir(p)]: the entries directly inside [p], by their paths *)
Definition listdir (fs : FS) (p : string) : result (list string) :=
  let k := abspath fs p in
  if is_dir fs p then
    Ok (List.filter (fun d => String.eqb (dirname d) k && negb (String.eqb d k))
          (dirs fs ++ map fst (files fs)))
  else Raise OSError.

End Os.

(** ** LibraryDatabase2 (lines 340-1048): paths, relocation, formats *)
Module Library.

(** A row of [books], with the columns the modelled methods read or write.
    [book_authors] is the comma separated author list of the [meta] view,
    [None] when the book has no author. *)
Record Book : Type := mkBook {
  book_id : nat;
  book_title : string;
  book_authors : option string;
  book_path : string
}.

(** A row of [data]: one format of a book. *)
Record Data : Type := mkData {
  data_book : nat;
  data_format : string;
  data_size : nat;
  data_name : string
}.

Record DB : Type := mkDB { books : list Book; data : list Data }.

(** The statements that write to the store. *)
Inductive sql : Type :=
| UpdatePath (id : nat) (path : string)
| UpdateTitle (id : nat) (title : string)
| DeleteData (id : nat) (format : string)
| InsertData (row : Data).

(** The effects a call leaves behind, in program order.  Reads of the store
    and probes of the file system ([os.path.exists], [os.access], reading a
    file) are not effects. *)
Inductive event : Type :=
| EMakedirs (p : string)
| EWrite (p : string) (content : string)
| ERemove (p : string)
| ERmtree (p : string)
| EExecute (stmt : sql)
| ECommit
| ENotify (name : string) (ids : list nat).

(** A listener: called with the event name and the ids, it returns or raises. *)
Definition listener : Type := string -> list nat -> result unit.

(** The object and its surroundings. [db] is the connection's view of the
    store, [committed] what the last [commit] made durable. *)
Record World : Type := mkWorld {
  library_path : string;
  PATH_LIMIT : nat;
  listeners : list listener;
  db : DB;
  committed : DB;
  fs : Os.FS;
  trace : list event
}.

(** Computations over the world that may raise. *)
Definition M (A : Type) : Type := World -> result A * World.

Definition ret {A : Type} (a : A) : M A := fun w => (Ok a, w).
Definition raise {A : Type} (e : pyerr) : M A := fun w => (Raise e, w).
Definition bind {A B : Type} (m : M A) (k : A -> M B) : M B :=
  fun w => match m w with
           | (Ok a, w') => k a w'
           | (Raise e, w') => (Raise e, w')
           end.

(** [try: m except: h] *)
Definition try_except {A : Type} (m : M A) (h : M A) : M A :=
  fun w => match m w with
           | (Ok a, w') => (Ok a, w')
           | (Raise _, w') => h w'
           end.

Definition get : M World := fun w => (Ok w, w).
Definition lift {A : Type} (r : result A) : M A := fun w => (r, w).

Definition emit (e : event) : M unit :=
  fun w => (Ok tt, mkWorld (library_path w) (PATH_LIMIT w) (listeners w)
                     (db w) (committed w) (fs w) (trace w ++ [e])).
Definition set_db (d : DB) : M unit :=
  fun w => (Ok tt, mkWorld (library_path w) (PATH_LIMIT w) (listeners w)
                     d (committed w) (fs w) (trace w)).
Definition set_committed (d : DB) : M unit :=
  fun w => (Ok tt, mkWorld (library_path w) (PATH_LIMIT w) (listeners w)
                     (db w) d (fs w) (trace w)).
Definition set_fs (f : Os.FS) : M unit :=
  fun w => (Ok tt, mkWorld (library_path w) (PATH_LIMIT w) (listeners w)
                     (db w) (committed w) f (trace w)).

Declare Scope lib_scope.
Delimit Scope lib_scope with lib.
Notation "x <- m ;; k" := (bind m (fun x => k))
  (at level 100, m at next level, right associativity) : lib_scope.
Notation "m ;; k" := (bind m (fun _ => k))
  (at level 100, right associativity) : lib_scope.
Local Open Scope lib_scope.

Definition when (b : bool) (m : M unit) : M unit := if b then m else ret tt.

(** *** The store *)

Definition apply_sql (stmt : sql) (d : DB) : DB :=
  match stmt with
  | UpdatePath id path =>
      mkDB (map (fun b => if Nat.eqb (book_id b) id
                          then mkBook (book_id b) (book_title b) (book_authors b) path
                          else b) (books d)) (data d)
  | UpdateTitle id title =>
      mkDB (map (fun b => if Nat.eqb (book_id b) id
                          then mkBook (book_id b) title (book_authors b) (book_path b)
                          else b) (books d)) (data d)
  | DeleteData id format =>
      mkDB (books d)
           (List.filter (fun r => negb (Nat.eqb (data_book r) id
                                        && String.eqb (data_format r) format)) (data d))
  | InsertData row => mkDB (books d) (data d ++ [row])
  end.

(** [self.conn.execute(stmt)] for a statement that writes *)
Definition execute (stmt : sql) : M unit :=
  w <- get ;; set_db (apply_sql stmt (db w)) ;; emit (EExecute stmt).

(** [self.conn.commit()] *)
Definition commit : M unit :=
  w <- get ;; set_committed (db w) ;; emit ECommit.

(** [SELECT ... FROM books WHERE id=?], [fetchone()] *)
Definition select_book (d : DB) (id : nat) : option Book :=
  List.find (fun b => Nat.eqb (book_id b) id) (books d).

(** [SELECT ... FROM data WHERE book=?], [fetchall()] *)
Definition select_data (d : DB) (id : nat) : list Data :=
  List.filter (fun r => Nat.eqb (data_book r) id) (data d).

(** [SELECT name FROM data WHERE book=? AND format=?], [fetchone()] *)
Definition select_name (d : DB) (id : nat) (format : string) : option string :=
  option_map data_name
    (List.find (fun r => Nat.eqb (data_book r) id && String.eqb (data_format r) format)
               (data d)).

(** [row[0]] of a [fetchone()] result: subscripting [None] raises. *)
Definition first_column {A : Type} (row : option A) : M A :=
  match row with Some a => ret a | None => raise TypeError end.

(** *** The file system, with its effects recorded *)

Definition os_exists (p : string) : M bool := w <- get ;; ret (Os.exists_ (fs w) p).
Definition os_access (p : string) : M bool := w <- get ;; ret (Os.access (fs w) p).
Definition os_makedirs (p : string) : M unit :=
  w <- get ;; f <- lift (Os.makedirs (fs w) p) ;; set_fs f ;; emit (EMakedirs p).
Definition os_write (p : string) (content : string) : M unit :=
  w <- get ;; f <- lift (Os.write_file (fs w) p content) ;; set_fs f ;;
  emit (EWrite p content).
Definition os_read (p : string) : M string := w <- get ;; lift (Os.read_file (fs w) p).
Definition os_remove (p : string) : M unit :=
  w <- get ;; f <- lift (Os.remove (fs w) p) ;; set_fs f ;; emit (ERemove p).
Definition shutil_rmtree (p : string) : M unit :=
  w <- get ;; f <- lift (Os.rmtree (fs w) p) ;; set_fs f ;; emit (ERmtree p).
Definition os_listdir (p : string) : M (list string) :=
  w <- get ;; lift (Os.listdir (fs w) p).

(** *** Inherited accessors *)

(** Modelled from the spec: [LibraryDatabase.title] of
    [calibre/library/database.py], which is not part of the sources.  It
    reads the title attribute of the item. *)
Definition title (id : nat) : M string :=
  w <- get ;; b <- first_column (select_book (db w) id) ;; ret (book_title b).

(** Modelled from the spec: [LibraryDatabase.authors] of
    [calibre/library/database.py], which is not part of the sources.  It
    reads the authors of the item as a comma separated list, or [None]. *)
Definition authors (id : nat) : M (option string) :=
  w <- get ;; b <- first_column (select_book (db w) id) ;; ret (book_authors b).

(** *** Methods of LibraryDatabase2 *)

(** [path] (lines 445-449), called with [index_is_id=True].  With [/] as
    [os.sep] the [replace('/', os.sep)] here and the [replace(os.sep, '/')]
    of [set_path] leave the string as it is. *)
Definition path (id : nat) : M string :=
  w <- get ;; b <- first_column (select_book (db w) id) ;; ret (book_path b).

(** The author component shared by [construct_path_name] and
    [construct_file_name]: the first author, or [Unknown] (the untranslated
    message) when [authors] is [None] or empty, truncated and sanitized. *)
Definition author_component (limit : nat) (authors : option string) : string :=
  let authors := match authors with
                 | Some a => if PyStr.truthy a then a else "Unknown"
                 | None => "Unknown"
                 end in
  Sanitize.sanitize_file_name (PyStr.take limit (PyStr.split_head PyStr.comma authors)).

Definition title_component (limit : nat) (title : string) : string :=
  Sanitize.sanitize_file_name (PyStr.take limit title).

(** [construct_path_name] (lines 459-469) *)
Definition construct_path_name (id : nat) : M string :=
  w <- get ;;
  authors <- authors id ;;
  let author := author_component (PATH_LIMIT w) authors in
  t <- title id ;;
  let title := title_component (PATH_LIMIT w) t in
  ret (author +:+ "/" +:+ title +:+ " (" +:+ PyStr.of_nat id +:+ ")").

(** [construct_file_name] (lines 471-481) *)
Definition construct_file_name (id : nat) : M string :=
  w <- get ;;
  authors <- authors id ;;
  let author := author_component (PATH_LIMIT w) authors in
  t <- title id ;;
  let title := title_component (PATH_LIMIT w) t in
  ret (title +:+ " - " +:+ author).

(** [notify] (lines 539-546): every listener is called, and what a listener
    raises is caught. *)
Fixpoint call_listeners (ls : list listener) (name : string) (ids : list nat)
  : M unit :=
  match ls with
  | [] => ret tt
  | l :: rest =>
      try_except (lift (l name ids)) (ret tt) ;;
      call_listeners rest name ids
  end.

Definition notify (name : string) (ids : list nat) : M unit :=
  w <- get ;;
  emit (ENotify name ids) ;;
  call_listeners (listeners w) name ids.

(** [('.' + format.lower()) if format else ''] *)
Definition extension (format : string) : string :=
  if PyStr.truthy format then "." +:+ PyStr.lower format else "".

(** [cover] (lines 548-563), with [as_file=False], [as_image=False] *)
Definition cover (id : nat) : M (option string) :=
  w <- get ;;
  p <- path id ;;
  let cpath := Os.join (library_path w) [p; "cover.jpg"] in
  ok <- os_access cpath ;;
  if ok then (c <- os_read cpath ;; ret (Some c)) else ret None.

(** The last loop of [formats]: the formats whose file can be reached. *)
Fixpoint accessible (dir name : string) (formats : list string) : M (list string) :=
  match formats with
  | [] => ret []
  | format :: rest =>
      ok <- os_access (Os.join dir [name +:+ extension format]) ;;
      ans <- accessible dir name rest ;;
      ret (if ok then format :: ans else ans)
  end.

(** [formats] (lines 590-605) *)
Definition formats (id : nat) : M (option string) :=
  w <- get ;;
  p <- path id ;;
  let dir := Os.join (library_path w) [p] in
  let rows := select_data (db w) id in
  match rows with
  | [] => ret None
  | first :: _ =>
      ans <- accessible dir (data_name first) (map data_format rows) ;;
      ret (Some (PyStr.join "," ans))
  end.

(** [format_abspath] (lines 608-617) *)
Definition format_abspath (id : nat) (format : string) : M (option string) :=
  w <- get ;;
  p <- path id ;;
  let dir := Os.join (library_path w) [p] in
  name <- first_column (select_name (db w) id format) ;;
  if PyStr.truthy name then
    let fpath := Os.join dir [name +:+ extension format] in
    ok <- os_access fpath ;;
    ret (if ok then Some fpath else None)
  else ret None.

(** [format] (lines 619-630), with [as_file=False].  When the file cannot
    be reached the method calls [remove_format] with the builtin function
    [id] as the book id, which the store refuses to bind. *)
Definition format (id : nat) (fmt : string) : M string :=
  p <- format_abspath id fmt ;;
  match p with
  | Some fpath => os_read fpath
  | None => raise InterfaceError
  end.

(** [add_format] (lines 632-652), with [index_is_id=True] and [path] given;
    [stream] is the content the stream yields. *)
Definition add_format (id : nat) (format : string) (stream : string) (dir : string)
  : M unit :=
  w <- get ;;
  when (bool_decide (is_Some (select_name (db w) id format)))
       (execute (DeleteData id format)) ;;
  name <- construct_file_name id ;;
  let dest := Os.join dir [name +:+ extension format] in
  let pdir := Os.dirname dest in
  ex <- os_exists pdir ;;
  when (negb ex) (os_makedirs pdir) ;;
  os_write dest stream ;;
  let size := String.length stream in
  execute (InsertData (mkData id (PyStr.upper format) size name)) ;;
  commit ;;
  notify "metadata" [id].

(** [remove_format] (lines 670-684), with [index_is_id=True] *)
Definition remove_format (id : nat) (format : string) : M unit :=
  w <- get ;;
  p <- path id ;;
  let dir := Os.join (library_path w) [p] in
  let name := match select_name (db w) id format with
              | Some n => n
              | None => ""
              end in
  if PyStr.truthy name then
    let fpath := Os.join dir [name +:+ extension format] in
    try_except (os_remove fpath) (ret tt) ;;
    execute (DeleteData id (PyStr.upper format)) ;;
    commit ;;
    notify "metadata" [id]
  else ret tt.

(** The loop of [set_path] that looks for a stored name that differs from
    the computed one. *)
Fixpoint name_changed (id : nat) (fname : string) (formats : list string) : M bool :=
  match formats with
  | [] => ret false
  | format :: rest =>
      w <- get ;;
      name <- first_column (select_name (db w) id format) ;;
      if PyStr.truthy name && negb (String.eqb name fname) then ret true
      else name_changed id fname rest
  end.

(** The loop of [set_path] that copies the formats to the new directory. *)
Fixpoint migrate (id : nat) (tpath : string) (formats : list string) : M unit :=
  match formats with
  | [] => ret tt
  | fmt :: rest =>
      f <- format id fmt ;;
      (if PyStr.truthy f then add_format id fmt f tpath else ret tt) ;;
      migrate id tpath rest
  end.

(** [formats.split(',') if formats else []] *)
Definition format_list (formats : option string) : list string :=
  match formats with
  | Some s => if PyStr.truthy s then PyStr.split PyStr.comma s else []
  | None => []
  end.

(** The block of [set_path] under [# Migrate existing files]. *)
Definition migrate_existing (id : nat) (current_path spath tpath : string)
  (formats : list string) : M unit :=
  ex <- os_exists spath ;;
  when (PyStr.truthy current_path && ex)
    (cdata <- cover id ;;
     match cdata with
     | Some c => os_write (Os.join tpath ["cover.jpg"]) c
     | None => ret tt
     end ;;
     migrate id tpath formats).

(** The block of [set_path] under [# Delete not needed directories]. *)
Definition delete_not_needed (current_path spath tpath : string) : M unit :=
  ex <- os_exists spath ;;
  when (PyStr.truthy current_path && ex)
    (w <- get ;;
     when (negb (String.eqb (Os.norm (fs w) spath) (Os.norm (fs w) tpath)))
       (shutil_rmtree spath ;;
        let parent := Os.dirname spath in
        entries <- os_listdir parent ;;
        when (Nat.eqb (List.length entries) 0) (shutil_rmtree parent))).

(** [set_path] (lines 483-530), with [index_is_id=True] *)
Definition set_path (id : nat) : M unit :=
  w <- get ;;
  pth <- construct_path_name id ;;
  current_path <- path id ;;
  fs_ <- formats id ;;
  let formats := format_list fs_ in
  fname <- construct_file_name id ;;
  changed <- name_changed id fname formats ;;
  if String.eqb pth current_path && negb changed then ret tt
  else
    let tpath := Os.join (library_path w) (PyStr.split PyStr.slash pth) in
    ex <- os_exists tpath ;;
    when (negb ex) (os_makedirs tpath) ;;
    let spath := Os.join (library_path w) (PyStr.split PyStr.slash current_path) in
    migrate_existing id current_path spath tpath formats ;;
    execute (UpdatePath id pth) ;;
    commit ;;
    delete_not_needed current_path spath tpath.

(** The test [set_path] makes before it returns early: whether a format
    that [formats] lists has a stored file name, not empty, that differs
    from the computed one. *)
Definition names_changed (id : nat) : M bool :=
  fs_ <- formats id ;;
  fname <- construct_file_name id ;;
  name_changed id fname (format_list fs_).

(** [set_title] (lines 805-812); [title] is [None] or a string. *)
Definition set_title (id : nat) (title : option string) : M unit :=
  match title with
  | None => ret tt
  | Some t =>
      if negb (PyStr.truthy t) then ret tt
      else
        execute (UpdateTitle id t) ;;
        set_path id ;;
        notify "metadata" [id]
  end.

End Library.

(** ** Reference functions used to state the properties *)
Module Ref.
Import ResultCache.

(** [l] without the first element equal to [x]; [l] itself when there is none. *)
Fixpoint remove_first (x : pyval) (l : list pyval) : list pyval :=
  match l with
  | [] => []
  | y :: l' => if decide (x = y) then l' else y :: remove_first x l'
  end.

(** The row a token is shown for the list element [v]. *)
Definition row_of (d : list pyval) (v : pyval) : pyval :=
  match getitem d v with Ok r => r | Raise _ => PNone end.

(** Whether [filter] keeps the element [v]: with no token everything is
    kept; otherwise some token, or every token, has to match its row. *)
Definition keeps (filters : list token) (OR : bool) (d : list pyval) (v : pyval) : bool :=
  match filters with
  | [] => true
  | _ :: _ =>
      if OR then existsb (fun tok : token => tok (row_of d v)) filters
      else forallb (fun tok : token => tok (row_of d v)) filters
  end.

(** Every element of [l] is an id that indexes a slot of [d]. *)
Definition in_range (d : list pyval) (l : list pyval) : Prop :=
  ∀ v, v ∈ l → ∃ n, v = PInt n ∧ n < length d.

(** The path the specification gives: each component is sanitized first and
    truncated to the limit afterwards. *)
Definition canonical_path_spec (limit : nat) (primary_author title : string) (id : nat)
  : string :=
  PyStr.take limit (Sanitize.sanitize_file_name primary_author) +:+ "/" +:+
  PyStr.take limit (Sanitize.sanitize_file_name title) +:+
  " (" +:+ PyStr.of_nat id +:+ ")".

End Ref.

(** ** Concrete libraries used as worked examples *)
Module Examples.
Import ResultCache.

Definition row1 : Row := mkRow 1 ["1"; "Emma"; "Jane Austen"].
Definition row2 : Row := mkRow 2 ["2"; "Persuasion"; "Jane Austen"].

(** The [meta] view of a library that holds books 1 and 2. *)
Definition conn12 (id : nat) : option Row :=
  match id with
  | 1 => Some row1
  | 2 => Some row2
  | _ => None
  end.

(** The cache after [refresh] on that library, sorted by descending id. *)
Definition loaded : t :=
  {| heap := [[]; [PInt 2; PInt 1]; [PInt 2; PInt 1];
              [PNone; PRow row1; PRow row2; PNone]];
     _map := 1; _map_filtered := 2; _data := 3 |}.

(** A token that matches the rows whose title column is [Emma]. *)
Definition title_is_emma : token :=
  fun v => match v with
           | PRow r => bool_decide (row_cols r !! 1 = Some "Emma")
           | _ => false
           end.

(** *** Libraries on disk *)
Import Library.

Definition long_title : string :=
  "An Inquiry into the Nature and Causes of the Wealth of Nations, Being a Treatise upon the Political Oeconomy and the Revenue of the Sovereign".

Definition smith : Book := mkBook 1 long_title (Some "Adam Smith") "".

(** A library with one book whose title is longer than the limit. *)
Definition w_smith : World :=
  mkWorld "/library" 100 [] (mkDB [smith] []) (mkDB [smith] [])
    (Os.mkFS "/" ["/library"] []) [].

(** Book 1 was filed as [Ema] and its title has just been corrected to
    [Emma]: the stored path and the name of its EPUB file are the old ones. *)
Definition emma : Book := mkBook 1 "Emma" (Some "Jane Austen") "Jane Austen/Ema (1)".

Definition emma_db : DB :=
  mkDB [emma] [mkData 1 "EPUB" 9 "Ema - Jane Austen"].

Definition w_emma : World :=
  mkWorld "/library" 100 [] emma_db emma_db
    (Os.mkFS "/"
       ["/library"; "/library/Jane Austen"; "/library/Jane Austen/Ema (1)"]
       [("/library/Jane Austen/Ema (1)/Ema - Jane Austen.epub", "EPUB data");
        ("/library/Jane Austen/Ema (1)/cover.jpg", "JPEG data")])
    [].

(** The effects of relocating book 1 of [w_emma] that precede the deletion
    of its old directory. *)
Definition emma_copying : list event :=
  [EMakedirs "/library/Jane Austen/Emma (1)";
   EWrite "/library/Jane Austen/Emma (1)/cover.jpg" "JPEG data";
   EExecute (DeleteData 1 "EPUB");
   EWrite "/library/Jane Austen/Emma (1)/Emma - Jane Austen.epub" "EPUB data";
   EExecute (InsertData (mkData 1 "EPUB" 9 "Emma - Jane Austen"));
   ECommit;
   ENotify "metadata" [1]].

(** Book 1 is filed under its current title, but its EPUB row still carries
    an old file name and the file is empty. *)
Definition stale : Book := mkBook 1 "Emma" (Some "Jane Austen") "Jane Austen/Emma (1)".

Definition stale_db : DB :=
  mkDB [stale] [mkData 1 "EPUB" 0 "Ema - Jane Austen"].

Definition w_stale : World :=
  mkWorld "/library" 100 [] stale_db stale_db
    (Os.mkFS "/"
       ["/library"; "/library/Jane Austen"; "/library/Jane Austen/Emma (1)"]
       [("/library/Jane Austen/Emma (1)/Ema - Jane Austen.epub", "")])
    [].

(** Book 7 has an EPUB row whose file is no longer on disk. *)
Definition seven : Book := mkBook 7 "Emma" (Some "Jane Austen") "Jane Austen/Emma (7)".

Definition seven_db : DB :=
  mkDB [seven] [mkData 7 "EPUB" 9 "Emma - Jane Austen"].

Definition w_seven : World :=
  mkWorld "/library" 100 [] seven_db seven_db
    (Os.mkFS "/"
       ["/library"; "/library/Jane Austen"; "/library/Jane Austen/Emma (7)"] [])
    [].

End Examples.

(** ** Vocabulary for the effects of a computation *)
Module Frame.
Import Library.

(** The computation leaves the world as it found it. *)
Definition silent {A : Type} (m : M A) : Prop := forall w, snd (m w) = w.

(** [w'] extends [w]: same object attributes, same [books] table, same
    working directory, and a trace longer by events that satisfy [P]. *)
Definition extends (P : event -> Prop) (w w' : World) : Prop :=
  library_path w' = library_path w /\ PATH_LIMIT w' = PATH_LIMIT w /\
  listeners w' = listeners w /\ books (db w') = books (db w) /\
  Os.cwd (fs w') = Os.cwd (fs w) /\
  exists t, trace w' = trace w ++ t /\ Forall P t.

Definition within (P : event -> Prop) {A : Type} (m : M A) : Prop :=
  forall w r w', m w = (r, w') -> extends P w w'.

(** The events of copying a book's files: everything except the deletion of
    a directory and an update of the [books] table. *)
Definition copying (e : event) : Prop :=
  match e with
  | ERmtree _ => False
  | EExecute (UpdatePath _ _) => False
  | EExecute (UpdateTitle _ _) => False
  | _ => True
  end.

(** The world after [UPDATE books SET path=?] and [commit]. *)
Definition path_committed (w : World) (id : nat) (pth : string) : World :=
  mkWorld (library_path w) (PATH_LIMIT w) (listeners w)
    (apply_sql (UpdatePath id pth) (db w))
    (apply_sql (UpdatePath id pth) (db w))
    (fs w)
    ((trace w ++ [EExecute (UpdatePath id pth)]) ++ [ECommit]).

(** The directory of a stored or computed relative path. *)
Definition dir_of (w : World) (rel : string) : string :=
  Os.join (library_path w) (PyStr.split PyStr.slash rel).

(** The part of [set_path] that follows the early return, for the path,
    stored path and format list it has computed. *)
Definition relocation (id : nat) (pth current_path : string) (formats : list string)
  : M unit :=
  (w <- get ;;
   let tpath := dir_of w pth in
   ex <- os_exists tpath ;;
   when (negb ex) (os_makedirs tpath) ;;
   let spath := dir_of w current_path in
   migrate_existing id current_path spath tpath formats ;;
   execute (UpdatePath id pth) ;;
   commit ;;
   delete_not_needed current_path spath tpath)%lib.

(** The deletions of [delete_not_needed]: the old directory and its parent. *)
Definition deletion (spath : string) (e : event) : Prop :=
  e = ERmtree spath \/ e = ERmtree (Os.dirname spath).

End Frame.

(** ** Concatenate (lines 152-167): the [concat] aggregate *)
Module Concatenate.

Record t : Type := mk { sep : string; ans : string }.

(** [__init__] *)
Definition init (sep : string) : t := mk sep "".

(** [step]; [None] is the SQL [NULL]. *)
Definition step (value : option string) (c : t) : t :=
  match value with
  | Some v => mk (sep c) (ans c +:+ v +:+ sep c)
  | None => c
  end.

(** [s[:-n]] for a positive [n] *)
Definition drop_last (n : nat) (s : string) : string :=
  PyStr.take (String.length s - n) s.

(** [finalize] *)
Definition finalize (c : t) : option string :=
  if negb (PyStr.truthy (ans c)) then None
  else if PyStr.truthy (sep c) then Some (drop_last (String.length (sep c)) (ans c))
  else Some (ans c).

(** The aggregate as SQLite runs it over the values of a group: a new
    object, one [step] for each value in order, then [finalize]. *)
Definition concat (sep : string) (values : list (option string)) : option string :=
  finalize (fold_left (fun c v => step v c) values (init sep)).

End Concatenate.

(** ** title_sort (lines 368-375), the SQL function defined in [connect]

    SQLite hands the title over as a [unicode] object; its characters are
    modelled as code points below 256. *)
Module TitleSort.

(** The lower-casing of [re.IGNORECASE] without [re.UNICODE]: ASCII only. *)
Definition lower_char (c : ascii) : ascii :=
  if PyStr.is_upper c then ascii_of_nat (nat_of_ascii c + 32) else c.

(** A literal of the pattern matched at the start of [s] ignoring case:
    what follows the match, or [None]. *)
Fixpoint match_literal (lit s : string) : option string :=
  match lit, s with
  | EmptyString, _ => Some s
  | String a lit', String c s' =>
      if Ascii.eqb (lower_char a) (lower_char c) then match_literal lit' s' else None
  | String _ _, EmptyString => None
  end.

(** One alternative of [^(A|The|An)\s+]: the literal, then at least one
    character of the class [\s]. *)
Definition alternative (lit title : string) : bool :=
  match match_literal lit title with
  | Some (String c _) => Sanitize.is_space c
  | _ => false
  end.

(** [title_pat.search(title)], seen through [match.group(1)]: the
    alternatives are tried in the order of the pattern. *)
Definition title_pat (title : string) : option string :=
  if alternative "A" title then Some (PyStr.take 1 title)
  else if alternative "The" title then Some (PyStr.take 3 title)
  else if alternative "An" title then Some (PyStr.take 2 title)
  else None.

(** The scan of [str.replace] for a non-empty [old]: [skip] characters of
    an occurrence just replaced are still to be passed over. *)
Fixpoint replace_from (skip : nat) (old new s : string) : string :=
  match s with
  | EmptyString => EmptyString
  | String c rest =>
      match skip with
      | S k => replace_from k old new rest
      | 0 =>
          if String.prefix old s
          then new +:+ replace_from (String.length old - 1) old new rest
          else String c (replace_from 0 old new rest)
      end
  end.

(** [new] put before every character, for [s.replace('', new)]. *)
Fixpoint interleave (new s : string) : string :=
  match s with
  | EmptyString => EmptyString
  | String c rest => String c (new +:+ interleave new rest)
  end.

(** [s.replace(old, new)]: every occurrence, left to right, not overlapping *)
Definition replace (old new s : string) : string :=
  match old with
  | EmptyString => new +:+ interleave new s
  | String _ _ => replace_from 0 old new s
  end.

(** The characters [unicode.strip()] removes, below 256. *)
Definition uspace_codes : list nat := [9; 10; 11; 12; 13; 28; 29; 30; 31; 32; 133; 160].

Definition is_uspace (c : ascii) : bool :=
  existsb (Nat.eqb (nat_of_ascii c)) uspace_codes.

Fixpoint lstrip (s : string) : string :=
  match s with
  | EmptyString => EmptyString
  | String c rest => if is_uspace c then lstrip rest else s
  end.

Fixpoint rstrip (s : string) : string :=
  match s with
  | EmptyString => EmptyString
  | String c rest =>
      match rstrip rest with
      | EmptyString => if is_uspace c then EmptyString else String c EmptyString
      | r => String c r
      end
  end.

Definition strip (s : string) : string := rstrip (lstrip s).

Definition title_sort (title : string) : string :=
  match title_pat title with
  | Some prep => strip (replace prep "" title +:+ ", " +:+ prep)
  | None => strip title
  end.

End TitleSort.

(** ** CoverCache, the worker side (lines 56-67 and 85-150) *)
Module CoverThread.
Import CoverCache.

Definition lparen : ascii := ascii_of_nat 40.
Definition rparen : ascii := ascii_of_nat 41.

(** [posixpath.basename(p)]: what follows the last slash *)
Definition basename (p : string) : string :=
  default EmptyString (last (PyStr.split PyStr.slash p)).

(** [s.rindex(ch)]: the last position of [ch]; [None] stands for the
    [ValueError] raised when there is none. *)
Fixpoint rindex (ch : ascii) (s : string) : option nat :=
  match s with
  | EmptyString => None
  | String c rest =>
      match rindex ch rest with
      | Some i => Some (S i)
      | None => if Ascii.eqb c ch then Some 0 else None
      end
  end.

(** [s[i:]] *)
Fixpoint drop (i : nat) (s : string) : string :=
  match i, s with
  | S i', String _ rest => drop i' rest
  | _, _ => s
  end.

Definition is_digit (c : ascii) : bool :=
  (48 <=? nat_of_ascii c) && (nat_of_ascii c <=? 57).

(** The longest run of digits at the start of [s], and what follows it. *)
Fixpoint span_digits (s : string) : string * string :=
  match s with
  | EmptyString => (EmptyString, EmptyString)
  | String c rest =>
      if is_digit c then let (ds, r) := span_digits rest in (String c ds, r)
      else (EmptyString, s)
  end.

(** The pattern [\((\d+)\)] matched at the start of [s]: group 1.  The run
    of digits is taken whole: a shorter run is followed by a digit, never
    by the closing parenthesis. *)
Definition match_here (s : string) : option string :=
  match s with
  | String c r =>
      if Ascii.eqb c lparen then
        match span_digits r with
        | (String d ds, String c' _) =>
            if Ascii.eqb c' rparen then Some (String d ds) else None
        | _ => None
        end
      else None
  | EmptyString => None
  end.

(** [re.search(r'\((\d+)\)', s)]: the leftmost match *)
Fixpoint search (s : string) : option string :=
  match match_here s with
  | Some g => Some g
  | None => match s with
            | String _ rest => search rest
            | EmptyString => None
            end
  end.

(** [int(ds)] for a string of decimal digits *)
Definition int (ds : string) : option nat :=
  option_map Nat.of_uint (NilEmpty.uint_of_string ds).

(** The [try] block of [build_id_map]: the id that the directory name [c]
    carries, or [None] when any of its steps raises. *)
Definition parse_id (c : string) : option nat :=
  match rindex lparen c with
  | None => None
  | Some i =>
      match search (drop i c) with
      | None => None
      | Some g => int g
      end
  end.

(** The loop of [build_id_map] over the result of [glob.glob]. *)
Definition scan (found : list string) : gmap nat string :=
  fold_left (fun m f =>
               match parse_id (basename (Os.dirname f)) with
               | Some id => <[id := f]> m
               | None => m
               end) found ∅.

Section WithImage.
Context {Image : Type}.

(** What the worker finds outside the object: [found] is the result of
    [glob.glob] for the cover files of the library, [readable] is
    [os.access(path, os.R_OK)], and [decode path] is the image that reading
    the file and [loadFromData] give, [None] when either raises or the
    image is null. *)
Variable found : list string.
Variable readable : string -> bool.
Variable decode : string -> option Image.

(** [build_id_map] (lines 56-67) *)
Definition build_id_map (c : t Image) : t Image :=
  {| library_path := library_path c;
     id_map := Some (scan found);
     load_queue := load_queue c;
     cache := cache c;
     id_map_stale := false;
     keep_running := keep_running c |}.

(** The body of the inner loop of [run] for the id just popped
    (lines 98-123).  [run] builds the id map before it enters the loop, so
    that [id_map c] is not [None] here. *)
Definition load (id : nat) (c : t Image) : t Image :=
  if bool_decide (is_Some (cache c !! id)) then c
  else
    match default ∅ (id_map c) !! id with
    | None =>
        {| library_path := library_path c; id_map := id_map c;
           load_queue := load_queue c; cache := cache c;
           id_map_stale := true; keep_running := keep_running c |}
    | Some path =>
        if PyStr.truthy path && readable path then
          match decode path with
          | Some img =>
              {| library_path := library_path c; id_map := id_map c;
                 load_queue := load_queue c; cache := <[id := img]> (cache c);
                 id_map_stale := id_map_stale c; keep_running := keep_running c |}
          | None => c
          end
        else c
    end.

(** [self.load_queue.popleft()] *)
Definition popleft (c : t Image) : option (nat * t Image) :=
  match load_queue c with
  | [] => None
  | id :: rest =>
      Some (id, {| library_path := library_path c; id_map := id_map c;
                   load_queue := rest; cache := cache c;
                   id_map_stale := id_map_stale c; keep_running := keep_running c |})
  end.

(** The inner loop of [run] (lines 89-123): ids are popped until the queue
    is empty.  [n] bounds the number of turns; the length of the queue is
    enough. *)
Fixpoint load_images (n : nat) (c : t Image) : t Image :=
  match n with
  | 0 => c
  | S n' =>
      match popleft c with
      | None => c
      | Some (id, c') => load_images n' (load id c')
      end
  end.

(** One turn of the outer loop of [run] (lines 86-125), with no other
    thread acting on the object meanwhile. *)
Definition run_turn (c : t Image) : t Image :=
  let c1 := if bool_decide (id_map c = None) || id_map_stale c
            then build_id_map c else c in
  load_images (length (load_queue c1)) c1.

(** [stop] (lines 127-128) *)
Definition stop (c : t Image) : t Image :=
  {| library_path := library_path c; id_map := id_map c;
     load_queue := load_queue c; cache := cache c;
     id_map_stale := id_map_stale c; keep_running := false |}.

(** [cover] (lines 130-135); [locked] is the outcome of
    [tryLockForRead(50)]. *)
Definition cover (locked : bool) (id : nat) (c : t Image) : option Image :=
  if locked then cache c !! id else None.

(** [clear_cache] (lines 137-140) *)
Definition clear_cache (c : t Image) : t Image :=
  {| library_path := library_path c; id_map := id_map c;
     load_queue := load_queue c; cache := ∅;
     id_map_stale := id_map_stale c; keep_running := keep_running c |}.

(** [refresh] (lines 142-150) *)
Definition refresh (ids : list nat) (c : t Image) : t Image :=
  {| library_path := library_path c; id_map := id_map c;
     load_queue := fold_left (fun q id => id :: q) ids (load_queue c);
     cache := fold_left (fun m id => delete id m) ids (cache c);
     id_map_stale := id_map_stale c; keep_running := keep_running c |}.

(** The image the worker obtains for [id] when it has to load it. *)
Definition fresh_image (m : gmap nat string) (id : nat) : option Image :=
  match m !! id with
  | Some path => if PyStr.truthy path && readable path then decode path else None
  | None => None
  end.

(** The id map the worker works with in its next turn. *)
Definition map_in_use (c : t Image) : gmap nat string :=
  match id_map c with
  | Some m => if id_map_stale c then scan found else m
  | None => scan found
  end.

End WithImage.
End CoverThread.

(** ** ResultCache: reading rows (lines 191-222) and the grouped sorts
    (lines 288-318) *)
Module ResultRows.
Import ResultCache.

(** [l.index(x)]: the first position of an element equal to [x] *)
Fixpoint list_index (x : pyval) (l : list pyval) : result nat :=
  match l with
  | [] => Raise ValueError
  | y :: l' =>
      if decide (x = y) then Ok 0
      else rbind (list_index x l') (fun i => Ok (S i))
  end.

(** [__getitem__] (lines 191-192), for a row number that is not negative *)
Definition __getitem__ (row : nat) (c : t) : result pyval :=
  match deref c (_map_filtered c) !! row with
  | Some v => getitem (deref c (_data c)) v
  | None => Raise IndexError
  end.

(** [__len__] (lines 194-195) *)
Definition __len__ (c : t) : nat := length (deref c (_map_filtered c)).

(** [index] (lines 212-214) *)
Definition index (id : nat) (cache : bool) (c : t) : result nat :=
  let x := if cache then deref c (_map c) else deref c (_map_filtered c) in
  list_index (PInt id) x.

(** [row] (lines 216-217) *)
Definition row (id : nat) (c : t) : result nat := index id false c.

(** [map(self.row, ids)] *)
Fixpoint map_row (ids : list nat) (c : t) : result (list nat) :=
  match ids with
  | [] => Ok []
  | id :: rest =>
      rbind (row id c) (fun r =>
      rbind (map_row rest c) (fun rs => Ok (r :: rs)))
  end.

(** [refresh_ids] (lines 219-222): the row numbers, and the object after
    the rows have been read again. *)
Definition refresh_ids (conn : nat -> option Row) (ids : list nat) (c : t)
  : result (list nat * t) :=
  rbind (load_rows conn ids (deref c (_data c))) (fun d =>
  let c1 := store c (_data c) d in
  rbind (map_row ids c1) (fun rs => Ok (rs, c1))).

(** [sort_on_publisher] (lines 288-295).  [no_publisher] is the result of
    the first SELECT, [publishers] the ids the second SELECT yields in
    order, and [books_of_publisher p] the result of the third SELECT for
    the publisher [p]. *)
Definition sort_on_publisher (ascending : bool) (no_publisher : list nat)
  (publishers : list nat) (books_of_publisher : nat -> list nat) : list nat :=
  let ans := flat_map books_of_publisher publishers in
  if ascending then no_publisher ++ ans else ans ++ no_publisher.

(** [sort_on_rating] (lines 301-308), with the three SELECTs as above. *)
Definition sort_on_rating (ascending : bool) (no_rating : list nat)
  (ratings : list nat) (books_of_rating : nat -> list nat) : list nat :=
  let ans := flat_map books_of_rating ratings in
  if ascending then no_rating ++ ans else ans ++ no_rating.

(** [sort_on_series] (lines 311-318), with the three SELECTs as above. *)
Definition sort_on_series (ascending : bool) (no_series : list nat)
  (series : list nat) (books_of_series : nat -> list nat) : list nat :=
  let ans := flat_map books_of_series series in
  if ascending then no_series ++ ans else ans ++ no_series.

(** Every book is in at most one group: the books without group and the
    books of each group are listed once, and no book is in two of the
    lists. *)
Definition single_membership (none : list nat) (groups : list nat)
  (books_of : nat -> list nat) : Prop :=
  NoDup none ∧ NoDup groups ∧
  (∀ g, g ∈ groups → NoDup (books_of g)) ∧
  (∀ g b, g ∈ groups → b ∈ books_of g → b ∉ none) ∧
  (∀ g1 g2 b, g1 ∈ groups → g2 ∈ groups → b ∈ books_of g1 → b ∈ books_of g2 → g1 = g2).

End ResultRows.

(** ** LibraryDatabase2: the directory of a book (lines 451-456) *)
Module LibraryMore.
Import Library.
Local Open Scope lib_scope.

(** [abspath] (lines 451-456), with [index_is_id=True] *)
Definition abspath (id : nat) : M string :=
  w <- get ;;
  p <- path id ;;
  let pth := Os.join (library_path w) [p] in
  ex <- os_exists pth ;;
  when (negb ex) (os_makedirs pth) ;;
  ret pth.

End LibraryMore.

(** ** Shapes of strings used to state the properties *)
Module Shape.
Import Sanitize.

(** A character that may stay in a file name: not in the invalid class,
    and no white space other than the space itself. *)
Definition clean (c : ascii) : Prop :=
  is_invalid c = false ∧ (is_space c = true → c = space).

(** The string is empty or starts with a character that is not white space. *)
Definition head_kept (s : string) : Prop :=
  match s with
  | EmptyString => True
  | String c _ => is_space c = false
  end.

End Shape.

(** ** More worked examples *)
Module MoreExamples.

(** A cover cache that holds an image for book 5, decoded before the cover
    file was replaced; images are modelled by their names. *)
Definition old_cover : CoverCache.t string :=
  CoverCache.mk "/library" (Some {[5 := "/library/A/T (5)/cover.jpg"]}) []
    {[5 := "old"]} false true.

(** The loaded example after [filter] with the token that matches the
    title [Emma]: book 2 is hidden. *)
Definition emma_only : ResultCache.t :=
  ResultCache.mk
    [[]; [ResultCache.PInt 2; ResultCache.PInt 1];
     [ResultCache.PInt 2; ResultCache.PInt 1];
     [ResultCache.PNone; ResultCache.PRow Examples.row1;
      ResultCache.PRow Examples.row2; ResultCache.PNone];
     [ResultCache.PInt 1]]
    1 4 3.

(** The books of two series: books 1 and 2 in series 10, book 3 in
    series 11. *)
Definition books_of_series (s : nat) : list nat :=
  match s with
  | 10 => [1; 2]
  | 11 => [3]
  | _ => []
  end.

(** Book 3 has just been inserted: it has no path yet and no format. *)
Definition fresh_book : Library.Book := Library.mkBook 3 "Persuasion" (Some "Jane Austen") "".

Definition w_fresh : Library.World :=
  Library.mkWorld "/library" 100 []
    (Library.mkDB [fresh_book] []) (Library.mkDB [] [])
    (Os.mkFS "/" ["/library"] []) [].

(** Book 3 with its path stored, before its directory has been made. *)
Definition filed_book : Library.Book :=
  Library.mkBook 3 "Persuasion" (Some "Jane Austen") "Jane Austen/Persuasion (3)".

Definition w_filed : Library.World :=
  Library.mkWorld "/library" 100 []
    (Library.mkDB [filed_book] []) (Library.mkDB [filed_book] [])
    (Os.mkFS "/" ["/library"] []) [].

End MoreExamples.
(** * Properties *)

(** ** Worked examples of the string helpers *)

Example sanitize_example :
  Sanitize.sanitize_file_name "  What? A: B/C  " = "What_ A_ B_C".
Proof. reflexivity. Qed.

Example split_example :
  PyStr.split PyStr.comma "Jane Doe,John Roe" = ["Jane Doe"; "John Roe"].
Proof. reflexivity. Qed.

Example of_nat_example : PyStr.of_nat 105 = "105" /\ PyStr.of_nat 0 = "0".
Proof. split; reflexivity. Qed.

(** ** CoverCache.set_cache *)
Section CoverCacheFacts.
Context {Image : Type}.
Implicit Types (m : gmap nat Image) (s : gset nat) (ids ks : list nat).
Lemma set_cache_step_in ids m s x :
  x ∈ ids → CoverCache.set_cache_step ids (m, s) x = (m, {[x]} ∪ s).
Proof. intros H. unfold CoverCache.set_cache_step. by rewrite bool_decide_eq_true_2. Qed.

Lemma set_cache_step_out ids m s x :
  x ∉ ids → CoverCache.set_cache_step ids (m, s) x = (delete x m, s).
Proof. intros H. unfold CoverCache.set_cache_step. by rewrite bool_decide_eq_false_2. Qed.

Lemma set_cache_loop ids ks m s :
  let st := fold_left (CoverCache.set_cache_step ids) ks (m, s) in
  (∀ k, st.1 !! k = if bool_decide (k ∈ ks ∧ k ∉ ids) then None else m !! k) ∧
  (∀ k, k ∈ st.2 ↔ k ∈ s ∨ (k ∈ ks ∧ k ∈ ids)).
Proof.
  revert m s. induction ks as [|x ks IH]; intros m s; cbn [fold_left]; cbv zeta.
  - split; intros k.
    + rewrite bool_decide_eq_false_2; [done|]. intros [H _]. by apply elem_of_nil in H.
    + split; [auto|]. intros [?|[H _]]; [done|]. by apply elem_of_nil in H.
  - destruct (decide (x ∈ ids)) as [Hin|Hout].
    + rewrite set_cache_step_in by done.
      destruct (IH m ({[x]} ∪ s)) as [H1 H2]. split; intros k.
      * rewrite H1. rewrite (bool_decide_ext _ (k ∈ x :: ks ∧ k ∉ ids)); [done|].
        rewrite elem_of_cons. split; [tauto|]. intros [[->|?] ?]; tauto.
      * rewrite H2, elem_of_union, elem_of_singleton, elem_of_cons.
        split; [intros [[->|?]|[? ?]]|intros [?|[[->|?] ?]]]; tauto.
    + rewrite set_cache_step_out by done.
      destruct (IH (delete x m) s) as [H1 H2]. split; intros k.
      * rewrite H1. destruct (decide (k = x)) as [->|Hne].
        -- rewrite lookup_delete_eq.
           rewrite (bool_decide_eq_true_2 (x ∈ x :: ks ∧ x ∉ ids)).
           ++ by destruct (bool_decide _).
           ++ split; [by apply elem_of_cons; left|done].
        -- rewrite lookup_delete_ne by done.
           rewrite (bool_decide_ext _ (k ∈ x :: ks ∧ k ∉ ids)); [done|].
           rewrite elem_of_cons. tauto.
      * rewrite H2, elem_of_cons.
        split; [intros [?|[? ?]]|intros [?|[[->|?] ?]]]; tauto.
Qed.

(** C9. After [set_cache ids] the decoded-image cache holds exactly its
    previous entries whose id is in [ids], the load queue is the input ids
    that had no decoded image, in input order, and nothing else changed. *)
Theorem C9_set_cache_postcondition (c : CoverCache.t Image) (ids : list nat) :
  (∀ k, CoverCache.cache (CoverCache.set_cache ids c) !! k
        = if bool_decide (k ∈ ids) then CoverCache.cache c !! k else None) ∧
  CoverCache.load_queue (CoverCache.set_cache ids c)
  = List.filter (fun i => negb (bool_decide (is_Some (CoverCache.cache c !! i)))) ids ∧
  CoverCache.id_map (CoverCache.set_cache ids c) = CoverCache.id_map c ∧
  CoverCache.id_map_stale (CoverCache.set_cache ids c) = CoverCache.id_map_stale c ∧
  CoverCache.keep_running (CoverCache.set_cache ids c) = CoverCache.keep_running c.
Proof.
  unfold CoverCache.set_cache. cbn [CoverCache.cache CoverCache.load_queue
    CoverCache.id_map CoverCache.id_map_stale CoverCache.keep_running].
  pose proof (set_cache_loop ids (map_to_list (CoverCache.cache c)).*1
                (CoverCache.cache c) ∅) as [H1 H2].
  assert (Hkeys : ∀ k, k ∈ (map_to_list (CoverCache.cache c)).*1
                       ↔ is_Some (CoverCache.cache c !! k)).
  { intros k. rewrite list_elem_of_fmap. split.
    - intros [[k' v] [-> Hkv]]. apply elem_of_map_to_list in Hkv. by exists v.
    - intros [v Hv]. exists (k, v). split; [done|]. by apply elem_of_map_to_list. }
  split; [|split; [|done]].
  - intros k. rewrite H1. destruct (decide (k ∈ ids)) as [Hin|Hout].
    + rewrite (bool_decide_eq_true_2 (k ∈ ids)) by done.
      rewrite bool_decide_eq_false_2; [done|tauto].
    + rewrite (bool_decide_eq_false_2 (k ∈ ids)) by done.
      destruct (CoverCache.cache c !! k) as [v|] eqn:E.
      * rewrite bool_decide_eq_true_2; [done|]. split; [|done]. apply Hkeys.
        rewrite E. by exists v.
      * by destruct (bool_decide _).
  - apply filter_ext_in_iff. intros i Hi. f_equal.
    apply bool_decide_ext. rewrite H2, Hkeys.
    apply list_elem_of_In in Hi. split.
    + intros [H|[? _]]; [by apply not_elem_of_empty in H|done].
    + intros ?. right. done.
Qed.

End CoverCacheFacts.

(** ** ResultCache: the store *)
Section ResultCacheStore.
Import ResultCache Ref.
Implicit Types (c : t) (l d : list pyval) (v x : pyval).

Lemma deref_store_eq c r l : r < length (heap c) → deref (store c r l) r = l.
Proof.
  intros H. unfold deref, store. cbn [heap].
  by rewrite list_lookup_insert_eq.
Qed.

Lemma deref_store_ne c r r' l : r ≠ r' → deref (store c r l) r' = deref c r'.
Proof.
  intros H. unfold deref, store. cbn [heap].
  by rewrite list_lookup_insert_ne.
Qed.

Lemma store_deref c r : store c r (deref c r) = c.
Proof.
  unfold store, deref. destruct c as [h m f d]. cbn [heap _map _map_filtered _data].
  f_equal. destruct (h !! r) as [l|] eqn:E; cbn [default].
  - by apply list_insert_id.
  - apply list_insert_ge. by apply lookup_ge_None.
Qed.

Lemma separated_store c r l : separated c → separated (store c r l).
Proof.
  unfold separated, store. cbn [heap _map _map_filtered _data].
  by rewrite length_insert.
Qed.

Lemma all_ids_store_data c l : separated c → all_ids (store c (_data c) l) = all_ids c.
Proof. intros (?&?&?&?). unfold all_ids. cbn [store _map]. by apply deref_store_ne. Qed.

Lemma visible_ids_store_data c l :
  separated c → visible_ids (store c (_data c) l) = visible_ids c.
Proof.
  intros (?&?&?&?). unfold visible_ids. cbn [store _map_filtered].
  by apply deref_store_ne.
Qed.

Lemma rows_store_data c l : separated c → rows (store c (_data c) l) = l.
Proof.
  intros (?&?&?&?&?&?). unfold rows. cbn [store _data]. by apply deref_store_eq.
Qed.

Lemma all_ids_store_map c l : separated c → all_ids (store c (_map c) l) = l.
Proof.
  intros (?&?&?&?&?&?). unfold all_ids. cbn [store _map]. by apply deref_store_eq.
Qed.

Lemma visible_ids_store_map c l :
  separated c → visible_ids (store c (_map c) l) = visible_ids c.
Proof.
  intros (?&?&?&?). unfold visible_ids. cbn [store _map_filtered].
  by apply deref_store_ne.
Qed.

Lemma rows_store_map c l : separated c → rows (store c (_map c) l) = rows c.
Proof. intros (?&?&?&?). unfold rows. cbn [store _data]. by apply deref_store_ne. Qed.

Lemma all_ids_store_filtered c l :
  separated c → all_ids (store c (_map_filtered c) l) = all_ids c.
Proof. intros (?&?&?&?). unfold all_ids. cbn [store _map]. by apply deref_store_ne. Qed.

Lemma visible_ids_store_filtered c l :
  separated c → visible_ids (store c (_map_filtered c) l) = l.
Proof.
  intros (?&?&?&?&?&?). unfold visible_ids. cbn [store _map_filtered].
  by apply deref_store_eq.
Qed.

Lemma rows_store_filtered c l :
  separated c → rows (store c (_map_filtered c) l) = rows c.
Proof. intros (?&?&?&?). unfold rows. cbn [store _data]. by apply deref_store_ne. Qed.

(** *** [list.remove] *)

Lemma list_remove_in x l : x ∈ l → list_remove x l = Ok (remove_first x l).
Proof.
  induction l as [|y l IH]; intros H.
  - by apply elem_of_nil in H.
  - cbn [list_remove remove_first]. destruct (decide (x = y)) as [->|Hne]; [done|].
    apply elem_of_cons in H as [?|H]; [done|]. by rewrite IH.
Qed.

Lemma remove_first_absent x l : x ∉ l → remove_first x l = l.
Proof.
  induction l as [|y l IH]; intros H; [done|]. cbn [remove_first].
  apply not_elem_of_cons in H as [? ?]. destruct (decide (x = y)); [done|].
  by rewrite IH.
Qed.

Lemma remove_first_sublist x l : remove_first x l `sublist_of` l.
Proof.
  induction l as [|y l IH]; [done|]. cbn [remove_first].
  destruct (decide (x = y)); [by apply sublist_cons|by apply sublist_skip].
Qed.

Lemma elem_of_remove_first x y l : y ∈ remove_first x l → y ∈ l.
Proof. intros H. eapply elem_of_sublist; [done|apply remove_first_sublist]. Qed.

Lemma elem_of_remove_first_ne x y l : x ≠ y → y ∈ l → y ∈ remove_first x l.
Proof.
  intros Hne. induction l as [|z l IH]; intros H; [done|]. cbn [remove_first].
  apply elem_of_cons in H as [->|H].
  - rewrite decide_False by done. by apply elem_of_cons; left.
  - destruct (decide (x = z)); [done|]. apply elem_of_cons; right. by apply IH.
Qed.

Lemma remove_first_NoDup x l : NoDup l → NoDup (remove_first x l) ∧ x ∉ remove_first x l.
Proof.
  induction 1 as [|y l Hy Hl IH]; cbn [remove_first].
  - split; [constructor|]. apply not_elem_of_nil.
  - destruct (decide (x = y)) as [->|Hne]; [done|]. destruct IH as [IH1 IH2]. split.
    + constructor; [|done]. intros H. by apply Hy, (elem_of_remove_first x).
    + apply not_elem_of_cons. done.
Qed.

(** Dropping the first [x] from a list and from a subsequence of it keeps
    the subsequence relation, also when [x] occurs more than once. *)
Lemma remove_first_sublist_mono x l k :
  l `sublist_of` k → remove_first x l `sublist_of` remove_first x k.
Proof.
  induction 1 as [|y l k H IH|y l k H IH]; cbn [remove_first].
  - done.
  - destruct (decide (x = y)); [done|by apply sublist_skip].
  - destruct (decide (x = y)) as [->|Hne].
    + etrans; [apply remove_first_sublist|done].
    + by apply sublist_cons.
Qed.

Lemma py_in_true x l : x ∈ l → py_in x l = true.
Proof. intros H. unfold py_in. by apply bool_decide_eq_true_2. Qed.

Lemma py_in_false x l : x ∉ l → py_in x l = false.
Proof. intros H. unfold py_in. by apply bool_decide_eq_false_2. Qed.

End ResultCacheStore.

(** ** ResultCache.remove *)
Section ResultCacheRemove.
Import ResultCache Ref.
Implicit Types (c : t) (l d : list pyval) (v x : pyval).

Lemma remove_guarded_map c x :
  separated c →
  ∃ c', (if py_in x (deref c (_map c))
         then rbind (list_remove x (deref c (_map c)))
                    (fun m => Ok (store c (_map c) m))
         else Ok c) = Ok c' ∧
        separated c' ∧
        all_ids c' = remove_first x (all_ids c) ∧
        visible_ids c' = visible_ids c ∧ rows c' = rows c ∧
        (x ∉ all_ids c → c' = c).
Proof.
  intros Hs. fold (all_ids c). destruct (decide (x ∈ all_ids c)) as [Hin|Hout].
  - rewrite py_in_true, list_remove_in by done. cbn [rbind]. eexists. split; [done|].
    split; [by apply separated_store|].
    rewrite all_ids_store_map, visible_ids_store_map, rows_store_map by done.
    done.
  - rewrite py_in_false by done. exists c.
    by rewrite remove_first_absent.
Qed.

Lemma remove_guarded_filtered c x :
  separated c →
  ∃ c', (if py_in x (deref c (_map_filtered c))
         then rbind (list_remove x (deref c (_map_filtered c)))
                    (fun f => Ok (store c (_map_filtered c) f))
         else Ok c) = Ok c' ∧
        separated c' ∧
        visible_ids c' = remove_first x (visible_ids c) ∧
        all_ids c' = all_ids c ∧ rows c' = rows c ∧
        (x ∉ visible_ids c → c' = c).
Proof.
  intros Hs. fold (visible_ids c). destruct (decide (x ∈ visible_ids c)) as [Hin|Hout].
  - rewrite py_in_true, list_remove_in by done. cbn [rbind]. eexists. split; [done|].
    split; [by apply separated_store|].
    rewrite all_ids_store_filtered, visible_ids_store_filtered, rows_store_filtered by done.
    done.
  - rewrite py_in_false by done. exists c.
    by rewrite remove_first_absent.
Qed.

(** What [remove] does to a cache whose three lists are distinct objects. *)
Lemma remove_spec c id :
  separated c → id < length (rows c) →
  ∃ c', remove id c = Ok c' ∧ separated c' ∧
        rows c' = <[id := PNone]> (rows c) ∧
        all_ids c' = remove_first (PInt id) (all_ids c) ∧
        visible_ids c' = remove_first (PInt id) (visible_ids c) ∧
        (PInt id ∉ all_ids c → PInt id ∉ visible_ids c →
         rows c !! id = Some PNone → c' = c).
Proof.
  intros Hs Hid. unfold remove, setitem. fold (rows c).
  rewrite decide_True by done. cbn [rbind].
  set (c1 := store c (_data c) (<[id:=PNone]> (rows c))).
  assert (Hs1 : separated c1) by by apply separated_store.
  destruct (remove_guarded_map c1 (PInt id) Hs1) as (c2 & -> & Hs2 & Ha2 & Hv2 & Hr2 & Hid2).
  cbn [rbind].
  destruct (remove_guarded_filtered c2 (PInt id) Hs2)
    as (c3 & -> & Hs3 & Hv3 & Ha3 & Hr3 & Hid3).
  exists c3. split; [done|]. split; [done|].
  subst c1.
  rewrite Hr3, Hr2, rows_store_data by done.
  rewrite Ha3, Ha2, all_ids_store_data by done.
  rewrite Hv3, Hv2, visible_ids_store_data by done.
  repeat split; try done.
  intros Ha Hv Hrow.
  rewrite Hid3, Hid2.
  - rewrite list_insert_id by done. apply store_deref.
  - by rewrite all_ids_store_data.
  - rewrite Hv2. by rewrite visible_ids_store_data.
Qed.

Lemma remove_out_of_range c id :
  length (rows c) ≤ id → remove id c = Raise IndexError.
Proof.
  intros H. unfold remove, setitem. fold (rows c).
  rewrite decide_False by lia. done.
Qed.

End ResultCacheRemove.

(** ** ResultCache.books_added, refresh and filter *)
Section ResultCacheOps.
Import ResultCache Ref.
Implicit Types (c : t) (l d : list pyval) (v x : pyval) (ids : list nat).

Lemma load_rows_spec conn ids d :
  (∀ n, n ∈ ids → n < length d) →
  ∃ d', load_rows conn ids d = Ok d' ∧ length d' = length d ∧
        (∀ n, n ∈ ids → d' !! n = Some (fetchone conn n)) ∧
        (∀ n, n ∉ ids → d' !! n = d !! n).
Proof.
  revert d. induction ids as [|id ids IH]; intros d Hr; cbn [load_rows].
  - exists d. split; [done|]. split; [done|]. split; [|done].
    intros n H. by apply elem_of_nil in H.
  - unfold setitem. rewrite decide_True by (apply Hr, elem_of_cons; by left).
    cbn [rbind].
    destruct (IH (<[id:=fetchone conn id]> d)) as (d' & -> & Hlen & Hin & Hout).
    { intros n Hn. rewrite length_insert. apply Hr, elem_of_cons. by right. }
    exists d'. split; [done|]. split; [by rewrite Hlen, length_insert|]. split.
    + intros n Hn. destruct (decide (n ∈ ids)) as [?|Hni]; [by apply Hin|].
      apply elem_of_cons in Hn as [->|?]; [|done].
      rewrite Hout by done. apply list_lookup_insert_eq.
      apply Hr, elem_of_cons. by left.
    + intros n Hn. apply not_elem_of_cons in Hn as [Hne Hni].
      rewrite Hout by done. by apply list_lookup_insert_ne.
Qed.

Lemma prepend_both c pre :
  separated c →
  let c3 := store c (_map c) (pre ++ deref c (_map c)) in
  let c4 := store c3 (_map_filtered c3) (pre ++ deref c3 (_map_filtered c3)) in
  separated c4 ∧ all_ids c4 = pre ++ all_ids c ∧
  visible_ids c4 = pre ++ visible_ids c ∧ rows c4 = rows c.
Proof.
  intros Hs c3 c4.
  assert (Hs3 : separated c3) by by apply separated_store.
  split; [by apply separated_store|]. subst c4.
  rewrite all_ids_store_filtered, visible_ids_store_filtered, rows_store_filtered by done.
  fold (visible_ids c3). subst c3.
  rewrite all_ids_store_map, visible_ids_store_map, rows_store_map by done.
  done.
Qed.

(** What [books_added] does to a cache whose three lists are distinct. *)
Lemma books_added_spec conn ids c :
  separated c → ids ≠ [] →
  ∃ c', books_added ids conn c = Ok c' ∧ separated c' ∧
        all_ids c' = (PInt <$> ids) ++ all_ids c ∧
        visible_ids c' = (PInt <$> ids) ++ visible_ids c ∧
        length (rows c) ≤ length (rows c') ∧
        (∀ n, n ∈ ids → rows c' !! n = Some (fetchone conn n)) ∧
        (∀ n, n ∉ ids → n < length (rows c) → rows c' !! n = rows c !! n).
Proof.
  intros Hs Hne. unfold books_added. destruct ids as [|i0 ids0] eqn:Eids; [done|].
  rewrite <- Eids in *. clear Eids Hne i0 ids0. fold (rows c).
  set (d0 := rows c ++ replicate (max_list ids + 2 - length (rows c)) PNone).
  pose (c1 := store c (_data c) d0).
  assert (Hs1 : separated c1) by by apply separated_store.
  assert (Hr1 : rows c1 = d0) by (by apply rows_store_data).
  change (deref (store c (_data c) d0) (_data (store c (_data c) d0))) with (rows c1).
  rewrite Hr1.
  destruct (load_rows_spec conn ids d0) as (d' & -> & Hlen & Hin & Hout).
  { intros n Hn. apply max_list_elem_of_le in Hn. subst d0.
    rewrite length_app, length_replicate. lia. }
  cbn [rbind].
  pose (c2 := store c1 (_data c1) d').
  assert (Hs2 : separated c2) by by apply separated_store.
  pose (c3 := store c2 (_map c2) ((PInt <$> ids) ++ deref c2 (_map c2))).
  pose (c4 := store c3 (_map_filtered c3) ((PInt <$> ids) ++ deref c3 (_map_filtered c3))).
  assert (H4 : separated c4 ∧ all_ids c4 = (PInt <$> ids) ++ all_ids c2 ∧
               visible_ids c4 = (PInt <$> ids) ++ visible_ids c2 ∧ rows c4 = rows c2)
    by exact (prepend_both c2 _ Hs2).
  destruct H4 as (Hs4 & Ha & Hv & Hr).
  exists c4. split; [reflexivity|]. split; [exact Hs4|].
  rewrite Ha, Hv, Hr. subst c2.
  rewrite all_ids_store_data, visible_ids_store_data, rows_store_data by done.
  subst c1.
  rewrite all_ids_store_data, visible_ids_store_data by done.
  split; [done|]. split; [done|]. split; [|split].
  - rewrite Hlen. subst d0. rewrite length_app. lia.
  - done.
  - intros n Hn Hlt. rewrite Hout by done. subst d0. by apply lookup_app_l.
Qed.

Lemma fill_rows_spec temp d :
  (∀ r, r ∈ temp → row_id r < length d) →
  ∃ d', fill_rows temp d = Ok d' ∧ length d' = length d ∧
        (∀ n, (∃ r, r ∈ temp ∧ row_id r = n) → ∃ r, d' !! n = Some (PRow r)) ∧
        (∀ n, (∀ r, r ∈ temp → row_id r ≠ n) → d' !! n = d !! n).
Proof.
  revert d. induction temp as [|r0 temp IH]; intros d Hr; cbn [fill_rows].
  - exists d. split; [done|]. split; [done|]. split; [|done].
    intros n (r & H & _). by apply elem_of_nil in H.
  - unfold setitem. rewrite decide_True by (apply Hr, elem_of_cons; by left).
    cbn [rbind].
    destruct (IH (<[row_id r0:=PRow r0]> d)) as (d' & -> & Hlen & Hin & Hout).
    { intros r Hin. rewrite length_insert. apply Hr, elem_of_cons. by right. }
    exists d'. split; [done|]. split; [by rewrite Hlen, length_insert|]. split.
    + intros n (r & Hrin & Hrn).
      destruct (decide (n ∈ row_id <$> temp)) as [Hyes|Hno].
      { apply list_elem_of_fmap in Hyes as (r' & ? & ?). apply Hin. eauto. }
      assert (Hno' : ∀ r', r' ∈ temp → row_id r' ≠ n).
      { intros r' Hr' ?. apply Hno, list_elem_of_fmap. eauto. }
      apply elem_of_cons in Hrin as [->|?]; [|exfalso; by eapply Hno'].
      exists r0. rewrite Hout by done.
      subst n. apply list_lookup_insert_eq. apply Hr, elem_of_cons. by left.
    + intros n Hn. rewrite Hout.
      * apply list_lookup_insert_ne. apply Hn, elem_of_cons. by left.
      * intros r' Hr'. apply Hn, elem_of_cons. by right.
Qed.

(** What [refresh] builds when no row of [meta] has an id beyond the last
    row's id plus one. *)
Lemma refresh_spec sorted temp c :
  (∀ r rl, r ∈ temp → last temp = Some rl → row_id r < row_id rl + 2) →
  ∃ c', refresh sorted temp c = Ok c' ∧ separated c' ∧
        all_ids c' = PInt <$> sorted ∧ visible_ids c' = PInt <$> sorted ∧
        (∀ n, (∃ r, r ∈ temp ∧ row_id r = n) → ∃ r, rows c' !! n = Some (PRow r)).
Proof.
  intros Hmax. unfold refresh.
  set (d0 := match last temp with
             | Some r => replicate (row_id r + 2) PNone
             | None => []
             end).
  destruct (fill_rows_spec temp d0) as (d' & -> & Hlen & Hin & Hout).
  { intros r Hr. subst d0. destruct (last temp) as [rl|] eqn:El.
    - rewrite length_replicate. by eapply Hmax.
    - apply last_None in El. subst temp. by apply elem_of_nil in Hr. }
  cbn [rbind]. eexists. split; [done|].
  unfold separated, all_ids, visible_ids, rows, deref.
  cbn [heap _map _map_filtered _data].
  rewrite !length_app. cbn [length].
  split; [repeat split; lia|].
  split; [|split].
  - rewrite <- !app_assoc. rewrite lookup_app_r by lia.
    by rewrite Nat.sub_diag.
  - rewrite <- !app_assoc. rewrite lookup_app_r by lia.
    replace (length (heap c) + 1 - length (heap c)) with 1 by lia. done.
  - intros n Hn. rewrite lookup_app_r by (rewrite !length_app; cbn [length]; lia).
    rewrite !length_app. cbn [length]. rewrite Nat.sub_diag. cbn [lookup list_lookup default].
    by apply Hin.
Qed.

(** *** filter *)

Lemma keeps_row filters OR d v row :
  filters ≠ [] → getitem d v = Ok row →
  keeps filters OR d v
  = if OR then existsb (fun tok : token => tok row) filters
    else forallb (fun tok : token => tok row) filters.
Proof.
  intros Hne Hget. unfold keeps, row_of. rewrite Hget.
  by destruct filters.
Qed.

Lemma filter_scan_spec filters OR d l :
  filters ≠ [] → in_range d l →
  filter_scan filters OR d l
  = Ok (List.filter (fun v => negb (keeps filters OR d v)) l).
Proof.
  intros Hne. induction l as [|v l IH]; intros Hr; [done|].
  cbn [filter_scan List.filter].
  destruct (Hr v) as (n & -> & Hn); [by apply elem_of_cons; left|].
  apply lookup_lt_is_Some_2 in Hn as [row Hrow].
  assert (Hget : getitem d (PInt n) = Ok row) by (cbn [getitem]; by rewrite Hrow).
  rewrite Hget. cbn [rbind].
  rewrite IH by (intros v Hv; apply Hr, elem_of_cons; by right).
  cbn [rbind]. rewrite (keeps_row filters OR d (PInt n) row) by done.
  by destruct (if OR then _ else _).
Qed.

(** Dropping, one first occurrence at a time, every element that fails a
    test leaves exactly the elements that pass it. *)
Lemma remove_all_filter_gen (p : pyval → bool) l pre :
  Forall (fun v => p v = true) pre →
  remove_all (List.filter (fun v => negb (p v)) l) (pre ++ l)
  = Ok (pre ++ List.filter p l).
Proof.
  revert pre. induction l as [|v l IH]; intros pre Hpre; [done|].
  cbn [List.filter]. destruct (p v) eqn:Hv; cbn [negb].
  - replace (pre ++ v :: l) with ((pre ++ [v]) ++ l) by by rewrite <- app_assoc.
    rewrite IH; [by rewrite <- app_assoc|].
    apply Forall_app. split; [done|]. by apply Forall_singleton.
  - cbn [remove_all].
    assert (Hrm : list_remove v (pre ++ v :: l) = Ok (pre ++ l)).
    { clear IH. induction Hpre as [|y pre Hy Hpre IHp].
      - cbn [app list_remove]. by rewrite decide_True.
      - cbn [app list_remove]. rewrite decide_False by congruence.
        by rewrite IHp. }
    rewrite Hrm. cbn [rbind]. by apply IH.
Qed.

Lemma remove_all_filter (p : pyval → bool) l :
  remove_all (List.filter (fun v => negb (p v)) l) l = Ok (List.filter p l).
Proof. by apply (remove_all_filter_gen p l []). Qed.

Lemma filter_keep_all (l : list pyval) : List.filter (fun _ => true) l = l.
Proof. induction l as [|v l IH]; [done|]. cbn [List.filter]. by rewrite IH. Qed.

(** The second half of [filter], on a cache whose lists are distinct. *)
Lemma filter_apply filters OR c :
  separated c → in_range (rows c) (visible_ids c) →
  ∃ c', match filters with
        | [] => Ok c
        | _ :: _ =>
            rbind (filter_scan filters OR (deref c (_data c)) (deref c (_map_filtered c)))
              (fun rm =>
            rbind (remove_all rm (deref c (_map_filtered c))) (fun f =>
            Ok (store c (_map_filtered c) f)))
        end = Ok c' ∧
        separated c' ∧ all_ids c' = all_ids c ∧ rows c' = rows c ∧
        visible_ids c' = List.filter (keeps filters OR (rows c)) (visible_ids c).
Proof.
  intros Hs Hr. destruct filters as [|tok toks] eqn:E.
  - exists c. cbn [keeps]. by rewrite filter_keep_all.
  - rewrite <- E in *. fold (rows c) (visible_ids c).
    rewrite filter_scan_spec; [|by rewrite E|done].
    cbn [rbind]. rewrite remove_all_filter. cbn [rbind].
    eexists. split; [done|]. split; [by apply separated_store|].
    by rewrite all_ids_store_filtered, rows_store_filtered,
      visible_ids_store_filtered by done.
Qed.

(** What [filter] does to a cache whose three lists are distinct. *)
Lemma filter_spec filters (refilter OR : bool) c :
  separated c →
  in_range (rows c) (if refilter then visible_ids c else all_ids c) →
  ∃ c', filter filters refilter OR c = Ok c' ∧
        separated c' ∧ all_ids c' = all_ids c ∧ rows c' = rows c ∧
        visible_ids c' = List.filter (keeps filters OR (rows c))
                           (if refilter then visible_ids c else all_ids c).
Proof.
  intros Hs Hr. unfold filter. destruct refilter.
  - by apply filter_apply.
  - set (c1 := {| heap := heap c ++ [deref c (_map c)]; _map := _map c;
                  _map_filtered := length (heap c); _data := _data c |}).
    destruct Hs as (H1 & H2 & H3 & H4 & H5 & H6).
    assert (Hs1 : separated c1).
    { unfold separated, c1. cbn [heap _map _map_filtered _data].
      rewrite length_app. cbn [length]. repeat split; lia. }
    assert (Ha1 : all_ids c1 = all_ids c).
    { unfold all_ids, deref, c1. cbn [heap _map]. by rewrite lookup_app_l. }
    assert (Hr1 : rows c1 = rows c).
    { unfold rows, deref, c1. cbn [heap _data]. by rewrite lookup_app_l. }
    assert (Hv1 : visible_ids c1 = all_ids c).
    { unfold visible_ids, deref, c1. cbn [heap _map_filtered].
      rewrite lookup_app_r by lia. by rewrite Nat.sub_diag. }
    destruct (filter_apply filters OR c1 Hs1) as (c' & Hc' & Hs' & Ha' & Hr' & Hv').
    { by rewrite Hr1, Hv1. }
    exists c'. split; [exact Hc'|]. split; [done|].
    by rewrite Ha', Hr', Hv', Ha1, Hr1, Hv1.
Qed.

End ResultCacheOps.

(** ** ResultCache: remove on a loaded cache *)
Section ResultCacheRemoveLoaded.
Import ResultCache Ref.
Implicit Types (c : t) (l d : list pyval) (v x : pyval) (ids : list nat).

Lemma loaded_is_refresh :
  refresh [2; 1] [Examples.row1; Examples.row2] init = Ok Examples.loaded.
Proof. reflexivity. Qed.

Lemma loaded_separated : separated Examples.loaded.
Proof. unfold separated. cbn. repeat split; lia. Defined.

(** C4, as amended.  On a cache whose three lists are distinct objects, and
    for an id that indexes a slot of the data list, [remove] returns, sets
    the slot to [None] and drops the first occurrence of the id from each
    ordering; when the id is in neither ordering and its slot is already
    [None] the cache is unchanged; when the orderings have no duplicates the
    id is gone from both and a second [remove] changes nothing.  For an id
    beyond the data list [remove] raises [IndexError]. *)
Theorem C4_remove_within_data c id :
  separated c →
  (id < length (rows c) →
   ∃ c', remove id c = Ok c' ∧ separated c' ∧
         rows c' = <[id := PNone]> (rows c) ∧
         all_ids c' = remove_first (PInt id) (all_ids c) ∧
         visible_ids c' = remove_first (PInt id) (visible_ids c) ∧
         (PInt id ∉ all_ids c → PInt id ∉ visible_ids c →
          rows c !! id = Some PNone → c' = c) ∧
         (NoDup (all_ids c) → NoDup (visible_ids c) →
          (PInt id ∉ all_ids c') ∧ (PInt id ∉ visible_ids c') ∧ remove id c' = Ok c')) ∧
  (length (rows c) ≤ id → remove id c = Raise IndexError).
Proof.
  intros Hs. split; [|apply remove_out_of_range].
  intros Hid.
  destruct (remove_spec c id Hs Hid) as (c' & Hrm & Hs' & Hr & Ha & Hv & Hnoop).
  exists c'. do 5 (split; [done|]). split; [done|].
  intros Hda Hdv.
  destruct (remove_first_NoDup (PInt id) _ Hda) as [_ Hna].
  destruct (remove_first_NoDup (PInt id) _ Hdv) as [_ Hnv].
  rewrite Ha, Hv. split; [done|]. split; [done|].
  assert (Hid' : id < length (rows c')) by (by rewrite Hr, length_insert).
  destruct (remove_spec c' id Hs' Hid') as (c'' & Hrm' & _ & _ & _ & _ & Hnoop').
  rewrite Hrm'. f_equal. apply Hnoop'.
  - by rewrite Ha.
  - by rewrite Hv.
  - rewrite Hr. by apply list_lookup_insert_eq.
Qed.

(** The amended C4 at book 1 of the loaded example. *)
Lemma C4_remove_within_data_witness :
  ∃ c', remove 1 Examples.loaded = Ok c' ∧
        rows c' = [PNone; PNone; PRow Examples.row2; PNone] ∧
        all_ids c' = [PInt 2] ∧ visible_ids c' = [PInt 2].
Proof.
  destruct (C4_remove_within_data Examples.loaded 1 loaded_separated) as [H _].
  destruct H as (c' & Hrm & _ & Hr & Ha & Hv & _).
  - cbn. lia.
  - exists c'. split; [exact Hrm|]. split; [exact Hr|]. split; [exact Ha|exact Hv].
Defined.

(** C4 as stated fails: book 3 was never inserted into the cache loaded from
    a library that holds only book 1, and removing it raises [IndexError]. *)
Lemma C4_remove_never_inserted_raises :
  ∃ c, refresh [1] [Examples.row1] init = Ok c ∧
       (PInt 3 ∉ all_ids c) ∧ (PInt 3 ∉ visible_ids c) ∧
       remove 3 c = Raise IndexError.
Proof.
  eexists. split; [reflexivity|]. cbn.
  split; [|split; [|reflexivity]]; intros H; apply list_elem_of_singleton in H; discriminate.
Qed.

End ResultCacheRemoveLoaded.

(** ** ResultCache: the semantics of filter *)
Section ResultCacheFilterSemantics.
Import ResultCache Ref.
Implicit Types (c : t) (l d : list pyval) (v x : pyval) (filters : list token).

Lemma keeps_iff filters (OR : bool) d v :
  keeps filters OR d v = true ↔
  filters = [] ∨
  (if OR then ∃ tok, tok ∈ filters ∧ tok (row_of d v) = true
   else ∀ tok, tok ∈ filters → tok (row_of d v) = true).
Proof.
  unfold keeps. destruct filters as [|tok0 toks]; [by intuition|].
  remember (tok0 :: toks) as fs eqn:E. destruct OR.
  - rewrite existsb_exists. split.
    + intros (tok & Hin & Ht). right. exists tok. by rewrite list_elem_of_In.
    + intros [Hnil|(tok & Hin & Ht)]; [by subst|].
      exists tok. by rewrite <- list_elem_of_In.
  - rewrite forallb_forall. split.
    + intros H. right. intros tok Hin. by apply H, list_elem_of_In.
    + intros [Hnil|H] tok Hin; [by subst|].
      by apply H, list_elem_of_In.
Qed.

(** C6, as amended.  On a cache whose three lists are distinct objects and
    whose ids all index a slot of the data list, [filter] with
    [refilter=False] returns; the orderings and rows it leaves are: all ids
    and rows unchanged, and the visible ids are the ids of [all_ids], in
    their order, that are kept.  With a non-empty token list and [OR] an id
    is kept iff some token matches its row; with [OR] false iff every token
    matches it; with the empty token list every id is kept, whatever [OR]
    is, so the visible ids equal all ids. *)
Theorem C6_filter_semantics filters (OR : bool) c :
  separated c → in_range (rows c) (all_ids c) →
  ∃ c', filter filters false OR c = Ok c' ∧
        all_ids c' = all_ids c ∧ rows c' = rows c ∧
        visible_ids c' = List.filter (keeps filters OR (rows c)) (all_ids c) ∧
        (∀ v, v ∈ visible_ids c' ↔
              v ∈ all_ids c ∧
              (filters = [] ∨
               (if OR then ∃ tok, tok ∈ filters ∧ tok (row_of (rows c) v) = true
                else ∀ tok, tok ∈ filters → tok (row_of (rows c) v) = true))) ∧
        (filters = [] → visible_ids c' = all_ids c).
Proof.
  intros Hs Hr.
  destruct (filter_spec filters false OR c Hs Hr) as (c' & Hf & _ & Ha & Hrw & Hv).
  exists c'. do 4 (split; [done|]). split.
  - intros v. rewrite Hv, list_elem_of_In, filter_In, <- list_elem_of_In.
    by rewrite keeps_iff.
  - intros ->. rewrite Hv. apply filter_keep_all.
Qed.

Lemma loaded_in_range : in_range (rows Examples.loaded) (all_ids Examples.loaded).
Proof.
  intros v Hv. cbn in Hv.
  apply elem_of_cons in Hv as [->|Hv]; [exists 2; cbn; split; [done|lia]|].
  apply list_elem_of_singleton in Hv as ->. exists 1. cbn. split; [done|lia].
Defined.

(** The amended C6 on the loaded example: one token, which matches book 1. *)
Lemma C6_filter_semantics_witness :
  ∃ c', filter [Examples.title_is_emma] false false Examples.loaded = Ok c' ∧
        visible_ids c' = [PInt 1].
Proof.
  destruct (C6_filter_semantics [Examples.title_is_emma] false Examples.loaded
              loaded_separated loaded_in_range) as (c' & Hf & _ & _ & Hv & _).
  exists c'. split; [exact Hf|]. rewrite Hv. reflexivity.
Defined.

(** C6 as stated fails for the empty token list with [OR]: book 1 stays
    visible although no token matches its row. *)
Lemma C6_or_without_tokens_keeps_all :
  ∃ c c', refresh [1] [Examples.row1] init = Ok c ∧
          filter [] false true c = Ok c' ∧
          PInt 1 ∈ visible_ids c' ∧
          ¬ (∃ tok : token, tok ∈ @nil token ∧ tok (row_of (rows c) (PInt 1)) = true).
Proof.
  eexists. eexists. split; [reflexivity|]. split; [reflexivity|]. split.
  - cbn. by apply list_elem_of_singleton.
  - intros (tok & Hin & _). by apply elem_of_nil in Hin.
Qed.

End ResultCacheFilterSemantics.

(** ** ResultCache: round trip and invariant *)
Section ResultCacheInvariant.
Import ResultCache Ref.
Implicit Types (c : t) (l d : list pyval) (v x : pyval) (ids : list nat).

(** C5 fails on the cache as [__init__] leaves it, where the three
    attributes name one list: [books_added([1])] followed by [remove(1)]
    leaves both orderings holding the slots of the data list instead of
    being empty again. *)
Lemma C5_roundtrip_on_fresh_cache :
  all_ids init = [] ∧ visible_ids init = [] ∧
  ∃ c1 c2, books_added [1] Examples.conn12 init = Ok c1 ∧
           remove 1 c1 = Ok c2 ∧
           all_ids c2 = [PNone; PNone; PRow Examples.row1; PNone] ∧
           visible_ids c2 = [PNone; PNone; PRow Examples.row1; PNone].
Proof.
  split; [reflexivity|]. split; [reflexivity|].
  eexists. eexists. split; [reflexivity|]. split; [reflexivity|].
  split; reflexivity.
Qed.

(** On a cache whose three lists are distinct objects, as after any
    [refresh], the round trip of C5 holds, for every id. *)
Theorem roundtrip_when_separated conn c id :
  separated c →
  ∃ c1 c2, books_added [id] conn c = Ok c1 ∧ remove id c1 = Ok c2 ∧
           all_ids c2 = all_ids c ∧ visible_ids c2 = visible_ids c.
Proof.
  intros Hs.
  destruct (books_added_spec conn [id] c Hs) as (c1 & H1 & Hs1 & Ha1 & Hv1 & Hlen & Hin & _);
    [done|].
  assert (Hid : id < length (rows c1)).
  { apply lookup_lt_is_Some. rewrite Hin by (by apply list_elem_of_singleton). eauto. }
  destruct (remove_spec c1 id Hs1 Hid) as (c2 & H2 & _ & _ & Ha2 & Hv2 & _).
  exists c1, c2. split; [done|]. split; [done|].
  rewrite Ha2, Hv2, Ha1, Hv1. cbn [fmap list_fmap app remove_first].
  by rewrite !decide_True.
Qed.

Lemma roundtrip_when_separated_witness :
  ∃ c1 c2, books_added [7] Examples.conn12 Examples.loaded = Ok c1 ∧
           remove 7 c1 = Ok c2 ∧
           all_ids c2 = [PInt 2; PInt 1] ∧ visible_ids c2 = [PInt 2; PInt 1].
Proof.
  exact (roundtrip_when_separated Examples.conn12 Examples.loaded 7 loaded_separated).
Defined.

(** C1 fails after [remove] when a book is listed twice, as the sort on
    tags lists a book once for each of its tags: book 1 carries the tags 10
    and 11, the cache is consistent after [refresh], and after [remove(1)]
    the id is still in both orderings while its row is [None]. *)
Lemma C1_remove_after_tag_sort :
  sort_on_tags true [] [10; 11] (fun _ => [1]) = [1; 1] ∧
  ∃ c1 c2, refresh [1; 1] [Examples.row1] init = Ok c1 ∧
           consistent c1 ∧
           remove 1 c1 = Ok c2 ∧
           all_ids c2 = [PInt 1] ∧ visible_ids c2 = [PInt 1] ∧
           rows c2 !! 1 = Some PNone ∧
           ¬ consistent c2.
Proof.
  split; [reflexivity|].
  eexists. eexists. split; [reflexivity|]. split; [|split; [reflexivity|]].
  - unfold consistent. cbn. split; [done|].
    split; intros v Hv; exists 1, Examples.row1;
      (split; [|done]);
      repeat (apply elem_of_cons in Hv as [->|Hv]; [done|]);
      by apply elem_of_nil in Hv.
  - do 3 (split; [reflexivity|]).
    intros (_ & Hall & _).
    destruct (Hall (PInt 1)) as (n & r & Hn & Hrow).
    + cbn. by apply list_elem_of_singleton.
    + injection Hn as <-. cbn in Hrow. discriminate.
Qed.

Lemma healthy_in_range c : healthy c → in_range (rows c) (all_ids c).
Proof.
  intros (_ & (_ & Hall & _) & _) v Hv.
  destruct (Hall v Hv) as (n & r & -> & Hrow).
  exists n. split; [done|]. by eapply lookup_lt_Some.
Qed.

Lemma list_filter_sublist (p : pyval → bool) l : List.filter p l `sublist_of` l.
Proof.
  induction l as [|v l IH]; [done|]. cbn [List.filter].
  destruct (p v); [by apply sublist_skip|by apply sublist_cons].
Qed.

Lemma has_row_rows c c' v : rows c' = rows c → has_row c v → has_row c' v.
Proof. intros E (n & r & ? & ?). exists n, r. by rewrite E. Qed.

Lemma healthy_refresh sorted temp c :
  NoDup sorted →
  (∀ n, n ∈ sorted → ∃ r, r ∈ temp ∧ row_id r = n) →
  (∀ r rl, r ∈ temp → last temp = Some rl → row_id r < row_id rl + 2) →
  ∃ c', refresh sorted temp c = Ok c' ∧ healthy c'.
Proof.
  intros Hnd Hrows Hmax.
  destruct (refresh_spec sorted temp c Hmax) as (c' & Hr & Hs & Ha & Hv & Hrow).
  exists c'. split; [done|]. split; [done|]. split.
  - unfold consistent. rewrite Ha, Hv. split; [done|].
    split; intros v (n & -> & Hn)%list_elem_of_fmap;
      destruct (Hrow n (Hrows n Hn)) as [r Hr']; by exists n, r.
  - rewrite Ha. apply NoDup_fmap_2; [|done]. by intros ?? [=].
Qed.

Lemma healthy_filter filters (refilter OR : bool) c :
  healthy c → ∃ c', filter filters refilter OR c = Ok c' ∧ healthy c'.
Proof.
  intros Hh. pose proof (healthy_in_range c Hh) as Hrange.
  destruct Hh as (Hs & (Hsub & Hall & Hvis) & Hnd).
  assert (Hr : in_range (rows c) (if refilter then visible_ids c else all_ids c)).
  { destruct refilter; [|done]. intros v Hv. apply Hrange.
    by eapply elem_of_sublist. }
  destruct (filter_spec filters refilter OR c Hs Hr) as (c' & Hf & Hs' & Ha & Hrw & Hv).
  exists c'. split; [done|]. split; [done|]. split; [|by rewrite Ha].
  unfold consistent. rewrite Ha, Hv. split; [|split].
  - etrans; [apply list_filter_sublist|]. by destruct refilter.
  - intros v Hin. by apply (has_row_rows c), Hall.
  - intros v Hin. apply (has_row_rows c); [done|].
    apply list_elem_of_In, filter_In in Hin as [Hin _].
    apply list_elem_of_In in Hin. destruct refilter; [by apply Hvis|by apply Hall].
Qed.

Lemma healthy_books_added conn ids c :
  healthy c → NoDup ids →
  (∀ n, n ∈ ids → (PInt n ∉ all_ids c) ∧ is_Some (conn n)) →
  ∃ c', books_added ids conn c = Ok c' ∧ healthy c'.
Proof.
  intros Hh Hnd Hfresh. destruct ids as [|i0 ids0] eqn:E.
  { exists c. done. }
  rewrite <- E in *.
  destruct Hh as (Hs & (Hsub & Hall & Hvis) & Hnda).
  destruct (books_added_spec conn ids c Hs) as (c' & Hb & Hs' & Ha & Hv & Hlen & Hin & Hout);
    [by rewrite E|].
  exists c'. split; [done|]. split; [done|].
  assert (Hold : ∀ v, v ∈ all_ids c → has_row c' v).
  { intros v Hv'. destruct (Hall v Hv') as (n & r & -> & Hrow).
    exists n, r. split; [done|]. rewrite Hout; [done| |by eapply lookup_lt_Some].
    intros Hn. by destruct (Hfresh n Hn). }
  assert (Hnew : ∀ v, v ∈ PInt <$> ids → has_row c' v).
  { intros v (n & -> & Hn)%list_elem_of_fmap.
    destruct (Hfresh n Hn) as [_ [r Hr]]. exists n, r. split; [done|].
    rewrite Hin by done. unfold fetchone. by rewrite Hr. }
  split.
  - unfold consistent. rewrite Ha, Hv. split; [by apply sublist_app|].
    split; intros v [?|Hv']%elem_of_app; auto.
    apply Hold. by eapply elem_of_sublist.
  - rewrite Ha. apply NoDup_app. split; [|split; [|done]].
    + apply NoDup_fmap_2; [|done]. by intros ?? [=].
    + intros v (n & -> & Hn)%list_elem_of_fmap. by destruct (Hfresh n Hn).
Qed.

Lemma healthy_remove id c :
  healthy c → id < length (rows c) → ∃ c', remove id c = Ok c' ∧ healthy c'.
Proof.
  intros (Hs & (Hsub & Hall & Hvis) & Hnd) Hid.
  destruct (remove_spec c id Hs Hid) as (c' & Hrm & Hs' & Hr & Ha & Hv & _).
  exists c'. split; [done|]. split; [done|].
  destruct (remove_first_NoDup (PInt id) _ Hnd) as [Hnd' Hgone].
  assert (Hkeep : ∀ v, v ∈ remove_first (PInt id) (all_ids c) → has_row c' v).
  { intros v Hv'. destruct (Hall v) as (n & r & -> & Hrow);
      [by eapply elem_of_remove_first|].
    exists n, r. split; [done|]. rewrite Hr, list_lookup_insert_ne; [done|].
    intros <-. done. }
  split; [|by rewrite Ha].
  unfold consistent. rewrite Ha, Hv. split; [by apply remove_first_sublist_mono|].
  split; [done|]. intros v Hv'. apply Hkeep.
  eapply elem_of_sublist; [done|]. by apply remove_first_sublist_mono.
Qed.

(** The invariant of C1 holds once duplicate ids are ruled out: [refresh]
    establishes [healthy] when the sort lists every book once and [meta] has
    a row for each listed id, and [filter], [books_added] of new ids that
    have a row, and [remove] of an id within the data list preserve it. *)
Theorem healthy_invariant :
  (∀ sorted temp c,
     NoDup sorted →
     (∀ n, n ∈ sorted → ∃ r, r ∈ temp ∧ row_id r = n) →
     (∀ r rl, r ∈ temp → last temp = Some rl → row_id r < row_id rl + 2) →
     ∃ c', refresh sorted temp c = Ok c' ∧ healthy c') ∧
  (∀ filters (refilter OR : bool) c,
     healthy c → ∃ c', filter filters refilter OR c = Ok c' ∧ healthy c') ∧
  (∀ conn ids c,
     healthy c → NoDup ids →
     (∀ n, n ∈ ids → (PInt n ∉ all_ids c) ∧ is_Some (conn n)) →
     ∃ c', books_added ids conn c = Ok c' ∧ healthy c') ∧
  (∀ id c,
     healthy c → id < length (rows c) → ∃ c', remove id c = Ok c' ∧ healthy c').
Proof.
  split; [exact healthy_refresh|]. split; [exact healthy_filter|].
  split; [exact healthy_books_added|exact healthy_remove].
Qed.



Lemma loaded_healthy : healthy Examples.loaded.
Proof.
  split; [exact loaded_separated|]. split.
  - unfold consistent. cbn. split; [done|].
    split; intros v Hv;
      (apply elem_of_cons in Hv as [->|Hv];
         [by exists 2, Examples.row2|
          apply list_elem_of_singleton in Hv as ->; by exists 1, Examples.row1]).
  - cbn. apply NoDup_cons. split; [|apply NoDup_singleton].
    intros H. apply list_elem_of_singleton in H. discriminate.
Qed.

(** The invariant on the loaded example: removing book 1 keeps it. *)
Lemma healthy_invariant_witness :
  ∃ c', remove 1 Examples.loaded = Ok c' ∧ healthy c'.
Proof.
  apply (proj2 (proj2 (proj2 healthy_invariant)) 1 Examples.loaded loaded_healthy).
  cbn. lia.
Defined.

End ResultCacheInvariant.

(** ** The library monad *)
Section LibraryMonad.
Import Library Frame.
Local Open Scope lib_scope.

Lemma bind_inv {A B : Type} (m : M A) (k : A → M B) w r w' :
  bind m k w = (r, w') →
  (∃ a w1, m w = (Ok a, w1) ∧ k a w1 = (r, w')) ∨
  (∃ e, m w = (Raise e, w') ∧ r = Raise e).
Proof.
  unfold bind. destruct (m w) as [[a|e] w1]; intros H.
  - left. by exists a, w1.
  - right. exists e. by simplify_eq.
Qed.

Lemma bind_ok {A B : Type} (m : M A) (k : A → M B) w a w1 :
  m w = (Ok a, w1) → bind m k w = k a w1.
Proof. intros H. unfold bind. by rewrite H. Qed.

Lemma bind_raise {A B : Type} (m : M A) (k : A → M B) w e w1 :
  m w = (Raise e, w1) → bind m k w = (Raise e, w1).
Proof. intros H. unfold bind. by rewrite H. Qed.

(** *** Silent computations *)

Lemma silent_ret {A : Type} (a : A) : silent (ret a).
Proof. by intros w. Qed.

Lemma silent_raise {A : Type} e : silent (@raise A e).
Proof. by intros w. Qed.

Lemma silent_get : silent get.
Proof. by intros w. Qed.

Lemma silent_lift {A : Type} (r : result A) : silent (lift r).
Proof. by intros w. Qed.

Lemma silent_bind {A B : Type} (m : M A) (k : A → M B) :
  silent m → (∀ a, silent (k a)) → silent (bind m k).
Proof.
  intros Hm Hk w. unfold bind. specialize (Hm w).
  destruct (m w) as [[a|e] w1]; cbn [snd] in *; subst; [apply Hk|done].
Qed.

Lemma silent_first_column {A : Type} (row : option A) : silent (first_column row).
Proof. destruct row; [apply silent_ret|apply silent_raise]. Qed.

Lemma silent_run {A : Type} (m : M A) w r w' : silent m → m w = (r, w') → w' = w.
Proof. intros Hs H. specialize (Hs w). rewrite H in Hs. done. Qed.

Ltac silent_tac :=
  repeat first
    [ apply silent_ret | apply silent_raise | apply silent_get | apply silent_lift
    | apply silent_first_column
    | apply silent_bind; [|intros ?]
    | match goal with |- silent (if ?b then _ else _) => destruct b end
    | match goal with |- silent (match ?o with Some _ => _ | None => _ end) =>
        destruct o end ].

Lemma silent_title id : silent (title id).
Proof. unfold title. silent_tac. Qed.

Lemma silent_authors id : silent (authors id).
Proof. unfold authors. silent_tac. Qed.

Lemma silent_path id : silent (path id).
Proof. unfold path. silent_tac. Qed.

Lemma silent_construct_path_name id : silent (construct_path_name id).
Proof.
  unfold construct_path_name.
  apply silent_bind; [apply silent_get|intros ?].
  apply silent_bind; [apply silent_authors|intros ?].
  apply silent_bind; [apply silent_title|intros ?]. apply silent_ret.
Qed.

Lemma silent_construct_file_name id : silent (construct_file_name id).
Proof.
  unfold construct_file_name.
  apply silent_bind; [apply silent_get|intros ?].
  apply silent_bind; [apply silent_authors|intros ?].
  apply silent_bind; [apply silent_title|intros ?]. apply silent_ret.
Qed.

Lemma silent_os_exists p : silent (os_exists p).
Proof. unfold os_exists. silent_tac. Qed.

Lemma silent_os_access p : silent (os_access p).
Proof. unfold os_access. silent_tac. Qed.

Lemma silent_os_read p : silent (os_read p).
Proof. unfold os_read. silent_tac. Qed.

Lemma silent_os_listdir p : silent (os_listdir p).
Proof. unfold os_listdir. silent_tac. Qed.

Lemma silent_accessible dir name formats : silent (accessible dir name formats).
Proof.
  induction formats as [|f formats IH]; cbn [accessible]; [apply silent_ret|].
  apply silent_bind; [apply silent_os_access|intros ?].
  apply silent_bind; [apply IH|intros ?]. apply silent_ret.
Qed.

Lemma silent_formats id : silent (formats id).
Proof.
  unfold formats.
  apply silent_bind; [apply silent_get|intros w0].
  apply silent_bind; [apply silent_path|intros p].
  destruct (select_data (db w0) id); [apply silent_ret|].
  apply silent_bind; [apply silent_accessible|intros ?]. apply silent_ret.
Qed.

Lemma silent_name_changed id fname formats : silent (name_changed id fname formats).
Proof.
  induction formats as [|f formats IH]; cbn [name_changed]; [apply silent_ret|].
  apply silent_bind; [apply silent_get|intros w0].
  apply silent_bind; [apply silent_first_column|intros name].
  destruct (_ && _); [apply silent_ret|apply IH].
Qed.

Lemma silent_names_changed id : silent (names_changed id).
Proof.
  unfold names_changed.
  apply silent_bind; [apply silent_formats|intros ?].
  apply silent_bind; [apply silent_construct_file_name|intros ?].
  apply silent_name_changed.
Qed.

Lemma silent_cover id : silent (cover id).
Proof.
  unfold cover.
  apply silent_bind; [apply silent_get|intros w0].
  apply silent_bind; [apply silent_path|intros p].
  apply silent_bind; [apply silent_os_access|intros [|]]; [|apply silent_ret].
  apply silent_bind; [apply silent_os_read|intros ?]. apply silent_ret.
Qed.

Lemma silent_format_abspath id fmt : silent (format_abspath id fmt).
Proof.
  unfold format_abspath.
  apply silent_bind; [apply silent_get|intros w0].
  apply silent_bind; [apply silent_path|intros p].
  apply silent_bind; [apply silent_first_column|intros name].
  destruct (PyStr.truthy name); [|apply silent_ret].
  apply silent_bind; [apply silent_os_access|intros ?]. apply silent_ret.
Qed.

Lemma silent_format id fmt : silent (format id fmt).
Proof.
  unfold format.
  apply silent_bind; [apply silent_format_abspath|intros [p|]];
    [apply silent_os_read|apply silent_raise].
Qed.

Lemma silent_call_listeners ls name ids :
  ∀ w, call_listeners ls name ids w = (Ok tt, w).
Proof.
  induction ls as [|l ls IH]; intros w; [done|].
  cbn [call_listeners]. unfold bind, try_except, lift, ret.
  destruct (l name ids); apply IH.
Qed.

End LibraryMonad.

(** ** Library: reading the store, set_title and remove_format *)
Section LibrarySimple.
Import Library Frame.
Local Open Scope lib_scope.

Lemma path_run id w :
  path id w = (match select_book (db w) id with
               | Some b => Ok (book_path b)
               | None => Raise TypeError
               end, w).
Proof.
  unfold path, bind, get, first_column, ret, raise.
  destruct (select_book (db w) id); reflexivity.
Qed.

Lemma authors_run id w :
  authors id w = (match select_book (db w) id with
                  | Some b => Ok (book_authors b)
                  | None => Raise TypeError
                  end, w).
Proof.
  unfold authors, bind, get, first_column, ret, raise.
  destruct (select_book (db w) id); reflexivity.
Qed.

Lemma title_run id w :
  title id w = (match select_book (db w) id with
                | Some b => Ok (book_title b)
                | None => Raise TypeError
                end, w).
Proof.
  unfold title, bind, get, first_column, ret, raise.
  destruct (select_book (db w) id); reflexivity.
Qed.

Lemma construct_path_name_run id w :
  construct_path_name id w
  = (match select_book (db w) id with
     | Some b =>
         Ok (author_component (PATH_LIMIT w) (book_authors b) +:+ "/" +:+
             title_component (PATH_LIMIT w) (book_title b) +:+
             " (" +:+ PyStr.of_nat id +:+ ")")
     | None => Raise TypeError
     end, w).
Proof.
  unfold construct_path_name. rewrite (bind_ok get _ w w w) by done.
  destruct (select_book (db w) id) as [b|] eqn:E.
  - rewrite (bind_ok (authors id) _ w (book_authors b) w) by (by rewrite authors_run, E).
    rewrite (bind_ok (title id) _ w (book_title b) w) by (by rewrite title_run, E).
    done.
  - by rewrite (bind_raise (authors id) _ w TypeError w) by (by rewrite authors_run, E).
Qed.

Lemma construct_file_name_run id w :
  construct_file_name id w
  = (match select_book (db w) id with
     | Some b =>
         Ok (title_component (PATH_LIMIT w) (book_title b) +:+ " - " +:+
             author_component (PATH_LIMIT w) (book_authors b))
     | None => Raise TypeError
     end, w).
Proof.
  unfold construct_file_name. rewrite (bind_ok get _ w w w) by done.
  destruct (select_book (db w) id) as [b|] eqn:E.
  - rewrite (bind_ok (authors id) _ w (book_authors b) w) by (by rewrite authors_run, E).
    rewrite (bind_ok (title id) _ w (book_title b) w) by (by rewrite title_run, E).
    done.
  - by rewrite (bind_raise (authors id) _ w TypeError w) by (by rewrite authors_run, E).
Qed.

(** C10. [set_title] with [None] or with the empty string returns at once:
    the result is [Ok] and the world, with its store, committed store, file
    system, listeners and trace, is the one it started from. *)
Theorem C10_set_title_without_title (w : World) (id : nat) :
  set_title id None w = (Ok tt, w) ∧ set_title id (Some "") w = (Ok tt, w).
Proof. split; reflexivity. Qed.

Lemma notify_run name ids w :
  notify name ids w
  = (Ok tt, mkWorld (library_path w) (PATH_LIMIT w) (listeners w) (db w)
              (committed w) (fs w) (trace w ++ [ENotify name ids])).
Proof.
  unfold notify, bind, get, emit. cbn.
  by rewrite silent_call_listeners.
Qed.

Lemma execute_run stmt w :
  execute stmt w
  = (Ok tt, mkWorld (library_path w) (PATH_LIMIT w) (listeners w)
              (apply_sql stmt (db w)) (committed w) (fs w)
              (trace w ++ [EExecute stmt])).
Proof. reflexivity. Qed.

Lemma commit_run w :
  commit w
  = (Ok tt, mkWorld (library_path w) (PATH_LIMIT w) (listeners w)
              (db w) (db w) (fs w) (trace w ++ [ECommit])).
Proof. reflexivity. Qed.

Lemma select_name_deleted d id format :
  select_name (apply_sql (DeleteData id format) d) id format = None.
Proof.
  unfold select_name, apply_sql. cbn [data].
  induction (data d) as [|r rows IH]; [done|]. cbn [List.filter].
  destruct (Nat.eqb (data_book r) id && String.eqb (data_format r) format) eqn:E;
    cbn [negb]; [done|].
  cbn [find]. by rewrite E.
Qed.

(** C7. When the [data] row of (id, format) exists, with a non-empty name and
    the format tag in upper case as the store keeps it, and the file it
    names is not on disk, [remove_format] returns [Ok]: the failure of
    [os.remove] is caught, the rows of (id, format) are deleted and nothing
    else in the store changes, the store is committed, the file system is
    untouched, and the effects are the DELETE, the commit and one
    [metadata] notification for [id]. *)
Theorem C7_remove_format_missing_file (w : World) (id : nat) (format name : string)
  (b : Book) :
  select_book (db w) id = Some b →
  select_name (db w) id format = Some name →
  PyStr.truthy name = true →
  PyStr.upper format = format →
  Os.file (fs w)
    (Os.join (Os.join (library_path w) [book_path b]) [name +:+ extension format])
  = None →
  ∃ w', remove_format id format w = (Ok tt, w') ∧
        select_name (db w') id format = None ∧
        db w' = apply_sql (DeleteData id format) (db w) ∧
        committed w' = db w' ∧
        fs w' = fs w ∧
        listeners w' = listeners w ∧
        trace w' = trace w ++ [EExecute (DeleteData id format); ECommit;
                               ENotify "metadata" [id]].
Proof.
  intros Hb Hn Ht Hu Hf.
  unfold remove_format.
  rewrite (bind_ok get _ w w w) by done.
  rewrite (bind_ok (path id) _ w (book_path b) w) by (by rewrite path_run, Hb).
  rewrite Hn, Ht, Hu.
  set (fpath := Os.join _ [name +:+ extension format]).
  assert (Hrm : try_except (os_remove fpath) (ret tt) w = (Ok tt, w)).
  { unfold try_except, os_remove, bind, get, lift, Os.remove. subst fpath.
    rewrite Hf. reflexivity. }
  rewrite (bind_ok _ _ w tt w Hrm).
  rewrite (bind_ok _ _ _ _ _ (execute_run _ _)).
  rewrite (bind_ok _ _ _ _ _ (commit_run _)).
  rewrite notify_run.
  eexists. split; [reflexivity|].
  cbn [db committed fs listeners trace].
  split; [apply select_name_deleted|].
  split; [done|]. split; [done|]. split; [done|]. split; [done|].
  by rewrite <- !app_assoc.
Qed.

(** C7 at book 7 of the example library, whose EPUB file is gone. *)
Lemma C7_remove_format_missing_file_witness :
  ∃ w', remove_format 7 "EPUB" Examples.w_seven = (Ok tt, w') ∧
        data (db w') = [] ∧
        trace w' = [EExecute (DeleteData 7 "EPUB"); ECommit; ENotify "metadata" [7]].
Proof.
  destruct (C7_remove_format_missing_file Examples.w_seven 7 "EPUB"
              "Emma - Jane Austen" Examples.seven
              eq_refl eq_refl eq_refl eq_refl eq_refl)
    as (w' & Hr & _ & Hdb & _ & _ & _ & Htr).
  exists w'. split; [exact Hr|]. split; [rewrite Hdb; reflexivity|exact Htr].
Defined.

End LibrarySimple.

(** ** Library: the canonical path *)
Section LibraryPath.
Import Library Frame Sanitize.
Local Open Scope lib_scope.

Lemma length_take n s : String.length (PyStr.take n s) ≤ n.
Proof.
  revert s. induction n as [|n IH]; intros [|c s]; cbn [PyStr.take String.length]; try lia.
  specialize (IH s). lia.
Qed.

Lemma take_all n s : String.length s ≤ n → PyStr.take n s = s.
Proof.
  revert s. induction n as [|n IH]; intros [|c s]; cbn [PyStr.take String.length];
    intros H; try done; try lia.
  rewrite IH; [done|lia].
Qed.

Lemma length_sub_invalid s : String.length (sub_invalid "_" s) = String.length s.
Proof.
  induction s as [|c s IH]; [done|]. cbn [sub_invalid].
  destruct (is_invalid c).
  - change (S (String.length (sub_invalid "_" s)) = S (String.length s)).
    by rewrite IH.
  - cbn [String.length]. by rewrite IH.
Qed.

Lemma length_sub_space s : String.length (sub_space s) = String.length s.
Proof. induction s as [|c s IH]; [done|]. cbn [sub_space String.length]. by rewrite IH. Qed.

Lemma length_lstrip s : String.length (lstrip s) ≤ String.length s.
Proof.
  induction s as [|c s IH]; [done|]. cbn [lstrip].
  destruct (is_space c); cbn [String.length]; lia.
Qed.

Lemma length_rstrip s : String.length (rstrip s) ≤ String.length s.
Proof.
  induction s as [|c s IH]; [done|]. cbn [rstrip].
  destruct (rstrip s) as [|c' r]; [destruct (is_space c)|];
    cbn [String.length] in *; lia.
Qed.

Lemma length_sanitize s :
  String.length (sanitize_file_name s) ≤ String.length s.
Proof.
  unfold sanitize_file_name, sanitize_file_name_with, strip.
  etrans; [apply length_rstrip|]. etrans; [apply length_lstrip|].
  by rewrite length_sub_space, length_sub_invalid.
Qed.

(** C2, as amended.  For a book with a non-empty author list,
    [construct_path_name] returns, without touching the world, the
    sanitized truncation of the first author, a slash, the sanitized
    truncation of the title, and the id in parentheses: each component is
    truncated to [PATH_LIMIT] first and sanitized afterwards.  Neither
    component is longer than [PATH_LIMIT], and when the first author and the
    title have at most [PATH_LIMIT] characters the result is the path of
    the specification, where sanitizing comes first. *)
Theorem C2_construct_path_name (w : World) (id : nat) (b : Book) (a : string) :
  select_book (db w) id = Some b →
  book_authors b = Some a →
  PyStr.truthy a = true →
  construct_path_name id w
  = (Ok (sanitize_file_name (PyStr.take (PATH_LIMIT w) (PyStr.split_head PyStr.comma a))
         +:+ "/" +:+
         sanitize_file_name (PyStr.take (PATH_LIMIT w) (book_title b))
         +:+ " (" +:+ PyStr.of_nat id +:+ ")"), w) ∧
  String.length
    (sanitize_file_name (PyStr.take (PATH_LIMIT w) (PyStr.split_head PyStr.comma a)))
  ≤ PATH_LIMIT w ∧
  String.length (sanitize_file_name (PyStr.take (PATH_LIMIT w) (book_title b)))
  ≤ PATH_LIMIT w ∧
  (String.length (PyStr.split_head PyStr.comma a) ≤ PATH_LIMIT w →
   String.length (book_title b) ≤ PATH_LIMIT w →
   construct_path_name id w
   = (Ok (Ref.canonical_path_spec (PATH_LIMIT w)
            (PyStr.split_head PyStr.comma a) (book_title b) id), w)).
Proof.
  intros Hb Ha Ht.
  assert (Hrun : construct_path_name id w
    = (Ok (sanitize_file_name (PyStr.take (PATH_LIMIT w) (PyStr.split_head PyStr.comma a))
           +:+ "/" +:+
           sanitize_file_name (PyStr.take (PATH_LIMIT w) (book_title b))
           +:+ " (" +:+ PyStr.of_nat id +:+ ")"), w)).
  { rewrite construct_path_name_run, Hb. unfold author_component, title_component.
    by rewrite Ha, Ht. }
  split; [exact Hrun|].
  split; [etrans; [apply length_sanitize|apply length_take]|].
  split; [etrans; [apply length_sanitize|apply length_take]|].
  intros Hla Hlt. rewrite Hrun. unfold Ref.canonical_path_spec.
  rewrite !(take_all (PATH_LIMIT w)); try done.
  - etrans; [apply length_sanitize|done].
  - etrans; [apply length_sanitize|done].
Qed.

(** The amended C2 on the example library. *)
Lemma C2_construct_path_name_witness :
  construct_path_name 1 Examples.w_smith
  = (Ok "Adam Smith/An Inquiry into the Nature and Causes of the Wealth of Nations, Being a Treatise upon the Political (1)",
     Examples.w_smith).
Proof.
  destruct (C2_construct_path_name Examples.w_smith 1 Examples.smith "Adam Smith"
              eq_refl eq_refl eq_refl) as (Hrun & _).
  exact Hrun.
Defined.

(** C2 as stated fails: the title is cut after its 100th character, a
    space, and the sanitizer then strips that space, while the path of the
    specification keeps it. *)
Lemma C2_truncation_precedes_sanitizing :
  ∃ p, construct_path_name 1 Examples.w_smith = (Ok p, Examples.w_smith) ∧
       p ≠ Ref.canonical_path_spec 100 "Adam Smith" Examples.long_title 1 ∧
       Ref.canonical_path_spec 100 "Adam Smith" Examples.long_title 1
       = "Adam Smith/An Inquiry into the Nature and Causes of the Wealth of Nations, Being a Treatise upon the Political  (1)".
Proof.
  exists "Adam Smith/An Inquiry into the Nature and Causes of the Wealth of Nations, Being a Treatise upon the Political (1)".
  split; [reflexivity|]. split; [|reflexivity].
  apply String.eqb_neq. reflexivity.
Qed.

End LibraryPath.

(** ** Library: what a computation may change *)
Section LibraryFrame.
Import Library Frame.
Local Open Scope lib_scope.
Implicit Types (P : event → Prop) (w : World).

Lemma extends_refl P w : extends P w w.
Proof.
  unfold extends. do 5 (split; [done|]). exists []. by rewrite app_nil_r.
Qed.

Lemma extends_trans P w w1 w2 : extends P w w1 → extends P w1 w2 → extends P w w2.
Proof.
  intros (H1 & H2 & H3 & H4 & H5 & t1 & Ht1 & HP1) (G1 & G2 & G3 & G4 & G5 & t2 & Ht2 & HP2).
  unfold extends. rewrite G1, G2, G3, G4, G5. do 5 (split; [done|]).
  exists (t1 ++ t2). rewrite Ht2, Ht1, app_assoc. split; [done|]. by apply Forall_app.
Qed.

Lemma extends_weaken P Q w w' : (∀ e, P e → Q e) → extends P w w' → extends Q w w'.
Proof.
  intros HPQ (H1 & H2 & H3 & H4 & H5 & t & Ht & HP).
  unfold extends. do 5 (split; [done|]). exists t. split; [done|].
  eapply Forall_impl; eauto.
Qed.

Lemma within_silent {A : Type} P (m : M A) : silent m → within P m.
Proof. intros Hs w r w' H. apply (silent_run m w r w' Hs) in H as ->. apply extends_refl. Qed.

Lemma within_bind {A B : Type} P (m : M A) (k : A → M B) :
  within P m → (∀ a, within P (k a)) → within P (bind m k).
Proof.
  intros Hm Hk w r w' H. apply bind_inv in H as [(a & w1 & H1 & H2)|(e & H1 & _)].
  - eapply extends_trans; [by eapply Hm|by eapply Hk].
  - by eapply Hm.
Qed.

Lemma within_try_except {A : Type} P (m h : M A) :
  within P m → within P h → within P (try_except m h).
Proof.
  intros Hm Hh w r w'. unfold try_except.
  destruct (m w) as [[a|e] w1] eqn:E; intros H.
  - simplify_eq. by eapply Hm.
  - eapply extends_trans; [by eapply Hm|by eapply Hh].
Qed.

Lemma within_ret {A : Type} P (a : A) : within P (ret a).
Proof. apply within_silent, silent_ret. Qed.

Lemma within_when P (b : bool) (m : M unit) : within P m → within P (when b m).
Proof. intros H. destruct b; [done|apply within_ret]. Qed.

Lemma within_emit P e : P e → within P (emit e).
Proof.
  intros HP w r w' H. unfold emit in H. simplify_eq.
  unfold extends. cbn. do 5 (split; [done|]). exists [e]. split; [done|].
  by apply Forall_singleton.
Qed.

(** A change of the file system that keeps the working directory. *)
Lemma within_fs_step P (step : Os.FS → result Os.FS) e :
  (∀ f f', step f = Ok f' → Os.cwd f' = Os.cwd f) → P e →
  within P (w <- get ;; f <- lift (step (fs w)) ;; set_fs f ;; emit e).
Proof.
  intros Hcwd HP w r w' H. unfold bind, get, lift, set_fs, emit in H.
  destruct (step (fs w)) as [f'|err] eqn:E; simplify_eq.
  - unfold extends. cbn. do 4 (split; [done|]). split; [by eapply Hcwd|].
    exists [e]. split; [done|]. by apply Forall_singleton.
  - apply extends_refl.
Qed.

Lemma within_os_makedirs P p : P (EMakedirs p) → within P (os_makedirs p).
Proof.
  intros HP. apply (within_fs_step P (fun f => Os.makedirs f p)); [|done].
  intros f f'. unfold Os.makedirs. destruct (Os.exists_ f p); intros H; by simplify_eq.
Qed.

Lemma within_os_write P p c : P (EWrite p c) → within P (os_write p c).
Proof.
  intros HP. apply (within_fs_step P (fun f => Os.write_file f p c)); [|done].
  intros f f'. unfold Os.write_file. destruct (_ || _); intros H; by simplify_eq.
Qed.

Lemma within_os_remove P p : P (ERemove p) → within P (os_remove p).
Proof.
  intros HP. apply (within_fs_step P (fun f => Os.remove f p)); [|done].
  intros f f'. unfold Os.remove. destruct (Os.file f p); intros H; by simplify_eq.
Qed.

Lemma within_shutil_rmtree P p : P (ERmtree p) → within P (shutil_rmtree p).
Proof.
  intros HP. apply (within_fs_step P (fun f => Os.rmtree f p)); [|done].
  intros f f'. unfold Os.rmtree. destruct (Os.is_dir f p); intros H; by simplify_eq.
Qed.

Lemma within_execute P stmt :
  P (EExecute stmt) → (∀ d, books (apply_sql stmt d) = books d) →
  within P (execute stmt).
Proof.
  intros HP Hb w r w' H. rewrite execute_run in H. simplify_eq.
  unfold extends. cbn. do 3 (split; [done|]). split; [apply Hb|]. split; [done|].
  exists [EExecute stmt]. split; [done|]. by apply Forall_singleton.
Qed.

Lemma within_commit P : P ECommit → within P commit.
Proof.
  intros HP w r w' H. rewrite commit_run in H. simplify_eq.
  unfold extends. cbn. do 5 (split; [done|]).
  exists [ECommit]. split; [done|]. by apply Forall_singleton.
Qed.

Lemma within_notify P name ids : P (ENotify name ids) → within P (notify name ids).
Proof.
  intros HP w r w' H. rewrite notify_run in H. simplify_eq.
  unfold extends. cbn. do 5 (split; [done|]).
  exists [ENotify name ids]. split; [done|]. by apply Forall_singleton.
Qed.

(** *** The copying phase of [set_path] *)

Lemma within_add_format id format stream dir :
  within copying (add_format id format stream dir).
Proof.
  unfold add_format.
  apply within_bind; [apply within_silent, silent_get|intros w0].
  apply within_bind; [apply within_when, within_execute; done|intros _].
  apply within_bind; [apply within_silent, silent_construct_file_name|intros name].
  apply within_bind; [apply within_silent, silent_os_exists|intros ex].
  apply within_bind; [apply within_when, within_os_makedirs; done|intros _].
  apply within_bind; [by apply within_os_write|intros _].
  apply within_bind; [apply within_execute; done|intros _].
  apply within_bind; [by apply within_commit|intros _].
  by apply within_notify.
Qed.

Lemma within_migrate id tpath formats : within copying (migrate id tpath formats).
Proof.
  induction formats as [|fmt formats IH]; cbn [migrate]; [apply within_ret|].
  apply within_bind; [apply within_silent, silent_format|intros f].
  apply within_bind; [|intros _; apply IH].
  destruct (PyStr.truthy f); [apply within_add_format|apply within_ret].
Qed.

Lemma within_migrate_existing id cur spath tpath formats :
  within copying (migrate_existing id cur spath tpath formats).
Proof.
  unfold migrate_existing.
  apply within_bind; [apply within_silent, silent_os_exists|intros ex].
  apply within_when.
  apply within_bind; [apply within_silent, silent_cover|intros cdata].
  apply within_bind; [|intros _; apply within_migrate].
  destruct cdata; [by apply within_os_write|apply within_ret].
Qed.

End LibraryFrame.

(** ** Library: the structure of set_path *)
Section LibrarySetPath.
Import Library Frame.
Local Open Scope lib_scope.
Implicit Types (P : event → Prop) (w : World).

Lemma silent_inv {A B : Type} (m : M A) (k : A → M B) w r w' :
  silent m → bind m k w = (r, w') →
  (∃ a, m w = (Ok a, w) ∧ k a w = (r, w')) ∨
  (∃ e, m w = (Raise e, w) ∧ r = Raise e ∧ w' = w).
Proof.
  intros Hs H. apply bind_inv in H as [(a & w1 & H1 & H2)|(e & H1 & ->)].
  - pose proof (silent_run m w _ _ Hs H1) as ->. left. eauto.
  - pose proof (silent_run m w _ _ Hs H1) as ->. right. eauto.
Qed.

Lemma names_changed_run id w fs_ fname r :
  formats id w = (Ok fs_, w) → construct_file_name id w = (Ok fname, w) →
  name_changed id fname (format_list fs_) w = (r, w) →
  names_changed id w = (r, w).
Proof.
  intros H1 H2 H3. unfold names_changed.
  rewrite (bind_ok _ _ _ _ _ H1), (bind_ok _ _ _ _ _ H2). done.
Qed.

(** The cases of a call of [set_path]: the reads before the test raise, or
    the call returns early, or it relocates. *)
Lemma set_path_inv id w r w' :
  set_path id w = (r, w') →
  (∃ e, r = Raise e ∧ w' = w) ∨
  ∃ pth cur changed,
    construct_path_name id w = (Ok pth, w) ∧ path id w = (Ok cur, w) ∧
    names_changed id w = (Ok changed, w) ∧
    ((pth = cur ∧ changed = false ∧ r = Ok tt ∧ w' = w) ∨
     ((pth ≠ cur ∨ changed = true) ∧
      ∃ fs_, formats id w = (Ok fs_, w) ∧
             relocation id pth cur (format_list fs_) w = (r, w'))).
Proof.
  unfold set_path. intros H.
  rewrite (bind_ok get _ w w w) in H by done.
  apply silent_inv in H as [(pth & Hp & H)|(e & _ & -> & ->)];
    [|left; eauto|apply silent_construct_path_name].
  apply silent_inv in H as [(cur & Hc & H)|(e & _ & -> & ->)];
    [|left; eauto|apply silent_path].
  apply silent_inv in H as [(fs_ & Hf & H)|(e & _ & -> & ->)];
    [|left; eauto|apply silent_formats].
  apply silent_inv in H as [(fname & Hn & H)|(e & _ & -> & ->)];
    [|left; eauto|apply silent_construct_file_name].
  apply silent_inv in H as [(changed & Hch & H)|(e & _ & -> & ->)];
    [|left; eauto|apply silent_name_changed].
  right. exists pth, cur, changed. split; [done|]. split; [done|].
  split; [by eapply names_changed_run|].
  destruct (String.eqb pth cur) eqn:E; [apply String.eqb_eq in E|apply String.eqb_neq in E];
    destruct changed; cbn [andb negb] in H.
  - right. split; [by right|]. exists fs_. split; [done|]. exact H.
  - left. unfold ret in H. by simplify_eq.
  - right. split; [by left|]. exists fs_. split; [done|]. exact H.
  - right. split; [by left|]. exists fs_. split; [done|]. exact H.
Qed.

Lemma set_path_early id w pth :
  construct_path_name id w = (Ok pth, w) → path id w = (Ok pth, w) →
  names_changed id w = (Ok false, w) →
  set_path id w = (Ok tt, w).
Proof.
  intros Hp Hc Hn. unfold names_changed in Hn.
  apply silent_inv in Hn as [(fs_ & Hf & Hn)|(e & _ & [=] & _)]; [|apply silent_formats].
  apply silent_inv in Hn as [(fname & Hfn & Hn)|(e & _ & [=] & _)];
    [|apply silent_construct_file_name].
  unfold set_path. rewrite (bind_ok get _ w w w) by done.
  rewrite (bind_ok _ _ _ _ _ Hp), (bind_ok _ _ _ _ _ Hc), (bind_ok _ _ _ _ _ Hf),
    (bind_ok _ _ _ _ _ Hfn), (bind_ok _ _ _ _ _ Hn).
  by rewrite String.eqb_refl.
Qed.

Lemma norm_cwd f f' x : Os.cwd f' = Os.cwd f → Os.norm f' x = Os.norm f x.
Proof. intros H. unfold Os.norm, Os.abspath. by rewrite H. Qed.

(** [delete_not_needed] deletes at most the old directory and its parent,
    touches neither the store nor the object, and deletes nothing when the
    normalised old and new directories coincide. *)
Lemma delete_not_needed_inv cur spath tpath w r w' :
  delete_not_needed cur spath tpath w = (r, w') →
  extends (deletion spath) w w' ∧ db w' = db w ∧ committed w' = committed w ∧
  (trace w' ≠ trace w → Os.norm (fs w) spath ≠ Os.norm (fs w) tpath).
Proof.
  unfold delete_not_needed. intros H.
  rewrite (bind_ok (os_exists spath) _ w (Os.exists_ (fs w) spath) w) in H by done.
  destruct (PyStr.truthy cur && Os.exists_ (fs w) spath); cbn [when] in H;
    [|unfold ret in H; simplify_eq; by split; [apply extends_refl|]].
  rewrite (bind_ok get _ w w w) in H by done.
  destruct (String.eqb (Os.norm (fs w) spath) (Os.norm (fs w) tpath)) eqn:E;
    cbn [when negb] in H;
    [unfold ret in H; simplify_eq; by split; [apply extends_refl|]|].
  apply String.eqb_neq in E.
  assert (Hstep : ∀ p w0 r0 w0', shutil_rmtree p w0 = (r0, w0') →
            db w0' = db w0 ∧ committed w0' = committed w0).
  { intros p w0 r0 w0'. unfold shutil_rmtree, bind, get, lift, set_fs, emit.
    destruct (Os.rmtree (fs w0) p); intros; by simplify_eq. }
  split; [|split; [|split; [|done]]].
  - revert H. apply within_bind; [apply within_shutil_rmtree; by left|intros _].
    apply within_bind; [apply within_silent, silent_os_listdir|intros entries].
    apply within_when, within_shutil_rmtree. by right.
  - apply bind_inv in H as [([] & w1 & H1 & H)|(e & H1 & _)];
      [|by apply Hstep in H1 as [? ?]].
    apply Hstep in H1 as [<- _].
    apply silent_inv in H as [(entries & _ & H)|(e & _ & _ & ->)];
      [|done|apply silent_os_listdir].
    destruct (Nat.eqb _ 0); cbn [when] in H; [by apply Hstep in H as [? ?]|].
    unfold ret in H. by simplify_eq.
  - apply bind_inv in H as [([] & w1 & H1 & H)|(e & H1 & _)];
      [|by apply Hstep in H1 as [? ?]].
    apply Hstep in H1 as [_ <-].
    apply silent_inv in H as [(entries & _ & H)|(e & _ & _ & ->)];
      [|done|apply silent_os_listdir].
    destruct (Nat.eqb _ 0); cbn [when] in H; [by apply Hstep in H as [? ?]|].
    unfold ret in H. by simplify_eq.
Qed.

End LibrarySetPath.

(** ** Library: relocation *)
Section LibraryRelocation.
Import Library Frame.
Local Open Scope lib_scope.
Implicit Types (P : event → Prop) (w : World).

Lemma relocation_inv id pth cur formats w r w' :
  relocation id pth cur formats w = (r, w') →
  ∃ wb, extends copying w wb ∧
        ((∃ e, r = Raise e ∧ w' = wb) ∨
         delete_not_needed cur (dir_of w cur) (dir_of w pth) (path_committed wb id pth)
         = (r, w')).
Proof.
  unfold relocation. intros H.
  rewrite (bind_ok get _ w w w) in H by done.
  rewrite (bind_ok (os_exists _) _ w (Os.exists_ (fs w) (dir_of w pth)) w) in H by done.
  apply bind_inv in H as [([] & wa & Ha & H)|(e & Ha & ->)].
  2:{ exists w'. split; [|left; eauto].
      revert Ha. apply within_when, within_os_makedirs. done. }
  assert (Hwa : extends copying w wa).
  { revert Ha. apply within_when, within_os_makedirs. done. }
  apply bind_inv in H as [([] & wb & Hb & H)|(e & Hb & ->)].
  2:{ exists w'. split; [|left; eauto].
      eapply extends_trans; [done|]. revert Hb. apply within_migrate_existing. }
  exists wb. split.
  { eapply extends_trans; [done|]. revert Hb. apply within_migrate_existing. }
  right.
  rewrite (bind_ok _ _ _ _ _ (execute_run _ _)) in H.
  rewrite (bind_ok _ _ _ _ _ (commit_run _)) in H.
  exact H.
Qed.

Lemma select_book_books d d' id : books d' = books d → select_book d' id = select_book d id.
Proof. intros H. unfold select_book. by rewrite H. Qed.

Lemma select_book_update d id pth :
  select_book (apply_sql (UpdatePath id pth) d) id
  = option_map (fun b => mkBook (book_id b) (book_title b) (book_authors b) pth)
      (select_book d id).
Proof.
  unfold select_book, apply_sql. cbn [books].
  induction (books d) as [|b bs IH]; [done|]. cbn [map find].
  destruct (Nat.eqb (book_id b) id) eqn:E; cbn [book_id]; rewrite E; [done|apply IH].
Qed.

(** Splitting a list equation at an element the first part cannot hold. *)
Lemma app_split_at {A : Type} (Q : A → Prop) (l1 l2 pre post : list A) (x : A) :
  l1 ++ l2 = pre ++ x :: post → Forall Q l1 → ¬ Q x →
  ∃ pre2, pre = l1 ++ pre2 ∧ l2 = pre2 ++ x :: post.
Proof.
  revert pre. induction l1 as [|a l1 IH]; intros pre Heq HQ Hx.
  - exists pre. done.
  - apply Forall_cons in HQ as [Ha HQ]. destruct pre as [|b pre]; cbn in Heq.
    + simplify_eq. done.
    + simplify_eq. destruct (IH pre) as (pre2 & -> & ->); [done..|].
      exists pre2. done.
Qed.

(** C8. Whenever the trace of a call of [set_path] holds the deletion of a
    directory, the events before it hold the UPDATE of the book's path to the
    newly computed one, directly followed by a commit, with only copying
    events in front; the committed store has the new path; the normalised
    old and new directories differ; and the deleted directory is the old
    one or its parent. *)
Theorem C8_old_directory_removed_after_commit (w w' : World) (id : nat)
  (r : result unit) (pre post : list event) (d : string) :
  set_path id w = (r, w') →
  trace w' = trace w ++ pre ++ ERmtree d :: post →
  ∃ pth cur before after b,
    construct_path_name id w = (Ok pth, w) ∧ path id w = (Ok cur, w) ∧
    pre = before ++ EExecute (UpdatePath id pth) :: ECommit :: after ∧
    Forall copying before ∧
    Forall (deletion (dir_of w cur)) after ∧
    select_book (committed w') id = Some b ∧ book_path b = pth ∧
    Os.norm (fs w) (dir_of w cur) ≠ Os.norm (fs w) (dir_of w pth) ∧
    (d = dir_of w cur ∨ d = Os.dirname (dir_of w cur)).
Proof.
  intros Hrun Htrace.
  assert (Hnil : ∀ w0, trace w0 = trace w0 ++ pre ++ ERmtree d :: post → False).
  { intros w0 H. rewrite <- (app_nil_r (trace w0)) in H at 1.
    apply app_inv_head in H. by destruct pre. }
  apply set_path_inv in Hrun as [(e & -> & ->)|(pth & cur & changed & Hp & Hc & Hn & Hcase)];
    [by apply Hnil in Htrace|].
  destruct Hcase as [(_ & _ & _ & ->)|(_ & fs_ & _ & Hrel)]; [by apply Hnil in Htrace|].
  apply relocation_inv in Hrel as (wb & Hwb & Hrel).
  destruct Hwb as (Hlp & Hlim & Hls & Hbooks & Hcwd & tA & HtA & HPA).
  destruct Hrel as [(e & -> & ->)|Hdel].
  { rewrite HtA in Htrace. apply app_inv_head in Htrace. subst tA.
    apply Forall_app in HPA as [_ HPA]. apply Forall_cons in HPA as [[] _]. }
  apply delete_not_needed_inv in Hdel as (Hext & Hdb & Hcm & Hnorm).
  destruct Hext as (_ & _ & _ & _ & _ & tC & HtC & HPC).
  cbn [path_committed trace fs] in HtC, Hnorm.
  rewrite HtC, HtA, <- !app_assoc in Htrace. apply app_inv_head in Htrace.
  cbn [app] in Htrace.
  destruct (app_split_at copying tA _ pre post (ERmtree d) Htrace HPA)
    as (pre2 & -> & Hrest); [by intros []|].
  destruct pre2 as [|e1 pre2]; [simplify_eq|]. cbn [app] in Hrest.
  destruct pre2 as [|e2 pre2]; [simplify_eq|]. cbn [app] in Hrest.
  injection Hrest as <- <- HtC'. subst tC.
  assert (Hb : is_Some (select_book (db w) id)).
  { rewrite path_run in Hc. destruct (select_book (db w) id); [eauto|by simplify_eq]. }
  destruct Hb as [b Hb].
  exists pth, cur, tA, pre2, (mkBook (book_id b) (book_title b) (book_authors b) pth).
  split; [done|]. split; [done|]. split; [done|]. split; [done|].
  apply Forall_app in HPC as [HPC1 HPC2]. apply Forall_cons in HPC2 as [Hd _].
  split; [done|]. split; [|split; [done|]].
  - rewrite Hcm. cbn [path_committed committed].
    rewrite select_book_update, (select_book_books _ _ _ Hbooks), Hb. done.
  - split.
    + rewrite <- (norm_cwd (fs w) (fs wb) _ Hcwd), <- (norm_cwd (fs w) (fs wb) (dir_of w pth) Hcwd).
      apply Hnorm. rewrite HtC. intros H. apply (f_equal length) in H.
      rewrite !length_app in H. cbn [length] in H. lia.
    + destruct Hd as [H|H]; injection H as ->; auto.
Qed.

(** C8 on the relocation of book 1 from [Ema] to [Emma]. *)
Lemma C8_old_directory_removed_after_commit_witness :
  ∃ pth cur before after b,
    construct_path_name 1 Examples.w_emma = (Ok pth, Examples.w_emma) ∧
    path 1 Examples.w_emma = (Ok cur, Examples.w_emma) ∧
    Examples.emma_copying
      ++ [EExecute (UpdatePath 1 "Jane Austen/Emma (1)"); ECommit]
    = before ++ EExecute (UpdatePath 1 pth) :: ECommit :: after ∧
    Forall copying before ∧
    Forall (deletion (dir_of Examples.w_emma cur)) after ∧
    select_book (committed (set_path 1 Examples.w_emma).2) 1 = Some b ∧
    book_path b = pth ∧
    Os.norm (fs Examples.w_emma) (dir_of Examples.w_emma cur)
    ≠ Os.norm (fs Examples.w_emma) (dir_of Examples.w_emma pth) ∧
    ("/library/Jane Austen/Ema (1)" = dir_of Examples.w_emma cur ∨
     "/library/Jane Austen/Ema (1)" = Os.dirname (dir_of Examples.w_emma cur)).
Proof.
  apply (C8_old_directory_removed_after_commit Examples.w_emma
           (set_path 1 Examples.w_emma).2 1 (set_path 1 Examples.w_emma).1
           (Examples.emma_copying
              ++ [EExecute (UpdatePath 1 "Jane Austen/Emma (1)"); ECommit])
           [] "/library/Jane Austen/Ema (1)").
  - apply surjective_pairing.
  - vm_compute. reflexivity.
Defined.

End LibraryRelocation.

(** ** Library: when the second call of set_path returns early *)
Section LibraryIdempotence.
Import Library Frame.
Local Open Scope lib_scope.
Implicit Types (w : World).

Lemma split_nonempty sep s : PyStr.split sep s ≠ [].
Proof.
  destruct s as [|c s]; [done|]. cbn [PyStr.split].
  destruct (Ascii.eqb c sep); [done|]. by destruct (PyStr.split sep s).
Qed.

(** A part without separator is split off whole. *)
Lemma split_app sep a rest :
  PyStr.split sep a = [a] →
  PyStr.split sep (a +:+ String sep rest) = a :: PyStr.split sep rest.
Proof.
  induction a as [|c a IH]; intros H.
  - change ("" +:+ String sep rest) with (String sep rest).
    cbn [PyStr.split]. by rewrite Ascii.eqb_refl.
  - cbn [PyStr.split] in H.
    change (String c a +:+ String sep rest) with (String c (a +:+ String sep rest)).
    cbn [PyStr.split].
    destruct (Ascii.eqb c sep).
    + exfalso. injection H as _ H. by apply split_nonempty in H.
    + destruct (PyStr.split sep a) as [|x xs] eqn:E; [by apply split_nonempty in E|].
      injection H as -> ->. by rewrite IH.
Qed.

Lemma split_join l :
  l ≠ [] → Forall (fun f => PyStr.split PyStr.comma f = [f]) l →
  PyStr.split PyStr.comma (PyStr.join "," l) = l.
Proof.
  induction l as [|f l IH]; intros Hne Hall; [done|].
  apply Forall_cons in Hall as [Hf Hall]. destruct l as [|g l]; [done|].
  change (PyStr.join "," (f :: g :: l)) with (f +:+ String PyStr.comma (PyStr.join "," (g :: l))).
  rewrite split_app by done. by rewrite IH.
Qed.

Lemma accessible_run dir name formats w :
  ∃ ans, accessible dir name formats w = (Ok ans, w) ∧ ans ⊆ formats.
Proof.
  induction formats as [|f formats (ans & IH & Hsub)]; cbn [accessible].
  - by exists [].
  - rewrite (bind_ok (os_access _) _ w (Os.access (fs w) (Os.join dir [name +:+ extension f])) w)
      by done.
    rewrite (bind_ok _ _ _ _ _ IH). unfold ret.
    destruct (Os.access _ _); eexists; (split; [done|]).
    + intros x [->|Hx]%elem_of_cons; apply elem_of_cons; [by left|right; by apply Hsub].
    + intros x Hx. apply elem_of_cons. right. by apply Hsub.
Qed.

Lemma format_list_join ans :
  Forall (fun f => PyStr.split PyStr.comma f = [f]) ans →
  format_list (Some (PyStr.join "," ans)) ⊆ ans.
Proof.
  intros Hall. unfold format_list. destruct (PyStr.truthy _) eqn:E; [|set_solver].
  destruct ans as [|f ans]; [done|]. by rewrite split_join.
Qed.

Lemma select_name_of_row d id f r :
  r ∈ select_data d id → data_format r = f →
  ∃ r', r' ∈ select_data d id ∧ select_name d id f = Some (data_name r').
Proof.
  unfold select_data, select_name. intros Hr Hf.
  apply list_elem_of_In, filter_In in Hr as [Hin Hb].
  destruct (find _ (data d)) as [r'|] eqn:E.
  - exists r'. split; [|done]. apply find_some in E as [Hin' Hp].
    apply list_elem_of_In, filter_In. split; [done|].
    by apply andb_prop in Hp as [? _].
  - exfalso. apply (find_none _ _ E) in Hin. cbv beta in Hin.
    rewrite Hb, Hf, String.eqb_refl in Hin. done.
Qed.

Lemma name_changed_current id fname l w :
  (∀ f, f ∈ l → ∃ r, r ∈ select_data (db w) id ∧
                     select_name (db w) id f = Some (data_name r)) →
  (∀ r, r ∈ select_data (db w) id → data_name r = fname ∨ data_name r = "") →
  name_changed id fname l w = (Ok false, w).
Proof.
  intros Hrow Hname. induction l as [|f l IH]; [done|]. cbn [name_changed].
  rewrite (bind_ok get _ w w w) by done.
  destruct (Hrow f) as (r & Hr & Hsel); [set_solver|].
  rewrite Hsel. cbn [first_column].
  rewrite (bind_ok (ret _) _ w (data_name r) w) by done.
  assert (Hcond : PyStr.truthy (data_name r) && negb (String.eqb (data_name r) fname) = false).
  { destruct (Hname r Hr) as [->| ->]; [|done].
    by rewrite String.eqb_refl, andb_false_r. }
  rewrite Hcond. apply IH. intros f' Hf'. apply Hrow. set_solver.
Qed.

(** When the stored path is the computed one, every format row of the book
    carries the computed file name (or none) and no format tag holds a
    comma, [set_path] returns early and leaves the world unchanged. *)
Lemma set_path_current id w pth fname :
  construct_path_name id w = (Ok pth, w) → path id w = (Ok pth, w) →
  construct_file_name id w = (Ok fname, w) →
  (∀ r, r ∈ select_data (db w) id →
        (data_name r = fname ∨ data_name r = "") ∧
        PyStr.split PyStr.comma (data_format r) = [data_format r]) →
  set_path id w = (Ok tt, w).
Proof.
  intros Hp Hc Hf Hrows. apply (set_path_early id w pth); [done..|].
  assert (Hfmt : ∃ fs_, formats id w = (Ok fs_, w) ∧
            format_list fs_ ⊆ map data_format (select_data (db w) id)).
  { unfold formats. rewrite (bind_ok get _ w w w) by done.
    rewrite (bind_ok _ _ _ _ _ Hc).
    destruct (select_data (db w) id) as [|r0 rows] eqn:E.
    - exists None. done.
    - destruct (accessible_run (Os.join (library_path w) [pth]) (data_name r0)
                  (map data_format (r0 :: rows)) w) as (ans & Hacc & Hsub).
      rewrite (bind_ok _ _ _ _ _ Hacc). eexists. split; [done|].
      etrans; [apply format_list_join|done].
      apply Forall_forall. intros f Hin. apply Hsub in Hin.
      apply list_elem_of_In, in_map_iff in Hin as (r & <- & Hin).
      apply Hrows. by apply list_elem_of_In. }
  destruct Hfmt as (fs_ & Hfs & Hsub).
  eapply names_changed_run; [done..|].
  apply name_changed_current.
  - intros f Hin. apply Hsub in Hin.
    apply list_elem_of_In, in_map_iff in Hin as (r & Hrf & Hin).
    apply list_elem_of_In in Hin. by eapply select_name_of_row.
  - intros r Hr. by apply Hrows.
Qed.

End LibraryIdempotence.

(** ** Library: calling set_path twice *)
Section LibraryTwice.
Import Library Frame.
Local Open Scope lib_scope.
Implicit Types (w : World).

(** C3, as amended.  After a call of [set_path] that has returned, the
    recomputed path equals the stored path.  A second call then returns
    early, leaving the world with its trace unchanged, when every format row
    of the book carries the computed file name (or no name) and no format
    tag holds a comma, and more generally when no format that [formats]
    lists carries a stored name, not empty, that differs from the computed
    file name.  When such a format is left, a second call that returns has
    written the path to the store again. *)
Theorem C3_set_path_again (w w1 : World) (id : nat) :
  set_path id w = (Ok tt, w1) →
  ∃ pth fname,
    construct_path_name id w1 = (Ok pth, w1) ∧ path id w1 = (Ok pth, w1) ∧
    construct_file_name id w1 = (Ok fname, w1) ∧
    ((∀ r, r ∈ select_data (db w1) id →
           (data_name r = fname ∨ data_name r = "") ∧
           PyStr.split PyStr.comma (data_format r) = [data_format r]) →
     set_path id w1 = (Ok tt, w1)) ∧
    (names_changed id w1 = (Ok false, w1) → set_path id w1 = (Ok tt, w1)) ∧
    (names_changed id w1 = (Ok true, w1) →
     ∀ w2, set_path id w1 = (Ok tt, w2) →
           ∃ t, trace w2 = trace w1 ++ t ∧ EExecute (UpdatePath id pth) ∈ t).
Proof.
  intros Hrun.
  assert (Hpath : ∃ pth b, construct_path_name id w1 = (Ok pth, w1) ∧
                           path id w1 = (Ok pth, w1) ∧
                           select_book (db w1) id = Some b).
  { apply set_path_inv in Hrun as [(e & [=] & _)|(pth & cur & changed & Hp & Hc & Hn & Hcase)].
    assert (Hb : is_Some (select_book (db w) id)).
    { rewrite path_run in Hc. destruct (select_book (db w) id); [eauto|by simplify_eq]. }
    destruct Hb as [b Hb].
    destruct Hcase as [(-> & _ & _ & ->)|(_ & fs_ & _ & Hrel)]; [by exists cur, b|].
    apply relocation_inv in Hrel as (wb & Hwb & [(e & [=] & _)|Hdel]).
    destruct Hwb as (_ & Hlim & _ & Hbooks & _).
    apply delete_not_needed_inv in Hdel as ((_ & Hlim' & _) & Hdb & _).
    cbn [path_committed PATH_LIMIT] in Hlim'.
    assert (Hb1 : select_book (db w1) id
                  = Some (mkBook (book_id b) (book_title b) (book_authors b) pth)).
    { rewrite Hdb. cbn [path_committed db].
      by rewrite select_book_update, (select_book_books _ _ _ Hbooks), Hb. }
    exists pth. eexists. rewrite construct_path_name_run, path_run, Hb1.
    cbn [book_authors book_title book_path].
    rewrite construct_path_name_run, Hb in Hp. rewrite Hlim', Hlim.
    split; [by simplify_eq|done]. }
  destruct Hpath as (pth & b & Hp1 & Hc1 & Hb1).
  assert (Hfn : ∃ fname, construct_file_name id w1 = (Ok fname, w1))
    by (rewrite construct_file_name_run, Hb1; eauto).
  destruct Hfn as [fname Hfn].
  exists pth, fname. do 3 (split; [done|]).
  split; [intros Hrows; by apply (set_path_current id w1 pth fname)|].
  split; [intros Hn; by apply (set_path_early id w1 pth)|].
  intros Hstale w2 Hrun2.
  apply set_path_inv in Hrun2
    as [(e & [=] & _)|(pth' & cur' & changed & Hp' & Hc' & Hn' & Hcase)].
  rewrite Hp1 in Hp'. rewrite Hstale in Hn'. simplify_eq.
  destruct Hcase as [(_ & [=] & _)|(_ & fs_ & _ & Hrel)].
  apply relocation_inv in Hrel as (wb & Hwb & [(e & [=] & _)|Hdel]).
  destruct Hwb as (_ & _ & _ & _ & _ & tA & HtA & _).
  apply delete_not_needed_inv in Hdel as ((_ & _ & _ & _ & _ & tC & HtC & _) & _).
  cbn [path_committed trace] in HtC.
  exists (tA ++ [EExecute (UpdatePath id pth')] ++ [ECommit] ++ tC).
  split; [by rewrite HtC, HtA, <- !app_assoc|].
  apply elem_of_app. right. by apply elem_of_cons; left.
Qed.

(** The amended C3 on the relocation of book 1 from [Ema] to [Emma]: the
    second call leaves the world as the first call left it. *)
Lemma C3_set_path_again_witness :
  set_path 1 (set_path 1 Examples.w_emma).2
  = (Ok tt, (set_path 1 Examples.w_emma).2).
Proof.
  destruct (C3_set_path_again Examples.w_emma (set_path 1 Examples.w_emma).2 1)
    as (pth & fname & _ & _ & _ & _ & Hearly & _).
  - vm_compute. reflexivity.
  - apply Hearly. vm_compute. reflexivity.
Defined.

(** C3 as stated fails: book 1 has an EPUB row with an old file name whose
    file is empty.  The first call completes and changes no metadata; the
    migration skips the empty file, so the stale name stays, and the second
    call does not return early: it writes the path to the store and commits
    again. *)
Lemma C3_second_call_writes_again :
  ∃ w1 w2,
    set_path 1 Examples.w_stale = (Ok tt, w1) ∧
    db w1 = db Examples.w_stale ∧
    names_changed 1 w1 = (Ok true, w1) ∧
    set_path 1 w1 = (Ok tt, w2) ∧
    trace w2 = trace w1 ++ [EExecute (UpdatePath 1 "Jane Austen/Emma (1)"); ECommit].
Proof.
  exists (set_path 1 Examples.w_stale).2, (set_path 1 (set_path 1 Examples.w_stale).2).2.
  split; [vm_compute; reflexivity|]. split; [vm_compute; reflexivity|].
  split; [vm_compute; reflexivity|]. split; vm_compute; reflexivity.
Qed.

Lemma within_delete_not_needed cur spath tpath :
  within (fun _ => True) (delete_not_needed cur spath tpath).
Proof.
  intros w r w' H. apply delete_not_needed_inv in H as (H & _).
  eapply extends_weaken; [|exact H]. done.
Qed.

(** Whatever [set_path] does, it only adds events to the trace and keeps
    the attributes of the object. *)
Lemma set_path_trace id w r w' :
  set_path id w = (r, w') →
  library_path w' = library_path w ∧ PATH_LIMIT w' = PATH_LIMIT w ∧
  listeners w' = listeners w ∧ ∃ t, trace w' = trace w ++ t.
Proof.
  intros H.
  assert (Hsame : library_path w = library_path w ∧ PATH_LIMIT w = PATH_LIMIT w ∧
                  listeners w = listeners w ∧ ∃ t, trace w = trace w ++ t).
  { do 3 (split; [done|]). exists []. by rewrite app_nil_r. }
  apply set_path_inv in H as [(e & _ & ->)|(pth & cur & changed & _ & _ & _ & Hcase)];
    [done|].
  destruct Hcase as [(_ & _ & _ & ->)|(_ & fs_ & _ & Hrel)]; [done|].
  apply relocation_inv in Hrel as (wb & Hwb & Hrel).
  destruct Hwb as (H1 & H2 & H3 & _ & _ & tA & HtA & _).
  destruct Hrel as [(e & _ & ->)|Hdel]; [by eauto 10|].
  apply delete_not_needed_inv in Hdel as ((G1 & G2 & G3 & _ & _ & tC & HtC & _) & _).
  cbn [path_committed library_path PATH_LIMIT listeners trace] in *.
  rewrite G1, G2, G3, H1, H2, H3. do 3 (split; [done|]).
  rewrite HtC, HtA, <- !app_assoc. eauto.
Qed.

(** The guard of [set_title] matters: with a title that is not empty the
    call starts by writing the title to the store. *)
Lemma set_title_with_title_writes id t w :
  PyStr.truthy t = true →
  ∃ r w' tr, set_title id (Some t) w = (r, w') ∧
             trace w' = trace w ++ EExecute (UpdateTitle id t) :: tr.
Proof.
  intros Ht. unfold set_title. rewrite Ht. cbn [negb].
  rewrite (bind_ok _ _ _ _ _ (execute_run _ _)).
  match goal with |- context [bind (set_path id) ?k ?w0] =>
    destruct (bind (set_path id) k w0) as [r w'] eqn:E; set (wu := w0) in * end.
  exists r, w'. apply bind_inv in E as [([] & w1 & H1 & H2)|(e & H1 & _)].
  - apply set_path_trace in H1 as (_ & _ & _ & t1 & Ht1).
    rewrite notify_run in H2. injection H2 as _ <-. cbn [trace].
    exists (t1 ++ [ENotify "metadata" [id]]). rewrite Ht1. subst wu. cbn [trace].
    by rewrite <- !app_assoc.
  - apply set_path_trace in H1 as (_ & _ & _ & t1 & Ht1).
    exists t1. rewrite Ht1. subst wu. cbn [trace]. by rewrite <- !app_assoc.
Qed.

End LibraryTwice.

(** ** Strings: appending, and characters that stay out *)
Section StringFacts.
Implicit Types (s t : string) (c : ascii).

Lemma length_append s t : String.length (s +:+ t) = String.length s + String.length t.
Proof.
  induction s as [|c s IH]; [done|]. change (String c s +:+ t) with (String c (s +:+ t)).
  cbn [String.length]. by rewrite IH.
Qed.

Lemma append_cons c s t : String c s +:+ t = String c (s +:+ t).
Proof. reflexivity. Qed.

Lemma append_assoc s t u : (s +:+ t) +:+ u = s +:+ t +:+ u.
Proof. induction s as [|c s IH]; [done|]. rewrite !append_cons. by rewrite IH. Qed.

Lemma append_nil_r s : s +:+ "" = s.
Proof. induction s as [|c s IH]; [done|]. rewrite append_cons. by rewrite IH. Qed.

Lemma chars_append s t :
  list_ascii_of_string (s +:+ t) = list_ascii_of_string s ++ list_ascii_of_string t.
Proof.
  induction s as [|c s IH]; [done|]. rewrite append_cons.
  cbn [list_ascii_of_string app]. by rewrite IH.
Qed.

Lemma take_append s t : PyStr.take (String.length s) (s +:+ t) = s.
Proof.
  induction s as [|c s IH]; [by destruct t|]. rewrite append_cons.
  cbn [String.length PyStr.take]. by rewrite IH.
Qed.

(** A string without the separator is one part. *)
Lemma split_whole sep s :
  Forall (fun c => c ≠ sep) (list_ascii_of_string s) → PyStr.split sep s = [s].
Proof.
  induction s as [|c s IH]; [done|]. cbn [list_ascii_of_string].
  intros [Hc Hs]%Forall_cons. cbn [PyStr.split].
  destruct (Ascii.eqb c sep) eqn:E; [by apply Ascii.eqb_eq in E|].
  by rewrite IH.
Qed.

End StringFacts.

(** ** sanitize_file_name: what it returns *)
Section SanitizeFacts.
Import Sanitize Shape.
Implicit Types (s : string) (c : ascii).

Lemma clean_not_slash c : clean c → c ≠ PyStr.slash.
Proof. intros [H _] ->. done. Qed.

Lemma Forall_sub_invalid s :
  Forall (fun c => is_invalid c = false) (list_ascii_of_string (sub_invalid "_" s)).
Proof.
  induction s as [|c s IH]; [constructor|]. cbn [sub_invalid].
  destruct (is_invalid c) eqn:E.
  - change ("_" +:+ sub_invalid "_" s) with (String "_" (sub_invalid "_" s)).
    cbn [list_ascii_of_string]. by constructor.
  - cbn [list_ascii_of_string]. by constructor.
Qed.

Lemma Forall_sub_space s :
  Forall (fun c => is_invalid c = false) (list_ascii_of_string s) →
  Forall clean (list_ascii_of_string (sub_space s)).
Proof.
  induction s as [|c s IH]; [constructor|]. cbn [list_ascii_of_string sub_space].
  intros [Hc Hs]%Forall_cons. constructor; [|by apply IH].
  destruct (is_space c) eqn:E; [done|]. split; [done|]. by rewrite E.
Qed.

Lemma Forall_lstrip (P : ascii → Prop) s :
  Forall P (list_ascii_of_string s) → Forall P (list_ascii_of_string (lstrip s)).
Proof.
  induction s as [|c s IH]; [done|]. cbn [list_ascii_of_string lstrip].
  intros H. destruct (is_space c); [|done]. apply IH. by apply Forall_cons in H as [_ H].
Qed.

Lemma Forall_rstrip (P : ascii → Prop) s :
  Forall P (list_ascii_of_string s) → Forall P (list_ascii_of_string (rstrip s)).
Proof.
  induction s as [|c s IH]; [done|]. cbn [list_ascii_of_string rstrip].
  intros [Hc Hs]%Forall_cons. specialize (IH Hs).
  destruct (rstrip s) as [|c' r].
  - destruct (is_space c); [constructor|]. cbn. by constructor.
  - cbn [list_ascii_of_string]. by constructor.
Qed.

Lemma head_kept_lstrip s : head_kept (lstrip s).
Proof.
  induction s as [|c s IH]; [done|]. cbn [lstrip].
  destruct (is_space c) eqn:E; [done|exact E].
Qed.

Lemma lstrip_head_kept s : head_kept s → lstrip s = s.
Proof. destruct s as [|c s]; [done|]. cbn. by intros ->. Qed.

Lemma head_kept_rstrip s : head_kept s → head_kept (rstrip s).
Proof.
  destruct s as [|c s]; [done|]. cbn [head_kept rstrip]. intros H.
  destruct (rstrip s); [by rewrite H|done].
Qed.

Lemma rstrip_rstrip s : rstrip (rstrip s) = rstrip s.
Proof.
  induction s as [|c s IH]; [done|]. cbn [rstrip].
  destruct (rstrip s) as [|c' r] eqn:E.
  - destruct (is_space c) eqn:Ec; [done|]. cbn [rstrip]. by rewrite Ec.
  - cbn [rstrip]. change (match rstrip (String c' r) with
                          | EmptyString => if is_space c then EmptyString else String c EmptyString
                          | String a s0 => String c (String a s0)
                          end = String c (String c' r)).
    by rewrite IH.
Qed.

Lemma strip_strip s : strip (strip s) = strip s.
Proof.
  unfold strip.
  rewrite (lstrip_head_kept (rstrip (lstrip s))).
  - apply rstrip_rstrip.
  - apply head_kept_rstrip, head_kept_lstrip.
Qed.

Lemma sanitize_chars s : Forall clean (list_ascii_of_string (sanitize_file_name s)).
Proof.
  unfold sanitize_file_name, sanitize_file_name_with, strip.
  apply Forall_rstrip, Forall_lstrip, Forall_sub_space, Forall_sub_invalid.
Qed.

Lemma sub_invalid_clean s :
  Forall clean (list_ascii_of_string s) → sub_invalid "_" s = s.
Proof.
  induction s as [|c s IH]; [done|]. cbn [list_ascii_of_string sub_invalid].
  intros [[Hc _] Hs]%Forall_cons. by rewrite Hc, IH.
Qed.

Lemma sub_space_clean s :
  Forall clean (list_ascii_of_string s) → sub_space s = s.
Proof.
  induction s as [|c s IH]; [done|]. cbn [list_ascii_of_string sub_space].
  intros [[_ Hc] Hs]%Forall_cons. rewrite IH by done.
  destruct (is_space c); [by rewrite Hc|done].
Qed.

(** X4. Whatever the name, the result of [sanitize_file_name] holds no
    character of the invalid class (so no path separator), no white space
    other than the space, and neither starts nor ends with white space:
    stripping it again changes nothing. *)
Theorem sanitize_file_name_clean (name : string) :
  Forall (fun c => is_invalid c = false ∧ (is_space c = true → c = space))
         (list_ascii_of_string (sanitize_file_name name)) ∧
  lstrip (sanitize_file_name name) = sanitize_file_name name ∧
  rstrip (sanitize_file_name name) = sanitize_file_name name.
Proof.
  split; [apply sanitize_chars|].
  unfold sanitize_file_name, sanitize_file_name_with, strip. split.
  - apply lstrip_head_kept, head_kept_rstrip, head_kept_lstrip.
  - apply rstrip_rstrip.
Qed.

(** X5. [sanitize_file_name] is idempotent: a name that has been sanitized
    is returned as it is. *)
Theorem sanitize_file_name_idempotent (name : string) :
  sanitize_file_name (sanitize_file_name name) = sanitize_file_name name.
Proof.
  pose proof (sanitize_chars name) as H.
  unfold sanitize_file_name at 1. unfold sanitize_file_name_with.
  rewrite (sub_invalid_clean _ H), (sub_space_clean _ H).
  unfold sanitize_file_name, sanitize_file_name_with. apply strip_strip.
Qed.

End SanitizeFacts.

(** ** Library: the shape and the length of the derived names *)
Section LibraryNames.
Import Library Frame Sanitize Shape.
Local Open Scope lib_scope.
Implicit Types (w : World) (s : string) (c : ascii).

Lemma digits_of_uint d :
  Forall (fun c => CoverThread.is_digit c = true)
         (list_ascii_of_string (NilEmpty.string_of_uint d)).
Proof. induction d; cbn [NilEmpty.string_of_uint list_ascii_of_string]; by constructor. Qed.

Lemma digits_of_nat n :
  Forall (fun c => CoverThread.is_digit c = true) (list_ascii_of_string (PyStr.of_nat n)).
Proof. apply digits_of_uint. Qed.

Lemma no_slash_component limit s :
  Forall (fun c => c ≠ PyStr.slash)
         (list_ascii_of_string (sanitize_file_name (PyStr.take limit s))).
Proof.
  eapply Forall_impl; [apply sanitize_chars|]. intros c H. by apply clean_not_slash.
Qed.

Lemma no_slash_suffix id :
  Forall (fun c => c ≠ PyStr.slash)
         (list_ascii_of_string (" (" +:+ PyStr.of_nat id +:+ ")")).
Proof.
  change (" (" +:+ PyStr.of_nat id +:+ ")")
    with (String " " (String "(" (PyStr.of_nat id +:+ ")"))).
  cbn [list_ascii_of_string]. constructor; [done|]. constructor; [done|].
  rewrite chars_append. apply Forall_app. split.
  - eapply Forall_impl; [apply digits_of_nat|]. by intros c H ->.
  - by constructor.
Qed.

(** X6. When [construct_path_name] returns a path, the path has exactly two
    components: the author component, and the title component followed by
    the id in parentheses.  Neither the author nor the title component is
    longer than [PATH_LIMIT], so the whole path has at most
    [2 * PATH_LIMIT + 4] characters plus the digits of the id. *)
Theorem construct_path_name_shape (w w' : World) (id : nat) (p : string) :
  construct_path_name id w = (Ok p, w') →
  ∃ a t,
    PyStr.split PyStr.slash p = [a; t +:+ " (" +:+ PyStr.of_nat id +:+ ")"] ∧
    String.length a ≤ PATH_LIMIT w ∧ String.length t ≤ PATH_LIMIT w ∧
    String.length p ≤ 2 * PATH_LIMIT w + 4 + String.length (PyStr.of_nat id).
Proof.
  rewrite construct_path_name_run. destruct (select_book (db w) id) as [b|]; [|done].
  intros H. injection H as <- _.
  set (a := author_component (PATH_LIMIT w) (book_authors b)).
  set (t := title_component (PATH_LIMIT w) (book_title b)).
  assert (Ha : String.length a ≤ PATH_LIMIT w).
  { subst a. unfold author_component. etrans; [apply length_sanitize|apply length_take]. }
  assert (Ht : String.length t ≤ PATH_LIMIT w).
  { subst t. unfold title_component. etrans; [apply length_sanitize|apply length_take]. }
  exists a, t. split; [|split; [done|split; [done|]]].
  - change (a +:+ "/" +:+ t +:+ " (" +:+ PyStr.of_nat id +:+ ")")
      with (a +:+ String PyStr.slash (t +:+ " (" +:+ PyStr.of_nat id +:+ ")")).
    rewrite split_app.
    + f_equal. apply split_whole. rewrite chars_append. apply Forall_app. split.
      * apply no_slash_component.
      * apply no_slash_suffix.
    + apply split_whole. subst a. unfold author_component. apply no_slash_component.
  - rewrite !length_append. cbn [String.length]. lia.
Qed.

(** X6 on the example library. *)
Lemma construct_path_name_shape_witness :
  ∃ a t,
    PyStr.split PyStr.slash "Jane Austen/Emma (1)" = [a; t +:+ " (" +:+ PyStr.of_nat 1 +:+ ")"] ∧
    String.length a ≤ 100 ∧ String.length t ≤ 100 ∧
    String.length "Jane Austen/Emma (1)" ≤ 2 * 100 + 4 + String.length (PyStr.of_nat 1).
Proof.
  exact (construct_path_name_shape Examples.w_emma Examples.w_emma 1
           "Jane Austen/Emma (1)" eq_refl).
Defined.

(** X7. When [construct_file_name] returns a name, the name holds no path
    separator, so that it is a single path component, and it has at most
    [2 * PATH_LIMIT + 3] characters. *)
Theorem construct_file_name_shape (w w' : World) (id : nat) (name : string) :
  construct_file_name id w = (Ok name, w') →
  PyStr.split PyStr.slash name = [name] ∧
  String.length name ≤ 2 * PATH_LIMIT w + 3.
Proof.
  rewrite construct_file_name_run. destruct (select_book (db w) id) as [b|]; [|done].
  intros H. injection H as <- _. split.
  - apply split_whole. rewrite !chars_append. apply Forall_app. split.
    + unfold title_component. apply no_slash_component.
    + apply Forall_app. split; [by repeat constructor|].
      unfold author_component. apply no_slash_component.
  - rewrite !length_append. cbn [String.length].
    assert (String.length (author_component (PATH_LIMIT w) (book_authors b)) ≤ PATH_LIMIT w).
    { unfold author_component. etrans; [apply length_sanitize|apply length_take]. }
    assert (String.length (title_component (PATH_LIMIT w) (book_title b)) ≤ PATH_LIMIT w).
    { unfold title_component. etrans; [apply length_sanitize|apply length_take]. }
    lia.
Qed.

(** X7 on the example library. *)
Lemma construct_file_name_shape_witness :
  PyStr.split PyStr.slash "Emma - Jane Austen" = ["Emma - Jane Austen"] ∧
  String.length "Emma - Jane Austen" ≤ 2 * 100 + 3.
Proof.
  exact (construct_file_name_shape Examples.w_emma Examples.w_emma 1
           "Emma - Jane Austen" eq_refl).
Defined.

End LibraryNames.

(** ** Concatenate *)
Section ConcatenateFacts.
Import Concatenate.
Implicit Types (c : t) (s sep : string) (values : list (option string)).

(** What the steps append to [ans]: every value followed by the separator. *)
Lemma steps_run values c :
  fold_left (fun c v => step v c) values c
  = mk (Concatenate.sep c)
       (ans c +:+ foldr (fun v acc => v +:+ Concatenate.sep c +:+ acc) "" (omap id values)).
Proof.
  revert c. induction values as [|[v|] values IH]; intros c; cbn [fold_left omap foldr].
  - rewrite append_nil_r. by destruct c.
  - rewrite IH. cbn [step Concatenate.sep ans id]. f_equal.
    by rewrite !append_assoc.
  - by rewrite IH.
Qed.

Lemma joined_then_sep sep (vs : list string) :
  vs ≠ [] →
  foldr (fun v acc => v +:+ sep +:+ acc) "" vs = PyStr.join sep vs +:+ sep.
Proof.
  induction vs as [|v vs IH]; [done|]. intros _. cbn [foldr].
  destruct vs as [|v' vs].
  - cbn [foldr PyStr.join]. by rewrite append_nil_r.
  - rewrite IH by done.
    change (PyStr.join sep (v :: v' :: vs)) with (v +:+ sep +:+ PyStr.join sep (v' :: vs)).
    by rewrite !append_assoc.
Qed.

Lemma truthy_append_r s sep : PyStr.truthy sep = true → PyStr.truthy (s +:+ sep) = true.
Proof. destruct s; [done|]. by rewrite append_cons. Qed.

Lemma drop_last_append s sep : drop_last (String.length sep) (s +:+ sep) = s.
Proof.
  unfold drop_last. rewrite length_append.
  replace (String.length s + String.length sep - String.length sep) with (String.length s)
    by lia.
  apply take_append.
Qed.

(** X8. With a separator that is not empty, the [concat] aggregate returns
    [None] (SQL [NULL]) when the group holds no value other than [NULL],
    and otherwise the values that are not [NULL], in order, joined by the
    separator: the separator that [step] puts after the last value is cut
    off again. *)
Theorem concat_joins (sep : string) (values : list (option string)) :
  PyStr.truthy sep = true →
  concat sep values
  = match omap id values with
    | [] => None
    | vs => Some (PyStr.join sep vs)
    end.
Proof.
  intros Hsep. unfold concat. rewrite steps_run. cbn [init Concatenate.sep ans].
  change ("" +:+ ?x) with x.
  destruct (omap id values) as [|v vs] eqn:E; [done|].
  rewrite joined_then_sep by done.
  unfold finalize. cbn [ans Concatenate.sep].
  rewrite truthy_append_r by done. cbn [negb]. rewrite Hsep.
  by rewrite drop_last_append.
Qed.

(** X8 for the authors of a book, one of them [NULL]. *)
Lemma concat_joins_witness :
  concat "," [Some "Jane Doe"; None; Some "John Roe"] = Some "Jane Doe,John Roe".
Proof. exact (concat_joins "," [Some "Jane Doe"; None; Some "John Roe"] eq_refl). Defined.

End ConcatenateFacts.

(** ** title_sort *)
Section TitleSortFacts.
Import TitleSort.
Implicit Types (s t lit prep rest : string) (c : ascii).

Lemma uspace_not_letter c :
  is_uspace c = true → lower_char c = c ∧ PyStr.is_lower c = false.
Proof. destruct c as [[] [] [] [] [] [] [] []]; intros H; try done. Qed.

(** What a literal has matched is as long as the literal, is followed by
    the rest, and agrees with the literal up to case. *)
Lemma match_literal_inv lit s r :
  match_literal lit s = Some r →
  s = PyStr.take (String.length lit) s +:+ r ∧
  String.length (PyStr.take (String.length lit) s) = String.length lit ∧
  (Forall (fun a => PyStr.is_lower (lower_char a) = true) (list_ascii_of_string lit) →
   Forall (fun c => is_uspace c = false)
          (list_ascii_of_string (PyStr.take (String.length lit) s))).
Proof.
  revert s. induction lit as [|a lit IH]; intros s H.
  - cbn in H. injection H as ->. destruct r; cbn; by repeat split.
  - destruct s as [|c s]; [done|]. cbn [match_literal] in H.
    destruct (Ascii.eqb (lower_char a) (lower_char c)) eqn:E; [|done].
    apply Ascii.eqb_eq in E. destruct (IH s H) as (H1 & H2 & H3).
    cbn [String.length PyStr.take]. rewrite append_cons, <- H1, H2.
    split; [done|]. split; [done|].
    cbn [list_ascii_of_string]. intros [Ha Hl]%Forall_cons. constructor; [|by apply H3].
    destruct (is_uspace c) eqn:Ec; [|done].
    apply uspace_not_letter in Ec as [Hc1 Hc2]. congruence.
Qed.

Lemma alternative_inv lit s :
  alternative lit s = true →
  Forall (fun a => PyStr.is_lower (lower_char a) = true) (list_ascii_of_string lit) →
  ∃ r, s = PyStr.take (String.length lit) s +:+ r ∧
       String.length (PyStr.take (String.length lit) s) = String.length lit ∧
       Forall (fun c => is_uspace c = false)
              (list_ascii_of_string (PyStr.take (String.length lit) s)).
Proof.
  unfold alternative. destruct (match_literal lit s) as [r|] eqn:E; [|done].
  intros _ Hl. apply match_literal_inv in E as (H1 & H2 & H3). exists r. auto.
Qed.

(** The article that [title_pat] finds is not empty and holds no white space. *)
Lemma title_pat_inv s prep :
  title_pat s = Some prep →
  prep ≠ "" ∧ Forall (fun c => is_uspace c = false) (list_ascii_of_string prep).
Proof.
  unfold title_pat. intros H.
  assert (Hgen : ∀ lit, alternative lit s = true →
                   Forall (fun a => PyStr.is_lower (lower_char a) = true)
                          (list_ascii_of_string lit) →
                   0 < String.length lit →
                   PyStr.take (String.length lit) s ≠ "" ∧
                   Forall (fun c => is_uspace c = false)
                          (list_ascii_of_string (PyStr.take (String.length lit) s))).
  { intros lit Ha Hl Hpos. destruct (alternative_inv lit s Ha Hl) as (r & _ & H2 & H3).
    split; [|done]. intros E. rewrite E in H2. cbn in H2. lia. }
  destruct (alternative "A" s) eqn:E1.
  { injection H as <-. apply (Hgen "A" E1); [by repeat constructor|cbn; lia]. }
  destruct (alternative "The" s) eqn:E2.
  { injection H as <-. apply (Hgen "The" E2); [by repeat constructor|cbn; lia]. }
  destruct (alternative "An" s) eqn:E3; [|done].
  injection H as <-. apply (Hgen "An" E3); [by repeat constructor|cbn; lia].
Qed.

Lemma prefix_append s t : String.prefix s (s +:+ t) = true.
Proof.
  induction s as [|c s IH]; [by destruct t|]. rewrite append_cons. cbn [String.prefix].
  destruct (ascii_dec c c); [done|done].
Qed.

Lemma replace_from_skip s old new rest :
  replace_from (String.length s) old new (s +:+ rest) = replace_from 0 old new rest.
Proof.
  induction s as [|c s IH]; [done|]. rewrite append_cons.
  cbn [String.length replace_from]. exact IH.
Qed.

Lemma replace_from_0 old new c s :
  replace_from 0 old new (String c s)
  = if String.prefix old (String c s)
    then new +:+ replace_from (String.length old - 1) old new s
    else String c (replace_from 0 old new s).
Proof. reflexivity. Qed.

(** The occurrence at the start is replaced first, and the scan goes on
    behind it. *)
Lemma replace_leading prep new rest :
  prep ≠ "" → replace prep new (prep +:+ rest) = new +:+ replace prep new rest.
Proof.
  destruct prep as [|p prep]; [done|]. intros _. unfold replace.
  rewrite append_cons, replace_from_0, <- append_cons, prefix_append.
  replace (String.length (String p prep) - 1) with (String.length prep)
    by (cbn [String.length]; lia).
  by rewrite replace_from_skip.
Qed.

Lemma lstrip_append s t :
  match t with String c _ => is_uspace c = false | EmptyString => False end →
  lstrip (s +:+ t) = lstrip s +:+ t.
Proof.
  intros Ht. induction s as [|c s IH].
  - destruct t as [|c t]; [done|]. change ("" +:+ String c t) with (String c t).
    cbn [lstrip]. by rewrite Ht.
  - rewrite append_cons. cbn [lstrip]. destruct (is_uspace c); [done|].
    by rewrite append_cons.
Qed.

Lemma rstrip_fixed s :
  Forall (fun c => is_uspace c = false) (list_ascii_of_string s) → rstrip s = s.
Proof.
  induction s as [|c s IH]; [done|]. cbn [list_ascii_of_string rstrip].
  intros [Hc Hs]%Forall_cons. rewrite IH by done. destruct s; [by rewrite Hc|done].
Qed.

Lemma rstrip_append s t : t ≠ "" → rstrip t = t → rstrip (s +:+ t) = s +:+ t.
Proof.
  intros Hne Ht. induction s as [|c s IH]; [done|]. rewrite append_cons.
  cbn [rstrip]. rewrite IH. destruct (s +:+ t) eqn:E; [|done].
  destruct s; [|done]. by destruct t.
Qed.

(** X9. For a title that starts with an article ([A], [The] or [An] in any
    case, followed by white space), [title_sort] moves the article behind
    the title, after a comma.  Before that it deletes the text of the
    article wherever else it occurs in the title, not only at the start. *)
Theorem title_sort_moves_article (prep rest : string) :
  title_pat (prep +:+ rest) = Some prep →
  title_sort (prep +:+ rest) = lstrip (replace prep "" rest) +:+ ", " +:+ prep.
Proof.
  intros H. unfold title_sort. rewrite H.
  apply title_pat_inv in H as [Hne Hchars].
  rewrite replace_leading by done. change ("" +:+ ?x) with x.
  unfold strip. rewrite lstrip_append by done.
  apply rstrip_append.
  - by destruct prep.
  - change (", " +:+ prep) with (String "," (String " " prep)).
    apply (rstrip_append ", " prep); [done|]. by apply rstrip_fixed.
Qed.

(** X9 for a title in which the text of the article comes back. *)
Lemma title_sort_moves_article_witness :
  title_sort "The Theory of Everything" = "ory of Everything, The".
Proof. exact (title_sort_moves_article "The" " Theory of Everything" eq_refl). Defined.

End TitleSortFacts.

(** ** CoverCache: the id a cover directory carries *)
Section CoverDirectory.
Import CoverThread.
Implicit Types (s t u : string) (c ch : ascii).

Lemma rindex_absent ch s :
  Forall (fun c => c ≠ ch) (list_ascii_of_string s) → rindex ch s = None.
Proof.
  induction s as [|c s IH]; [done|]. cbn [list_ascii_of_string rindex].
  intros [Hc Hs]%Forall_cons. rewrite IH by done.
  destruct (Ascii.eqb c ch) eqn:E; [by apply Ascii.eqb_eq in E|done].
Qed.

Lemma rindex_last ch s t :
  Forall (fun c => c ≠ ch) (list_ascii_of_string t) →
  rindex ch (s +:+ String ch t) = Some (String.length s).
Proof.
  intros Ht. induction s as [|c s IH].
  - change ("" +:+ String ch t) with (String ch t). cbn [rindex].
    by rewrite rindex_absent, Ascii.eqb_refl.
  - rewrite append_cons. cbn [rindex String.length]. by rewrite IH.
Qed.

Lemma drop_append s t : drop (String.length s) (s +:+ t) = t.
Proof.
  induction s as [|c s IH]; [by destruct t|]. rewrite append_cons.
  cbn [String.length drop]. exact IH.
Qed.

Lemma span_digits_run s c t :
  Forall (fun c => is_digit c = true) (list_ascii_of_string s) → is_digit c = false →
  span_digits (s +:+ String c t) = (s, String c t).
Proof.
  intros Hs Hc. induction s as [|d s IH].
  - change ("" +:+ String c t) with (String c t). cbn [span_digits]. by rewrite Hc.
  - rewrite append_cons. cbn [list_ascii_of_string] in Hs.
    apply Forall_cons in Hs as [Hd Hs]. cbn [span_digits]. by rewrite Hd, IH.
Qed.

Lemma of_nat_not_empty n : PyStr.of_nat n ≠ "".
Proof.
  unfold PyStr.of_nat. intros H.
  assert (Hn : Nat.to_uint n = Decimal.Nil).
  { destruct (Nat.to_uint n); try done. }
  pose proof (DecimalNat.Unsigned.of_to n) as Hof. rewrite Hn in Hof.
  cbn in Hof. subst n. done.
Qed.

Lemma int_of_nat n : int (PyStr.of_nat n) = Some n.
Proof.
  unfold int, PyStr.of_nat. rewrite NilEmpty.usu. cbn [option_map].
  by rewrite DecimalNat.Unsigned.of_to.
Qed.

Lemma match_here_group ds :
  ds ≠ "" → Forall (fun c => is_digit c = true) (list_ascii_of_string ds) →
  match_here (String lparen (ds +:+ String rparen "")) = Some ds.
Proof.
  intros Hne Hd. unfold match_here. rewrite Ascii.eqb_refl.
  rewrite span_digits_run by done. destruct ds as [|d ds]; [done|].
  by rewrite Ascii.eqb_refl.
Qed.

Lemma search_here s g : match_here s = Some g → search s = Some g.
Proof. intros H. destruct s; cbn [search]; by rewrite H. Qed.

(** The id in parentheses at the end of a directory name is read back,
    whatever the name holds before it. *)
Lemma parse_id_suffix t id :
  parse_id (t +:+ " (" +:+ PyStr.of_nat id +:+ ")") = Some id.
Proof.
  unfold parse_id.
  assert (Hd : Forall (fun c => c ≠ lparen)
                 (list_ascii_of_string (PyStr.of_nat id +:+ ")"))).
  { rewrite chars_append. apply Forall_app. split.
    - eapply Forall_impl; [apply digits_of_nat|]. by intros c H ->.
    - by repeat constructor. }
  replace (t +:+ " (" +:+ PyStr.of_nat id +:+ ")")
    with ((t +:+ " ") +:+ String lparen (PyStr.of_nat id +:+ ")"))
    by (by rewrite append_assoc).
  rewrite rindex_last by done. rewrite drop_append.
  destruct (PyStr.of_nat id) as [|d ds] eqn:E; [by apply of_nat_not_empty in E|].
  rewrite (search_here _ (String d ds)).
  - rewrite <- E. apply int_of_nat.
  - apply (match_here_group (String d ds)); [done|]. rewrite <- E. apply digits_of_nat.
Qed.

Lemma split_append sep s t :
  PyStr.split sep (s +:+ String sep t) = PyStr.split sep s ++ PyStr.split sep t.
Proof.
  induction s as [|c s IH].
  - change ("" +:+ String sep t) with (String sep t). cbn [PyStr.split].
    by rewrite Ascii.eqb_refl.
  - rewrite append_cons. cbn [PyStr.split]. rewrite IH.
    destruct (Ascii.eqb c sep); [done|].
    destruct (PyStr.split sep s) as [|w ws] eqn:E; [by apply split_nonempty in E|done].
Qed.

Lemma basename_append s t :
  Forall (fun c => c ≠ PyStr.slash) (list_ascii_of_string t) →
  basename (s +:+ String PyStr.slash t) = t.
Proof.
  intros Ht. unfold basename. rewrite split_append, (split_whole _ t Ht).
  by rewrite last_snoc.
Qed.

Lemma drop_while_app (f : ascii → bool) (l k : list ascii) :
  Forall (fun c => f c = true) l → Os.drop_while f (l ++ k) = Os.drop_while f k.
Proof.
  induction l as [|c l IH]; [done|]. intros [Hc Hl]%Forall_cons.
  cbn [app Os.drop_while]. rewrite Hc. by apply IH.
Qed.

(** The directory of a file: what precedes the last slash, when that does
    not end with a slash itself. *)
Lemma dirname_append s c t :
  Forall (fun c => c ≠ PyStr.slash) (list_ascii_of_string t) →
  c ≠ PyStr.slash →
  Os.dirname ((s +:+ String c "") +:+ String PyStr.slash t) = s +:+ String c "".
Proof.
  intros Ht Hc. unfold Os.dirname, Os.chars, Os.text.
  assert (Hcs : Os.is_slash c = false).
  { unfold Os.is_slash. destruct (Ascii.eqb c PyStr.slash) eqn:E; [|done].
    by apply Ascii.eqb_eq in E. }
  rewrite !chars_append. cbn [list_ascii_of_string].
  rewrite !rev_app_distr. cbn [rev app].
  rewrite <- app_assoc. cbn [app].
  rewrite drop_while_app.
  2:{ apply Forall_rev. eapply Forall_impl; [exact Ht|]. intros a Ha. cbv beta.
      unfold Os.is_slash. destruct (Ascii.eqb a PyStr.slash) eqn:E; [|done].
      by apply Ascii.eqb_eq in E. }
  cbn [Os.drop_while]. change (Os.is_slash PyStr.slash) with true. cbn [negb].
  cbn [rev]. rewrite !rev_app_distr, !rev_involutive. cbn [rev app].
  rewrite <- !app_assoc. cbn [app].
  assert (Hall : forallb Os.is_slash (list_ascii_of_string s ++ [c; PyStr.slash]) = false).
  { rewrite forallb_app. cbn [forallb]. rewrite Hcs. by rewrite andb_false_r. }
  rewrite Hall. cbn [Os.drop_while].
  change (Os.is_slash PyStr.slash) with true. cbn iota. rewrite Hcs.
  cbn [rev]. rewrite rev_involutive.
  rewrite <- (string_of_list_ascii_of_string (s +:+ String c "")).
  by rewrite chars_append.
Qed.

(** X10. The id that [construct_path_name] writes in parentheses behind the
    title is the one [build_id_map] reads back from the path of the cover
    file: for a title component without a slash, whatever else it holds
    (parentheses and digits included) and whatever the directories above,
    the directory name of [.../title (id)/cover.jpg] parses to [id]. *)
Theorem cover_path_carries_id (dir t : string) (id : nat) :
  Forall (fun c => c ≠ PyStr.slash) (list_ascii_of_string t) →
  parse_id (basename (Os.dirname
    (dir +:+ "/" +:+ t +:+ " (" +:+ PyStr.of_nat id +:+ ")" +:+ "/cover.jpg")))
  = Some id.
Proof.
  intros Ht.
  replace (dir +:+ "/" +:+ t +:+ " (" +:+ PyStr.of_nat id +:+ ")" +:+ "/cover.jpg")
    with (((dir +:+ "/" +:+ t +:+ " (" +:+ PyStr.of_nat id) +:+ String rparen "")
          +:+ String PyStr.slash "cover.jpg")
    by (by rewrite !append_assoc).
  rewrite dirname_append; [|by repeat constructor|done].
  replace ((dir +:+ "/" +:+ t +:+ " (" +:+ PyStr.of_nat id) +:+ String rparen "")
    with (dir +:+ String PyStr.slash (t +:+ " (" +:+ PyStr.of_nat id +:+ ")"))
    by (by rewrite !append_assoc).
  rewrite basename_append.
  - apply parse_id_suffix.
  - rewrite chars_append. apply Forall_app. split; [done|apply no_slash_suffix].
Qed.

(** X10 for a title that holds a number in parentheses of its own. *)
Lemma cover_path_carries_id_witness :
  parse_id (basename (Os.dirname "/library/Jane Austen/Emma (1815) (7)/cover.jpg"))
  = Some 7.
Proof.
  exact (cover_path_carries_id "/library/Jane Austen" "Emma (1815)" 7
           ltac:(repeat constructor; done)).
Defined.

Lemma scan_last_wins (found : list string) (id : nat) :
  scan found !! id
  = last (List.filter
            (fun f => bool_decide (parse_id (basename (Os.dirname f)) = Some id)) found).
Proof.
  unfold scan. induction found as [|f found IH] using rev_ind; [done|].
  rewrite fold_left_app, List.filter_app. cbn [fold_left List.filter].
  destruct (parse_id (basename (Os.dirname f))) as [id'|] eqn:E.
  - destruct (decide (id' = id)) as [->|Hne].
    + rewrite lookup_insert_eq, bool_decide_eq_true_2 by done. by rewrite last_snoc.
    + rewrite lookup_insert_ne by done. rewrite bool_decide_eq_false_2 by congruence.
      by rewrite app_nil_r.
  - rewrite bool_decide_eq_false_2 by done. by rewrite app_nil_r.
Qed.

End CoverDirectory.

(** ** CoverCache: the worker, and the calls that feed it *)
Section CoverWorker.
Import CoverCache CoverThread.
Context {Image : Type}.
Variable found : list string.
Variable readable : string → bool.
Variable decode : string → option Image.
Implicit Types (c : CoverCache.t Image) (m : gmap nat string) (ids : list nat) (k id : nat).

(** X11. [build_id_map] replaces the id map and clears the stale flag, and
    touches nothing else.  The new map sends an id to the last cover file
    found whose directory name carries that id; an id that no directory
    name carries has no entry, and a file whose directory name carries no
    id is passed over. *)
Theorem build_id_map_entries c id :
  ∃ m, id_map (build_id_map found c) = Some m ∧
       m !! id = last (List.filter
                         (fun f => bool_decide
                                     (parse_id (basename (Os.dirname f)) = Some id))
                         found) ∧
       id_map_stale (build_id_map found c) = false ∧
       cache (build_id_map found c) = cache c ∧
       load_queue (build_id_map found c) = load_queue c ∧
       keep_running (build_id_map found c) = keep_running c.
Proof. exists (scan found). split; [done|]. split; [apply scan_last_wins|done]. Qed.

Lemma fresh_image_absent m id :
  m !! id = None → fresh_image readable decode m id = None.
Proof. unfold fresh_image. by intros ->. Qed.

(** What loading one id does to the cache. *)
Lemma load_run id c m :
  id_map c = Some m →
  load_queue (load readable decode id c) = load_queue c ∧
  id_map (load readable decode id c) = Some m ∧
  keep_running (load readable decode id c) = keep_running c ∧
  ∀ k, cache (load readable decode id c) !! k
       = match cache c !! k with
         | Some img => Some img
         | None => if bool_decide (k = id)
                   then fresh_image readable decode m k else None
         end.
Proof.
  intros Hm. unfold load, fresh_image. rewrite Hm.
  change (default ∅ (Some m)) with m.
  destruct (cache c !! id) as [img|] eqn:Ec.
  { rewrite bool_decide_eq_true_2 by (by exists img). repeat split; try done.
    intros k. destruct (cache c !! k) eqn:Ek; [done|].
    rewrite bool_decide_eq_false_2; [done|]. intros ->. congruence. }
  rewrite bool_decide_eq_false_2 by apply is_Some_None.
  assert (Hsame : ∀ k, (m !! id ≫= λ p, if PyStr.truthy p && readable p
                                        then decode p else None) = None →
            cache c !! k
            = match cache c !! k with
              | Some img => Some img
              | None => if bool_decide (k = id)
                        then match m !! k with
                             | Some path => if PyStr.truthy path && readable path
                                            then decode path else None
                             | None => None
                             end
                        else None
              end).
  { intros k H. destruct (cache c !! k) eqn:Ek; [done|].
    destruct (bool_decide (k = id)) eqn:Ekid; [|done].
    apply bool_decide_eq_true_1 in Ekid as ->. destruct (m !! id); [exact (eq_sym H)|done]. }
  destruct (m !! id) as [path|] eqn:Em; cbn [cache load_queue id_map keep_running].
  2:{ repeat split; try done. intros k. apply Hsame. done. }
  destruct (PyStr.truthy path && readable path) eqn:Er.
  2:{ repeat split; try done. intros k. apply Hsame. cbn. by rewrite Er. }
  destruct (decode path) as [img|] eqn:Ed.
  2:{ repeat split; try done. intros k. apply Hsame. cbn. by rewrite Er. }
  cbn [cache load_queue id_map keep_running]. repeat split; try done.
  intros k. destruct (decide (k = id)) as [->|Hne].
  - rewrite lookup_insert_eq, Ec, bool_decide_eq_true_2 by done. by rewrite Em, Er.
  - rewrite lookup_insert_ne by done. destruct (cache c !! k); [done|].
    by rewrite bool_decide_eq_false_2.
Qed.

(** The inner loop, for a queue it has turns enough to empty. *)
Lemma load_images_run n c m :
  length (load_queue c) ≤ n → id_map c = Some m →
  load_queue (load_images readable decode n c) = [] ∧
  id_map (load_images readable decode n c) = Some m ∧
  keep_running (load_images readable decode n c) = keep_running c ∧
  ∀ k, cache (load_images readable decode n c) !! k
       = match cache c !! k with
         | Some img => Some img
         | None => if bool_decide (k ∈ load_queue c)
                   then fresh_image readable decode m k else None
         end.
Proof.
  revert c. induction n as [|n IH]; intros c Hlen Hm.
  - destruct (load_queue c) as [|id rest] eqn:E; [|cbn in Hlen; lia].
    cbn [load_images]. rewrite E. repeat split; try done.
    intros k. by destruct (cache c !! k).
  - cbn [load_images]. unfold popleft.
    destruct (load_queue c) as [|id rest] eqn:E.
    { rewrite E. repeat split; try done. intros k. by destruct (cache c !! k). }
    set (c1 := {| library_path := library_path c; id_map := id_map c; load_queue := rest;
                  cache := cache c; id_map_stale := id_map_stale c;
                  keep_running := keep_running c |}).
    destruct (load_run id c1 m Hm) as (L1 & L2 & L3 & L4).
    destruct (IH (load readable decode id c1)) as (H1 & H2 & H3 & H4);
      [rewrite L1; cbn in Hlen |- *; lia|done|].
    split; [done|]. split; [done|]. split; [by rewrite H3, L3|].
    intros k. rewrite H4, L4, L1. cbn [cache load_queue c1].
    destruct (cache c !! k) as [img|] eqn:Ek; [done|].
    destruct (decide (k = id)) as [->|Hne].
    + rewrite (bool_decide_eq_true_2 (id = id)) by done.
      rewrite (bool_decide_eq_true_2 (id ∈ id :: rest)) by (apply elem_of_cons; by left).
      destruct (fresh_image readable decode m id); [done|].
      by destruct (bool_decide _).
    + rewrite (bool_decide_eq_false_2 (k = id)) by done.
      apply (f_equal (fun b : bool => if b then _ else _)).
      apply bool_decide_ext. rewrite elem_of_cons. tauto.
Qed.

Lemma map_in_use_built c :
  id_map (if bool_decide (id_map c = None) || id_map_stale c
          then build_id_map found c else c) = Some (map_in_use found c).
Proof.
  unfold map_in_use. destruct (id_map c) as [m|] eqn:E.
  - rewrite bool_decide_eq_false_2 by done. cbn [orb].
    destruct (id_map_stale c); [done|exact E].
  - by rewrite bool_decide_eq_true_2.
Qed.

(** X12. One turn of the worker empties the load queue.  It never replaces
    or drops an image that is in the cache: an id that had an image keeps
    it.  An id without image gets one only if it was queued, and then the
    image is what decoding the file of its map entry gives; it stays
    without image when the map has no entry for it, or the file cannot be
    read or decoded.  The map is the stored one, or a fresh one when there
    was none or it was stale. *)
Theorem run_turn_loads c k :
  load_queue (run_turn found readable decode c) = [] ∧
  cache (run_turn found readable decode c) !! k
  = match cache c !! k with
    | Some img => Some img
    | None => if bool_decide (k ∈ load_queue c)
              then fresh_image readable decode (map_in_use found c) k else None
    end.
Proof.
  unfold run_turn.
  set (c1 := if bool_decide (id_map c = None) || id_map_stale c
             then build_id_map found c else c).
  assert (Hc1 : cache c1 = cache c ∧ load_queue c1 = load_queue c).
  { subst c1. by destruct (bool_decide _ || _). }
  destruct Hc1 as [Hc Hq].
  destruct (load_images_run (length (load_queue c1)) c1 (map_in_use found c))
    as (H1 & _ & _ & H4); [done|apply map_in_use_built|].
  split; [done|]. by rewrite H4, Hc, Hq.
Qed.

(** What [set_cache] leaves in the cache and in the queue. *)
Lemma set_cache_run ids c :
  (∀ k, cache (set_cache ids c) !! k
        = if bool_decide (k ∈ ids) then cache c !! k else None) ∧
  (∀ k, k ∈ load_queue (set_cache ids c) ↔ k ∈ ids ∧ cache c !! k = None) ∧
  map_in_use found (set_cache ids c) = map_in_use found c.
Proof.
  unfold set_cache, map_in_use. cbn [cache load_queue id_map id_map_stale].
  pose proof (set_cache_loop ids (map_to_list (cache c)).*1 (cache c) ∅) as [H1 H2].
  assert (Hkeys : ∀ k, k ∈ (map_to_list (cache c)).*1 ↔ is_Some (cache c !! k)).
  { intros k. rewrite list_elem_of_fmap. split.
    - intros [[k' v] [-> Hkv]]. apply elem_of_map_to_list in Hkv. by exists v.
    - intros [v Hv]. exists (k, v). split; [done|]. by apply elem_of_map_to_list. }
  split; [|split; [|done]].
  - intros k. rewrite H1. destruct (decide (k ∈ ids)) as [Hin|Hout].
    + rewrite (bool_decide_eq_true_2 (k ∈ ids)) by done.
      rewrite bool_decide_eq_false_2; [done|tauto].
    + rewrite (bool_decide_eq_false_2 (k ∈ ids)) by done.
      destruct (cache c !! k) as [v|] eqn:E.
      * rewrite bool_decide_eq_true_2; [done|]. split; [|done]. apply Hkeys.
        rewrite E. by exists v.
      * by destruct (bool_decide _).
  - intros k. rewrite list_elem_of_In, filter_In, <- list_elem_of_In.
    rewrite negb_true_iff, bool_decide_eq_false, H2, Hkeys.
    split.
    + intros [Hin Hnot]. split; [done|].
      destruct (cache c !! k) as [v|] eqn:E; [|done].
      exfalso. apply Hnot. right. split; [|done]. by exists v.
    + intros [Hin Hnone]. split; [done|]. intros [H|[[v Hv] _]].
      * by apply not_elem_of_empty in H.
      * congruence.
Qed.

(** X13. After [set_cache ids] and one turn of the worker, [cover] (with the
    lock granted) returns an image for an id of [ids] and [None] for every
    other id.  For an id of [ids] it is the image the cache already held,
    or else what decoding the cover file of its map entry gives, [None]
    when that fails. *)
Theorem set_cache_then_turn c ids k :
  CoverThread.cover true k (run_turn found readable decode (set_cache ids c))
  = if bool_decide (k ∈ ids)
    then match cache c !! k with
         | Some img => Some img
         | None => fresh_image readable decode (map_in_use found c) k
         end
    else None.
Proof.
  unfold CoverThread.cover.
  destruct (run_turn_loads (set_cache ids c) k) as [_ ->].
  destruct (set_cache_run ids c) as (H1 & H2 & ->). rewrite H1.
  destruct (decide (k ∈ ids)) as [Hin|Hout].
  - rewrite (bool_decide_eq_true_2 (k ∈ ids)) by done.
    destruct (cache c !! k) as [img|] eqn:E; [done|].
    rewrite bool_decide_eq_true_2; [done|]. by apply H2.
  - rewrite (bool_decide_eq_false_2 (k ∈ ids)) by done.
    rewrite bool_decide_eq_false_2; [done|]. rewrite H2. tauto.
Qed.

(** What [refresh] leaves in the cache and in the queue. *)
Lemma refresh_run ids c :
  (∀ k, cache (CoverThread.refresh ids c) !! k
        = if bool_decide (k ∈ ids) then None else cache c !! k) ∧
  load_queue (CoverThread.refresh ids c) = rev ids ++ load_queue c ∧
  map_in_use found (CoverThread.refresh ids c) = map_in_use found c.
Proof.
  unfold CoverThread.refresh, map_in_use. cbn [cache load_queue id_map id_map_stale].
  split; [|split; [|done]].
  - generalize (cache c). induction ids as [|id ids IH]; intros m k; cbn [fold_left].
    + by rewrite bool_decide_eq_false_2 by apply not_elem_of_nil.
    + rewrite IH. destruct (decide (k ∈ ids)) as [Hin|Hout].
      * rewrite !bool_decide_eq_true_2; [done| |done]. apply elem_of_cons. by right.
      * rewrite (bool_decide_eq_false_2 (k ∈ ids)) by done.
        destruct (decide (k = id)) as [->|Hne].
        -- rewrite lookup_delete_eq, bool_decide_eq_true_2; [done|].
           apply elem_of_cons. by left.
        -- rewrite lookup_delete_ne by done. rewrite bool_decide_eq_false_2; [done|].
           rewrite elem_of_cons. tauto.
  - generalize (load_queue c). induction ids as [|id ids IH]; intros q; cbn [fold_left rev].
    + done.
    + rewrite IH, <- app_assoc. done.
Qed.

(** X14. [refresh ids] puts the ids in front of the load queue, the last
    one first, and drops their images, so that the next turn of the worker
    loads every one of them again: afterwards the cache holds for an id of
    [ids] what decoding its cover file gives now, whatever it held before,
    and nothing when that fails. *)
Theorem refresh_then_turn c ids k :
  k ∈ ids →
  load_queue (CoverThread.refresh ids c) = rev ids ++ load_queue c ∧
  cache (CoverThread.refresh ids c) !! k = None ∧
  cache (run_turn found readable decode (CoverThread.refresh ids c)) !! k
  = fresh_image readable decode (map_in_use found c) k.
Proof.
  intros Hin. destruct (refresh_run ids c) as (H1 & H2 & H3).
  split; [done|]. split; [by rewrite H1, bool_decide_eq_true_2|].
  destruct (run_turn_loads (CoverThread.refresh ids c) k) as [_ ->].
  rewrite H1, H2, H3, bool_decide_eq_true_2 by done.
  rewrite bool_decide_eq_true_2; [done|].
  apply elem_of_app. left. apply list_elem_of_In. apply -> in_rev.
  by apply list_elem_of_In.
Qed.

End CoverWorker.

(** X14 on a cache that holds an old image for id 5: after [refresh [5]]
    and a turn of the worker it holds the image decoded from the file. *)
Lemma refresh_then_turn_witness :
  CoverCache.cache
    (CoverThread.run_turn [] (fun _ => true) (fun _ => Some "new")
       (CoverThread.refresh [5] MoreExamples.old_cover)) !! 5
  = Some "new".
Proof.
  destruct (refresh_then_turn [] (fun _ => true) (fun _ => Some "new")
              MoreExamples.old_cover [5] 5 ltac:(by constructor)) as (_ & _ & H).
  rewrite H. reflexivity.
Defined.

(** ** ResultCache: locating and reading rows *)
Section ResultCacheRows.
Import ResultCache ResultRows Ref.
Implicit Types (c : t) (l : list pyval) (x v : pyval) (id i : nat).

Lemma list_index_spec x l :
  match list_index x l with
  | Ok i => l !! i = Some x ∧ ∀ j, j < i → l !! j ≠ Some x
  | Raise e => e = ValueError ∧ x ∉ l
  end.
Proof.
  induction l as [|y l IH]; cbn [list_index].
  - split; [done|]. apply not_elem_of_nil.
  - destruct (decide (x = y)) as [->|Hne].
    + split; [done|]. intros j Hj. lia.
    + destruct (list_index x l) as [i|e]; cbn [rbind].
      * destruct IH as [H1 H2]. split; [done|].
        intros [|j] Hj; cbn; [congruence|]. apply H2. lia.
      * destruct IH as [-> H]. split; [done|]. rewrite elem_of_cons. tauto.
Qed.

Lemma list_index_in x l : x ∈ l → ∃ i, list_index x l = Ok i ∧ l !! i = Some x.
Proof.
  intros Hin. pose proof (list_index_spec x l) as H.
  destruct (list_index x l) as [i|e]; [|by destruct H].
  exists i. by destruct H.
Qed.

Lemma list_index_absent x l : x ∉ l → list_index x l = Raise ValueError.
Proof.
  intros Hout. pose proof (list_index_spec x l) as H.
  destruct (list_index x l) as [i|e].
  - destruct H as [H _]. exfalso. apply Hout. by eapply list_elem_of_lookup_2.
  - by destruct H as [-> _].
Qed.

(** X15. [index] returns the first position of the id in the ordering it
    searches (all ids with [cache=True], the visible ids otherwise), and
    raises [ValueError] exactly when the id is not in that ordering, for
    instance when the current filter hides it. *)
Theorem index_first_position (id : nat) (cache : bool) (c : t) :
  match index id cache c with
  | Ok i =>
      (if cache then all_ids c else visible_ids c) !! i = Some (PInt id) ∧
      ∀ j, j < i → (if cache then all_ids c else visible_ids c) !! j ≠ Some (PInt id)
  | Raise e =>
      e = ValueError ∧ PInt id ∉ (if cache then all_ids c else visible_ids c)
  end.
Proof.
  unfold index, all_ids, visible_ids.
  destruct cache; apply list_index_spec.
Qed.

(** X16. On a cache where every visible id has a row, [row] and
    [__getitem__] agree: for a visible id, [row id] returns a row number,
    and reading that row number gives the row stored for the id, which is
    not the tombstone [None]. *)
Theorem row_then_getitem (c : t) (id : nat) :
  consistent c → PInt id ∈ visible_ids c →
  ∃ i r, row id c = Ok i ∧ __getitem__ i c = Ok (PRow r) ∧
         rows c !! id = Some (PRow r).
Proof.
  intros (_ & _ & Hvis) Hin.
  destruct (list_index_in _ _ Hin) as (i & Hi & Hl).
  destruct (Hvis _ Hin) as (n & r & [= <-] & Hrow).
  exists i, r. split; [exact Hi|]. split; [|done].
  unfold __getitem__. unfold visible_ids in Hl. rewrite Hl.
  unfold getitem. unfold rows in Hrow. by rewrite Hrow.
Qed.

(** X16 at book 1 of the loaded example, shown in row 1. *)
Lemma row_then_getitem_witness :
  ∃ i r, row 1 Examples.loaded = Ok i ∧ __getitem__ i Examples.loaded = Ok (PRow r) ∧
         rows Examples.loaded !! 1 = Some (PRow r).
Proof.
  apply (row_then_getitem Examples.loaded 1).
  - apply loaded_healthy.
  - cbn. apply elem_of_cons. right. apply elem_of_cons. by left.
Defined.

(** X17. On a healthy cache a book that [remove] has taken out can no longer
    be located: [row] and [index] raise [ValueError] for its id, in the
    visible ordering and in the full one. *)
Theorem remove_then_row (c c' : t) (id : nat) :
  healthy c → remove id c = Ok c' →
  row id c' = Raise ValueError ∧ index id true c' = Raise ValueError.
Proof.
  intros (Hs & (Hsub & _ & _) & Hnd) Hrm.
  assert (Hid : id < length (rows c)).
  { destruct (decide (id < length (rows c))) as [H|H]; [done|].
    rewrite remove_out_of_range in Hrm by lia. done. }
  destruct (remove_spec c id Hs Hid) as (c2 & Hrm2 & _ & _ & Ha & Hv & _).
  rewrite Hrm in Hrm2. injection Hrm2 as <-.
  assert (Hndv : NoDup (visible_ids c)) by (by eapply sublist_NoDup).
  destruct (remove_first_NoDup (PInt id) _ Hnd) as [_ Hgone].
  destruct (remove_first_NoDup (PInt id) _ Hndv) as [_ Hgonev].
  split.
  - unfold row, index. apply list_index_absent. fold (visible_ids c'). by rewrite Hv.
  - unfold index. apply list_index_absent. fold (all_ids c'). by rewrite Ha.
Qed.

(** X17 at book 1 of the loaded example. *)
Lemma remove_then_row_witness :
  ∃ c', remove 1 Examples.loaded = Ok c' ∧
        row 1 c' = Raise ValueError ∧ index 1 true c' = Raise ValueError.
Proof.
  eexists. split; [reflexivity|].
  exact (remove_then_row Examples.loaded _ 1 loaded_healthy eq_refl).
Defined.

(** X18. [books_added] puts the new books in the first rows, in the order
    given: on a cache whose lists are distinct objects, row [i] then shows
    what the store returns for the [i]-th of the new ids, and the number
    of rows has grown by the number of new ids. *)
Theorem books_added_first_rows (conn : nat → option Row) (ids : list nat) (c : t)
  (i id : nat) :
  separated c → ids !! i = Some id →
  ∃ c', books_added ids conn c = Ok c' ∧
        __getitem__ i c' = Ok (fetchone conn id) ∧
        __len__ c' = length ids + __len__ c.
Proof.
  intros Hs Hi.
  assert (Hne : ids ≠ []) by (by intros ->).
  destruct (books_added_spec conn ids c Hs Hne) as (c' & Hb & _ & _ & Hv & _ & Hin & _).
  exists c'. split; [done|]. split.
  - unfold __getitem__. fold (visible_ids c'). rewrite Hv.
    rewrite lookup_app_l by (rewrite length_fmap; by eapply lookup_lt_Some).
    rewrite list_lookup_fmap, Hi. cbn [fmap option_fmap option_map getitem].
    fold (rows c'). rewrite Hin; [done|]. by eapply list_elem_of_lookup_2.
  - unfold __len__. fold (visible_ids c') (visible_ids c).
    by rewrite Hv, length_app, length_fmap.
Qed.

(** X18 for book 7 added to the loaded example. *)
Lemma books_added_first_rows_witness :
  ∃ c', books_added [7] Examples.conn12 Examples.loaded = Ok c' ∧
        __getitem__ 0 c' = Ok PNone ∧ __len__ c' = 3.
Proof.
  exact (books_added_first_rows Examples.conn12 [7] Examples.loaded 0 7
           loaded_separated eq_refl).
Defined.

Lemma map_row_run ids c :
  (∀ n, n ∈ ids → PInt n ∈ visible_ids c) →
  ∃ rs, map_row ids c = Ok rs ∧
        Forall2 (fun n r => visible_ids c !! r = Some (PInt n)) ids rs.
Proof.
  induction ids as [|n ids IH]; intros Hin; cbn [map_row].
  - exists []. by split.
  - destruct (list_index_in (PInt n) (visible_ids c)) as (r & Hr & Hl).
    { apply Hin, elem_of_cons. by left. }
    destruct IH as (rs & Hrs & Hall).
    { intros m Hm. apply Hin, elem_of_cons. by right. }
    exists (r :: rs). unfold row, index. fold (visible_ids c).
    rewrite Hr. cbn [rbind]. rewrite Hrs. cbn [rbind]. split; [done|].
    by constructor.
Qed.

Lemma map_row_hidden ids c n :
  n ∈ ids → PInt n ∉ visible_ids c → map_row ids c = Raise ValueError.
Proof.
  intros Hin Hout. induction ids as [|m ids IH]; [by apply elem_of_nil in Hin|].
  cbn [map_row]. unfold row, index. fold (visible_ids c).
  pose proof (list_index_spec (PInt m) (visible_ids c)) as Hm.
  destruct (list_index (PInt m) (visible_ids c)) as [r|e]; cbn [rbind].
  - apply elem_of_cons in Hin as [->|Hin].
    + destruct Hm as [Hm _]. exfalso. apply Hout. by eapply list_elem_of_lookup_2.
    + by rewrite IH.
  - by destruct Hm as [-> _].
Qed.

(** X19. [refresh_ids] reads the rows of the given ids again and reorders
    nothing.  On a cache whose lists are distinct objects, for ids that are
    visible and within the data list, it returns for each id the number of
    a row that shows it; both orderings are as before, the row of each given
    id is what the store returns now, and the other rows are untouched. *)
Theorem refresh_ids_in_place (conn : nat → option Row) (ids : list nat) (c : t) :
  separated c →
  (∀ n, n ∈ ids → n < length (rows c)) →
  (∀ n, n ∈ ids → PInt n ∈ visible_ids c) →
  ∃ rs c', refresh_ids conn ids c = Ok (rs, c') ∧
           Forall2 (fun n r => visible_ids c' !! r = Some (PInt n)) ids rs ∧
           all_ids c' = all_ids c ∧ visible_ids c' = visible_ids c ∧
           (∀ n, n ∈ ids → rows c' !! n = Some (fetchone conn n)) ∧
           (∀ n, n ∉ ids → rows c' !! n = rows c !! n).
Proof.
  intros Hs Hrange Hvis. unfold refresh_ids. fold (rows c).
  destruct (load_rows_spec conn ids (rows c) Hrange) as (d & Hd & _ & Hin & Hout).
  rewrite Hd. cbn [rbind].
  set (c1 := store c (_data c) d).
  assert (Hv1 : visible_ids c1 = visible_ids c) by (by apply visible_ids_store_data).
  destruct (map_row_run ids c1) as (rs & Hrs & Hall).
  { intros n Hn. rewrite Hv1. by apply Hvis. }
  rewrite Hrs. cbn [rbind]. exists rs, c1. split; [done|]. split; [done|].
  split; [by apply all_ids_store_data|]. split; [done|].
  subst c1. rewrite rows_store_data by done. done.
Qed.

(** X19 at book 1 of the loaded example. *)
Lemma refresh_ids_in_place_witness :
  ∃ rs c', refresh_ids Examples.conn12 [1] Examples.loaded = Ok (rs, c') ∧
           rs = [1] ∧ visible_ids c' = [PInt 2; PInt 1].
Proof.
  destruct (refresh_ids_in_place Examples.conn12 [1] Examples.loaded loaded_separated)
    as (rs & c' & H & _ & _ & Hv & _).
  - intros n Hn. apply list_elem_of_singleton in Hn as ->. cbn. lia.
  - intros n Hn. apply list_elem_of_singleton in Hn as ->. cbn.
    apply elem_of_cons. right. apply elem_of_cons. by left.
  - exists rs, c'. split; [exact H|]. split; [|exact Hv].
    cbn in H. by injection H as <- _.
Defined.

(** X20. [refresh_ids] raises [ValueError] when one of the ids is not
    visible, for instance because the current filter hides it, although
    its row is within the data list. *)
Theorem refresh_ids_hidden (conn : nat → option Row) (ids : list nat) (c : t) (n : nat) :
  separated c →
  (∀ n, n ∈ ids → n < length (rows c)) →
  n ∈ ids → PInt n ∉ visible_ids c →
  refresh_ids conn ids c = Raise ValueError.
Proof.
  intros Hs Hrange Hn Hout. unfold refresh_ids. fold (rows c).
  destruct (load_rows_spec conn ids (rows c) Hrange) as (d & Hd & _).
  rewrite Hd. cbn [rbind].
  rewrite (map_row_hidden ids _ n); [done|done|].
  by rewrite visible_ids_store_data.
Qed.

Lemma emma_only_filtered :
  filter [Examples.title_is_emma] false false Examples.loaded = Ok MoreExamples.emma_only.
Proof. reflexivity. Qed.

Lemma emma_only_separated : separated MoreExamples.emma_only.
Proof. unfold separated. cbn. repeat split; (done || lia). Defined.

(** X20 at book 2 of the filtered example. *)
Lemma refresh_ids_hidden_witness :
  refresh_ids Examples.conn12 [2] MoreExamples.emma_only = Raise ValueError.
Proof.
  apply (refresh_ids_hidden Examples.conn12 [2] MoreExamples.emma_only 2
           emma_only_separated).
  - intros n Hn. apply list_elem_of_singleton in Hn as ->. cbn. lia.
  - by constructor.
  - cbn. intros H. apply list_elem_of_singleton in H. discriminate.
Defined.

(** *** The grouped sorts *)

Lemma NoDup_flat_map (books_of : nat → list nat) (groups : list nat) :
  NoDup groups →
  (∀ g, g ∈ groups → NoDup (books_of g)) →
  (∀ g1 g2 b, g1 ∈ groups → g2 ∈ groups → b ∈ books_of g1 → b ∈ books_of g2 → g1 = g2) →
  NoDup (flat_map books_of groups).
Proof.
  induction groups as [|g groups IH]; intros Hnd Hg Hdis; [constructor|].
  cbn [flat_map]. apply NoDup_cons in Hnd as [Hnotin Hnd].
  apply NoDup_app. split; [|split].
  - apply Hg, elem_of_cons. by left.
  - intros b Hb Hb'. apply list_elem_of_In, in_flat_map in Hb' as (g' & Hg' & Hbg').
    apply list_elem_of_In in Hg'. apply list_elem_of_In in Hbg'.
    assert (g = g') as <-.
    { apply (Hdis g g' b); [apply elem_of_cons; by left|apply elem_of_cons; by right| |];
        done. }
    done.
  - apply IH; [done| |].
    + intros g' Hg'. apply Hg, elem_of_cons. by right.
    + intros g1 g2 b H1 H2. apply Hdis; apply elem_of_cons; by right.
Qed.

Lemma grouped_NoDup (ascending : bool) (none groups : list nat) (books_of : nat → list nat) :
  single_membership none groups books_of →
  NoDup (if ascending then none ++ flat_map books_of groups
         else flat_map books_of groups ++ none).
Proof.
  intros (Hn & Hg & Hb & Hnone & Hdis).
  pose proof (NoDup_flat_map books_of groups Hg Hb Hdis) as Hf.
  assert (Hsep : ∀ b, b ∈ flat_map books_of groups → b ∉ none).
  { intros b (g & Hg' & Hbg)%list_elem_of_In%in_flat_map.
    apply (Hnone g); by apply list_elem_of_In. }
  destruct ascending; apply NoDup_app.
  - split; [done|]. split; [|done]. intros b Hb1 Hb2. by apply (Hsep b).
  - split; [done|]. split; [|done]. exact Hsep.
Qed.

(** X21. The sorts on publisher, rating, series and tags list every book
    once when every book is in at most one group, that is, has at most one
    publisher, one rating, one series or one tag: the books without group
    and the books of each group are then put together without repetition,
    in ascending and in descending order. *)
Theorem grouped_sorts_list_once (ascending : bool) (none groups : list nat)
  (books_of : nat → list nat) :
  single_membership none groups books_of →
  NoDup (sort_on_publisher ascending none groups books_of) ∧
  NoDup (sort_on_rating ascending none groups books_of) ∧
  NoDup (sort_on_series ascending none groups books_of) ∧
  NoDup (sort_on_tags ascending none groups books_of).
Proof.
  intros H. unfold sort_on_publisher, sort_on_rating, sort_on_series, sort_on_tags.
  cbv zeta. repeat split; by apply grouped_NoDup.
Qed.

(** X21 for two series: books 1 and 2 in series 10, book 3 in series 11,
    and book 4 in none. *)
Lemma grouped_sorts_list_once_witness :
  NoDup (sort_on_series true [4] [10; 11] MoreExamples.books_of_series).
Proof.
  refine (proj1 (proj2 (proj2
    (grouped_sorts_list_once true [4] [10; 11] MoreExamples.books_of_series _)))).
  unfold single_membership. split; [|split; [|split; [|split]]].
  - apply NoDup_singleton.
  - apply NoDup_cons. split; [|apply NoDup_singleton].
    intros H. apply list_elem_of_singleton in H. discriminate.
  - intros g [->|Hg]%elem_of_cons; [|apply list_elem_of_singleton in Hg as ->]; cbn.
    + apply NoDup_cons. split; [|apply NoDup_singleton].
      intros H. apply list_elem_of_singleton in H. discriminate.
    + apply NoDup_singleton.
  - intros g b [->|Hg]%elem_of_cons; [|apply list_elem_of_singleton in Hg as ->]; cbn;
      intros Hb Hn; apply list_elem_of_singleton in Hn as ->;
      repeat (apply elem_of_cons in Hb as [Hb|Hb]; [discriminate|]);
      by apply elem_of_nil in Hb.
  - intros g1 g2 b [->|Hg1]%elem_of_cons [->|Hg2]%elem_of_cons;
      try (apply list_elem_of_singleton in Hg1 as ->);
      try (apply list_elem_of_singleton in Hg2 as ->); try done; cbn;
      intros Hb1 Hb2; exfalso;
      repeat (apply elem_of_cons in Hb1 as [->|Hb1];
              [repeat (apply elem_of_cons in Hb2 as [Hb2|Hb2]; [discriminate|]);
               by apply elem_of_nil in Hb2|]);
      by apply elem_of_nil in Hb1.
Defined.

End ResultCacheRows.

(** ** Library: formats on disk and in the store *)
Section LibraryFormats.
Import Library Frame.
Local Open Scope lib_scope.
Implicit Types (w : World) (d : DB) (f : Os.FS).

(** A step on the file system that returns has replaced the file system
    and recorded its event, and nothing else. *)
Lemma fs_step_inv (step : Os.FS → result Os.FS) e w r w' :
  (w0 <- get ;; f <- lift (step (fs w0)) ;; set_fs f ;; emit e) w = (r, w') →
  match step (fs w) with
  | Ok f => r = Ok tt ∧
            w' = mkWorld (library_path w) (PATH_LIMIT w) (listeners w) (db w)
                   (committed w) f (trace w ++ [e])
  | Raise err => r = Raise err ∧ w' = w
  end.
Proof.
  unfold bind, get, lift, set_fs, emit. destruct (step (fs w)); intros H; by simplify_eq.
Qed.

Lemma assoc_filtered k (l : list (string * string)) :
  Os.assoc k (List.filter (fun e => negb (String.eqb (fst e) k)) l) = None.
Proof.
  induction l as [|[k' v] l IH]; [done|]. cbn [List.filter fst].
  destruct (String.eqb k' k) eqn:E; cbn [negb]; [done|].
  cbn [Os.assoc]. rewrite String.eqb_sym, E. exact IH.
Qed.

Lemma file_written f f' p content :
  Os.write_file f p content = Ok f' →
  Os.file f' p = Some content ∧ Os.cwd f' = Os.cwd f ∧ Os.dirs f' = Os.dirs f.
Proof.
  unfold Os.write_file. destruct (_ || _); [done|]. intros [= <-].
  unfold Os.file, Os.abspath. cbn [Os.cwd Os.files Os.assoc Os.dirs].
  by rewrite String.eqb_refl.
Qed.

Lemma file_removed f f' p :
  Os.remove f p = Ok f' →
  Os.file f' p = None ∧ Os.cwd f' = Os.cwd f ∧ Os.dirs f' = Os.dirs f.
Proof.
  unfold Os.remove. destruct (Os.file f p); [|done]. intros [= <-].
  unfold Os.file, Os.abspath. cbn [Os.cwd Os.files Os.dirs].
  split; [apply assoc_filtered|done].
Qed.

Lemma abspath_cwd f f' p : Os.cwd f' = Os.cwd f → Os.abspath f' p = Os.abspath f p.
Proof. intros H. unfold Os.abspath. by rewrite H. Qed.

Lemma when_execute_run (b : bool) stmt w :
  when b (execute stmt) w
  = (Ok tt, if b then mkWorld (library_path w) (PATH_LIMIT w) (listeners w)
                        (apply_sql stmt (db w)) (committed w) (fs w)
                        (trace w ++ [EExecute stmt])
            else w).
Proof. by destruct b. Qed.

Lemma truthy_file_name a t : PyStr.truthy (t +:+ " - " +:+ a) = true.
Proof. by destruct t. Qed.

(** The row that [add_format] inserts is the one a lookup finds afterwards. *)
Lemma select_name_inserted d id fmt size name :
  select_name d id fmt = None →
  select_name (apply_sql (InsertData (mkData id fmt size name)) d) id fmt = Some name.
Proof.
  unfold select_name, apply_sql. cbn [data].
  induction (data d) as [|r rows IH]; cbn [app find].
  - cbn [data_book data_format]. by rewrite Nat.eqb_refl, String.eqb_refl.
  - destruct (Nat.eqb (data_book r) id && String.eqb (data_format r) fmt); [done|exact IH].
Qed.

Lemma rows_inserted d id fmt size name :
  select_name d id fmt = None →
  List.filter (fun r => Nat.eqb (data_book r) id && String.eqb (data_format r) fmt)
    (data (apply_sql (InsertData (mkData id fmt size name)) d))
  = [mkData id fmt size name].
Proof.
  unfold select_name, apply_sql. cbn [data].
  induction (data d) as [|r rows IH]; cbn [app find List.filter].
  - cbn [data_book data_format]. by rewrite Nat.eqb_refl, String.eqb_refl.
  - destruct (Nat.eqb (data_book r) id && String.eqb (data_format r) fmt); [done|exact IH].
Qed.

(** What a call of [add_format] that returns has done. *)
Lemma add_format_inv id fmt stream dir w w' :
  add_format id fmt stream dir w = (Ok tt, w') →
  ∃ b fa fb,
    select_book (db w) id = Some b ∧
    Os.cwd fa = Os.cwd (fs w) ∧
    Os.write_file fa
      (Os.join dir [(title_component (PATH_LIMIT w) (book_title b) +:+ " - " +:+
                     author_component (PATH_LIMIT w) (book_authors b)) +:+ extension fmt])
      stream = Ok fb ∧
    fs w' = fb ∧
    db w' = apply_sql
              (InsertData (mkData id (PyStr.upper fmt) (String.length stream)
                             (title_component (PATH_LIMIT w) (book_title b) +:+ " - " +:+
                              author_component (PATH_LIMIT w) (book_authors b))))
              (if bool_decide (is_Some (select_name (db w) id fmt))
               then apply_sql (DeleteData id fmt) (db w) else db w) ∧
    committed w' = db w' ∧
    library_path w' = library_path w ∧ PATH_LIMIT w' = PATH_LIMIT w ∧
    listeners w' = listeners w.
Proof.
  unfold add_format. intros H.
  rewrite (bind_ok get _ w w w) in H by done.
  rewrite (bind_ok _ _ _ _ _ (when_execute_run _ _ _)) in H.
  set (b0 := bool_decide (is_Some (select_name (db w) id fmt))) in *.
  set (w1 := if b0 then _ else w) in H.
  assert (Hw1 : select_book (db w1) id = select_book (db w) id ∧
                PATH_LIMIT w1 = PATH_LIMIT w ∧ fs w1 = fs w ∧
                library_path w1 = library_path w ∧ listeners w1 = listeners w ∧
                db w1 = if b0 then apply_sql (DeleteData id fmt) (db w) else db w).
  { subst w1. by destruct b0. }
  destruct Hw1 as (Hb1 & Hl1 & Hf1 & Hp1 & Hls1 & Hd1).
  apply silent_inv in H as [(name & Hn & H)|(e & _ & [=] & _)];
    [|apply silent_construct_file_name].
  rewrite construct_file_name_run, Hb1, Hl1 in Hn.
  destruct (select_book (db w) id) as [b|] eqn:Hb; [|by simplify_eq].
  injection Hn as <-.
  set (name := title_component (PATH_LIMIT w) (book_title b) +:+ " - " +:+
               author_component (PATH_LIMIT w) (book_authors b)) in *.
  set (dest := Os.join dir [name +:+ extension fmt]) in *.
  rewrite (bind_ok (os_exists _) _ w1 (Os.exists_ (fs w1) (Os.dirname dest)) w1) in H by done.
  apply bind_inv in H as [([] & w2 & H2 & H)|(e & _ & [=])].
  assert (Hw2 : Os.cwd (fs w2) = Os.cwd (fs w) ∧ db w2 = db w1 ∧
                library_path w2 = library_path w ∧ PATH_LIMIT w2 = PATH_LIMIT w ∧
                listeners w2 = listeners w ∧ committed w2 = committed w1).
  { destruct (Os.exists_ (fs w1) (Os.dirname dest)); cbn [negb when] in H2.
    - unfold ret in H2. simplify_eq. by rewrite Hf1.
    - apply (fs_step_inv (fun f => Os.makedirs f (Os.dirname dest))) in H2.
      unfold Os.makedirs in H2.
      destruct (Os.exists_ (fs w1) (Os.dirname dest)).
      + by destruct H2 as [[=] _].
      + destruct H2 as [_ ->]. cbn. by rewrite Hf1. }
  destruct Hw2 as (Hc2 & Hd2 & Hp2 & Hl2 & Hls2 & _).
  apply bind_inv in H as [([] & w3 & H3 & H)|(e & _ & [=])].
  apply (fs_step_inv (fun f => Os.write_file f dest stream)) in H3.
  destruct (Os.write_file (fs w2) dest stream) as [fb|err] eqn:Hwr;
    [|by destruct H3 as [[=] _]].
  destruct H3 as [_ ->].
  rewrite (bind_ok _ _ _ _ _ (execute_run _ _)) in H.
  rewrite (bind_ok _ _ _ _ _ (commit_run _)) in H.
  rewrite notify_run in H. injection H as <-.
  exists b, (fs w2), fb. cbn [fs db committed library_path PATH_LIMIT listeners].
  split; [done|]. split; [done|]. split; [done|]. split; [done|].
  split; [by rewrite Hd2, Hd1|]. done.
Qed.

(** X22. What [add_format] has stored, [format] returns.  For a format tag
    in upper case and the directory of the book, after a call of
    [add_format] that has returned, [format] returns the content that was
    added and changes nothing; the store holds exactly one row for the book
    and the format, with the size of the content, and it is committed. *)
Theorem add_format_then_format (w w' : World) (id : nat) (fmt stream : string) (b : Book) :
  select_book (db w) id = Some b →
  PyStr.upper fmt = fmt →
  add_format id fmt stream (Os.join (library_path w) [book_path b]) w = (Ok tt, w') →
  format id fmt w' = (Ok stream, w') ∧
  (∃ name,
     List.filter (fun r => Nat.eqb (data_book r) id && String.eqb (data_format r) fmt)
       (data (db w'))
     = [mkData id fmt (String.length stream) name]) ∧
  committed w' = db w'.
Proof.
  intros Hb Hup Hadd.
  apply add_format_inv in Hadd
    as (b' & fa & fb & Hb' & Hcwd & Hwr & Hfs & Hdb & Hcom & Hlib & Hlim & Hls).
  rewrite Hb in Hb'. injection Hb' as <-. rewrite Hup in Hdb.
  set (name := title_component (PATH_LIMIT w) (book_title b) +:+ " - " +:+
               author_component (PATH_LIMIT w) (book_authors b)) in *.
  set (d1 := if bool_decide (is_Some (select_name (db w) id fmt))
             then apply_sql (DeleteData id fmt) (db w) else db w) in *.
  assert (Hnone : select_name d1 id fmt = None).
  { subst d1. destruct (select_name (db w) id fmt) as [n|] eqn:E.
    - rewrite bool_decide_eq_true_2 by eauto. apply select_name_deleted.
    - rewrite bool_decide_eq_false_2 by apply is_Some_None. exact E. }
  assert (Hbooks : books (db w') = books (db w)).
  { rewrite Hdb. subst d1. by destruct (bool_decide _). }
  split; [|split; [|done]].
  - set (dest := Os.join (Os.join (library_path w) [book_path b]) [name +:+ extension fmt])
      in *.
    destruct (file_written _ _ _ _ Hwr) as (Hfile & _ & _).
    assert (Hacc : Os.access (fs w') dest = true).
    { rewrite Hfs. unfold Os.access, Os.exists_. rewrite Hfile.
      rewrite (bool_decide_eq_true_2 (is_Some (Some stream))) by eauto.
      apply orb_true_r. }
    assert (Hfa : format_abspath id fmt w' = (Ok (Some dest), w')).
    { unfold format_abspath.
      rewrite (bind_ok get _ w' w' w') by done.
      rewrite (bind_ok (path id) _ w' (book_path b) w')
        by (by rewrite path_run, (select_book_books _ _ _ Hbooks), Hb).
      rewrite Hdb at 1. rewrite (select_name_inserted d1 id fmt _ name Hnone).
      cbn [first_column]. rewrite (bind_ok (ret name) _ w' name w') by done.
      replace (PyStr.truthy name) with true by (symmetry; apply truthy_file_name).
      rewrite Hlib. fold dest.
      rewrite (bind_ok (os_access dest) _ w' true w')
        by (unfold os_access, bind, get, ret; by rewrite Hacc).
      done. }
    unfold format. rewrite (bind_ok _ _ _ _ _ Hfa).
    unfold os_read, bind, get, lift, Os.read_file. by rewrite Hfs, Hfile.
  - exists name. rewrite Hdb. by apply rows_inserted.
Qed.

(** X22 for book 7 of the example library, whose EPUB file had gone. *)
Lemma add_format_then_format_witness :
  ∃ w', add_format 7 "EPUB" "EPUB data" "/library/Jane Austen/Emma (7)" Examples.w_seven
        = (Ok tt, w') ∧
        format 7 "EPUB" w' = (Ok "EPUB data", w').
Proof.
  eexists. split; [vm_compute; reflexivity|].
  refine (proj1 (add_format_then_format Examples.w_seven _ 7 "EPUB" "EPUB data"
                   Examples.seven eq_refl eq_refl _)).
  vm_compute. reflexivity.
Defined.

(** X23. [remove_format] of a format that is on disk removes the file and
    the row: when the [data] row of (id, format) exists, with a name that
    is not empty and the format tag in upper case, and the file it names
    exists, the call returns, the file is gone, nothing else on disk has
    changed its directories, the rows of (id, format) are deleted and the
    store is committed; the effects are the removal of the file, the
    DELETE, the commit and one [metadata] notification. *)
Theorem remove_format_deletes_file (w : World) (id : nat) (format name content : string)
  (b : Book) :
  select_book (db w) id = Some b →
  select_name (db w) id format = Some name →
  PyStr.truthy name = true →
  PyStr.upper format = format →
  Os.file (fs w)
    (Os.join (Os.join (library_path w) [book_path b]) [name +:+ extension format])
  = Some content →
  ∃ w', remove_format id format w = (Ok tt, w') ∧
        Os.file (fs w')
          (Os.join (Os.join (library_path w) [book_path b]) [name +:+ extension format])
        = None ∧
        Os.dirs (fs w') = Os.dirs (fs w) ∧
        select_name (db w') id format = None ∧
        db w' = apply_sql (DeleteData id format) (db w) ∧
        committed w' = db w' ∧
        trace w' = trace w ++
          [ERemove (Os.join (Os.join (library_path w) [book_path b])
                      [name +:+ extension format]);
           EExecute (DeleteData id format); ECommit; ENotify "metadata" [id]].
Proof.
  intros Hb Hn Ht Hu Hf.
  unfold remove_format.
  rewrite (bind_ok get _ w w w) by done.
  rewrite (bind_ok (path id) _ w (book_path b) w) by (by rewrite path_run, Hb).
  rewrite Hn, Ht, Hu.
  set (fpath := Os.join _ [name +:+ extension format]) in *.
  assert (Hrm : ∃ f', Os.remove (fs w) fpath = Ok f').
  { unfold Os.remove. rewrite Hf. eauto. }
  destruct Hrm as [f' Hrm].
  assert (Hrun : try_except (os_remove fpath) (ret tt) w
                 = (Ok tt, mkWorld (library_path w) (PATH_LIMIT w) (listeners w) (db w)
                             (committed w) f' (trace w ++ [ERemove fpath]))).
  { unfold try_except, os_remove, bind, get, lift, set_fs, emit. by rewrite Hrm. }
  rewrite (bind_ok _ _ _ _ _ Hrun).
  rewrite (bind_ok _ _ _ _ _ (execute_run _ _)).
  rewrite (bind_ok _ _ _ _ _ (commit_run _)).
  rewrite notify_run.
  eexists. split; [reflexivity|].
  cbn [db committed fs listeners trace].
  destruct (file_removed _ _ _ Hrm) as (H1 & _ & H2).
  split; [done|]. split; [done|].
  split; [apply select_name_deleted|].
  split; [done|]. split; [done|].
  by rewrite <- !app_assoc.
Qed.

(** X23 for the EPUB file of book 1 of the example library. *)
Lemma remove_format_deletes_file_witness :
  ∃ w', remove_format 1 "EPUB" Examples.w_emma = (Ok tt, w') ∧
        Os.files (fs w') = [("/library/Jane Austen/Ema (1)/cover.jpg", "JPEG data")] ∧
        data (db w') = [].
Proof.
  destruct (remove_format_deletes_file Examples.w_emma 1 "EPUB" "Ema - Jane Austen"
              "EPUB data" Examples.emma eq_refl eq_refl eq_refl eq_refl eq_refl)
    as (w' & Hr & _ & _ & _ & Hdb & _).
  exists w'. split; [exact Hr|].
  vm_compute in Hr. injection Hr as <-. split; reflexivity.
Defined.

(** X24. [remove_format] of a format the book does not have, or whose row
    carries an empty name, does nothing: it returns, and the store, the
    file system and the trace are as before; no listener is notified. *)
Theorem remove_format_without_row (w : World) (id : nat) (format : string) (b : Book) :
  select_book (db w) id = Some b →
  select_name (db w) id format = None ∨ select_name (db w) id format = Some "" →
  remove_format id format w = (Ok tt, w).
Proof.
  intros Hb Hn. unfold remove_format.
  rewrite (bind_ok get _ w w w) by done.
  rewrite (bind_ok (path id) _ w (book_path b) w) by (by rewrite path_run, Hb).
  by destruct Hn as [-> | ->].
Qed.

(** X24 for a format book 7 of the example library does not have. *)
Lemma remove_format_without_row_witness :
  remove_format 7 "MOBI" Examples.w_seven = (Ok tt, Examples.w_seven).
Proof.
  exact (remove_format_without_row Examples.w_seven 7 "MOBI" Examples.seven
           eq_refl (or_introl eq_refl)).
Defined.

(** X25. For an id that names no book, the methods that start by reading
    the path of the book raise [TypeError] (the subscript of the [None]
    that [fetchone] returns) and leave the library as it was: [cover],
    [formats], [format_abspath], [format] and [remove_format]. *)
Theorem unknown_id_raises (w : World) (id : nat) (format : string) :
  select_book (db w) id = None →
  cover id w = (Raise TypeError, w) ∧
  formats id w = (Raise TypeError, w) ∧
  format_abspath id format w = (Raise TypeError, w) ∧
  Library.format id format w = (Raise TypeError, w) ∧
  remove_format id format w = (Raise TypeError, w).
Proof.
  intros Hb.
  assert (Hp : path id w = (Raise TypeError, w)) by (by rewrite path_run, Hb).
  assert (Hfa : format_abspath id format w = (Raise TypeError, w)).
  { unfold format_abspath. rewrite (bind_ok get _ w w w) by done.
    by rewrite (bind_raise _ _ _ _ _ Hp). }
  split; [|split; [|split; [done|split]]].
  - unfold cover. rewrite (bind_ok get _ w w w) by done.
    by rewrite (bind_raise _ _ _ _ _ Hp).
  - unfold formats. rewrite (bind_ok get _ w w w) by done.
    by rewrite (bind_raise _ _ _ _ _ Hp).
  - unfold Library.format. by rewrite (bind_raise _ _ _ _ _ Hfa).
  - unfold remove_format. rewrite (bind_ok get _ w w w) by done.
    by rewrite (bind_raise _ _ _ _ _ Hp).
Qed.

(** X25 for an id the example library does not hold. *)
Lemma unknown_id_raises_witness :
  cover 9 Examples.w_emma = (Raise TypeError, Examples.w_emma) ∧
  remove_format 9 "EPUB" Examples.w_emma = (Raise TypeError, Examples.w_emma).
Proof.
  destruct (unknown_id_raises Examples.w_emma 9 "EPUB" eq_refl) as (H1 & _ & _ & _ & H5).
  split; [exact H1|exact H5].
Defined.


End LibraryFormats.

(** ** Library: set_path on a new book, and set_title *)
Section LibraryNewBook.
Import Library Frame.
Local Open Scope lib_scope.
Implicit Types (w : World) (d : DB).

Lemma eqb_append_empty a c s : String.eqb (a +:+ String c s) "" = false.
Proof. by destruct a. Qed.

Lemma os_makedirs_fresh p w :
  Os.exists_ (fs w) p = false →
  ∃ f, Os.makedirs (fs w) p = Ok f ∧
       os_makedirs p w
       = (Ok tt, mkWorld (library_path w) (PATH_LIMIT w) (listeners w) (db w)
                   (committed w) f (trace w ++ [EMakedirs p])) ∧
       Os.files f = Os.files (fs w) ∧ Os.cwd f = Os.cwd (fs w).
Proof.
  intros H.
  assert (Hm : ∃ f, Os.makedirs (fs w) p = Ok f ∧
                    Os.files f = Os.files (fs w) ∧ Os.cwd f = Os.cwd (fs w)).
  { unfold Os.makedirs. rewrite H. eexists. split; [reflexivity|done]. }
  destruct Hm as (f & Hm & Hfiles & Hcwd). exists f. split; [done|]. split; [|done].
  unfold os_makedirs, bind, get, lift, set_fs, emit. by rewrite Hm.
Qed.

(** X27. [set_path] on a book that has no path yet and no format, as a
    book just inserted, returns: it creates the directory of the computed
    path unless it exists, writes the path to the store and commits.  It
    copies and deletes nothing: the files are as before, and the trace
    holds no other event. *)
Theorem set_path_new_book (w : World) (id : nat) (b : Book) :
  select_book (db w) id = Some b →
  book_path b = "" →
  select_data (db w) id = [] →
  ∃ w' pth,
    construct_path_name id w = (Ok pth, w) ∧
    set_path id w = (Ok tt, w') ∧
    db w' = apply_sql (UpdatePath id pth) (db w) ∧
    committed w' = db w' ∧
    Os.files (fs w') = Os.files (fs w) ∧
    trace w' = trace w ++
      (if Os.exists_ (fs w) (dir_of w pth) then [] else [EMakedirs (dir_of w pth)]) ++
      [EExecute (UpdatePath id pth); ECommit].
Proof.
  intros Hb Hpath Hdata.
  set (pth := author_component (PATH_LIMIT w) (book_authors b) +:+ "/" +:+
              title_component (PATH_LIMIT w) (book_title b) +:+
              " (" +:+ PyStr.of_nat id +:+ ")").
  assert (Hp : construct_path_name id w = (Ok pth, w))
    by (by rewrite construct_path_name_run, Hb).
  assert (Hc : path id w = (Ok "", w)) by (by rewrite path_run, Hb, Hpath).
  assert (Hf : formats id w = (Ok None, w)).
  { unfold formats. rewrite (bind_ok get _ w w w) by done.
    rewrite (bind_ok _ _ _ _ _ Hc). by rewrite Hdata. }
  assert (Hn : ∃ fname, construct_file_name id w = (Ok fname, w))
    by (rewrite construct_file_name_run, Hb; eauto).
  destruct Hn as [fname Hn].
  assert (Hne : String.eqb pth "" = false) by apply eqb_append_empty.
  (* the world after the directory has been made *)
  assert (Hmk : ∃ w1, when (negb (Os.exists_ (fs w) (dir_of w pth)))
                        (os_makedirs (dir_of w pth)) w = (Ok tt, w1) ∧
                      library_path w1 = library_path w ∧ PATH_LIMIT w1 = PATH_LIMIT w ∧
                      listeners w1 = listeners w ∧ db w1 = db w ∧
                      Os.files (fs w1) = Os.files (fs w) ∧
                      trace w1 = trace w ++
                        (if Os.exists_ (fs w) (dir_of w pth) then []
                         else [EMakedirs (dir_of w pth)])).
  { destruct (Os.exists_ (fs w) (dir_of w pth)) eqn:E; cbn [negb when].
    - exists w. by rewrite app_nil_r.
    - destruct (os_makedirs_fresh _ _ E) as (f & _ & Hrun & Hfiles & _).
      eexists. split; [exact Hrun|]. done. }
  destruct Hmk as (w1 & Hmk & Hlib1 & Hlim1 & Hls1 & Hdb1 & Hfiles1 & Htr1).
  set (w2 := mkWorld (library_path w1) (PATH_LIMIT w1) (listeners w1)
               (apply_sql (UpdatePath id pth) (db w1))
               (apply_sql (UpdatePath id pth) (db w1)) (fs w1)
               ((trace w1 ++ [EExecute (UpdatePath id pth)]) ++ [ECommit])).
  exists w2, pth. split; [done|]. split.
  - unfold set_path. rewrite (bind_ok get _ w w w) by done.
    rewrite (bind_ok _ _ _ _ _ Hp), (bind_ok _ _ _ _ _ Hc), (bind_ok _ _ _ _ _ Hf),
      (bind_ok _ _ _ _ _ Hn).
    cbn [format_list name_changed]. rewrite (bind_ok (ret false) _ w false w) by done.
    rewrite Hne. cbn [andb].
    fold (dir_of w pth). fold (dir_of w "").
    rewrite (bind_ok (os_exists _) _ w (Os.exists_ (fs w) (dir_of w pth)) w) by done.
    rewrite (bind_ok _ _ _ _ _ Hmk).
    assert (Hmig : ∀ w0, migrate_existing id "" (dir_of w "") (dir_of w pth) [] w0
                         = (Ok tt, w0)).
    { intros w0. unfold migrate_existing.
      by rewrite (bind_ok (os_exists _) _ w0 (Os.exists_ (fs w0) (dir_of w "")) w0) by done. }
    rewrite (bind_ok _ _ _ _ _ (Hmig w1)).
    rewrite (bind_ok _ _ _ _ _ (execute_run _ _)).
    rewrite (bind_ok _ _ _ _ _ (commit_run _)).
    unfold delete_not_needed.
    match goal with |- bind (os_exists ?p) _ ?w0 = _ =>
      rewrite (bind_ok (os_exists p) _ w0 (Os.exists_ (fs w0) p) w0) by done end.
    done.
  - subst w2. cbn [db committed fs trace]. rewrite Hdb1, Hfiles1, Htr1.
    split; [done|]. split; [done|]. split; [done|].
    by rewrite <- !app_assoc.
Qed.

(** X27 for book 3 of a library into which it has just been inserted. *)
Lemma set_path_new_book_witness :
  ∃ w', set_path 3 MoreExamples.w_fresh = (Ok tt, w') ∧
        trace w' = [EMakedirs "/library/Jane Austen/Persuasion (3)";
                    EExecute (UpdatePath 3 "Jane Austen/Persuasion (3)"); ECommit].
Proof.
  destruct (set_path_new_book MoreExamples.w_fresh 3 MoreExamples.fresh_book
              eq_refl eq_refl eq_refl) as (w' & pth & Hp & Hrun & _ & _ & _ & Htr).
  exists w'. split; [exact Hrun|].
  vm_compute in Hp. injection Hp as <-. exact Htr.
Defined.

Lemma select_book_update_title d id t :
  select_book (apply_sql (UpdateTitle id t) d) id
  = option_map (fun b => mkBook (book_id b) t (book_authors b) (book_path b))
      (select_book d id).
Proof.
  unfold select_book, apply_sql. cbn [books].
  induction (books d) as [|b bs IH]; [done|]. cbn [map find].
  destruct (Nat.eqb (book_id b) id) eqn:E; cbn [book_id]; rewrite E; [done|apply IH].
Qed.

(** After a call of [set_path] that has returned, the stored path of the
    book is the computed one, and its title and authors are as before. *)
Lemma set_path_stored id w w1 :
  set_path id w = (Ok tt, w1) →
  ∃ b pth, select_book (db w) id = Some b ∧
           construct_path_name id w = (Ok pth, w) ∧
           select_book (db w1) id
           = Some (mkBook (book_id b) (book_title b) (book_authors b) pth).
Proof.
  intros Hrun.
  apply set_path_inv in Hrun as [(e & [=] & _)|(pth & cur & changed & Hp & Hc & Hn & Hcase)].
  assert (Hb : ∃ b, select_book (db w) id = Some b ∧ book_path b = cur).
  { rewrite path_run in Hc. destruct (select_book (db w) id) as [b|]; [|by simplify_eq].
    exists b. split; [done|]. by simplify_eq. }
  destruct Hb as (b & Hb & Hcur).
  exists b, pth. split; [done|]. split; [done|].
  destruct Hcase as [(-> & _ & _ & ->)|(_ & fs_ & _ & Hrel)].
  { rewrite Hb, <- Hcur. by destruct b. }
  apply relocation_inv in Hrel as (wb & Hwb & [(e & [=] & _)|Hdel]).
  destruct Hwb as (_ & _ & _ & Hbooks & _).
  apply delete_not_needed_inv in Hdel as (_ & Hdb & _).
  rewrite Hdb. cbn [path_committed db].
  by rewrite select_book_update, (select_book_books _ _ _ Hbooks), Hb.
Qed.

(** X28. After a call of [set_title] with a title that is not empty, when
    it has returned, the store holds the new title for the book, its
    authors are as before, and its stored path is the one derived from the
    new title: the author component, a slash, the truncated and sanitized
    new title, and the id in parentheses.  The first effect of the call is
    the UPDATE of the title and the last one the [metadata] notification
    for the book. *)
Theorem set_title_then_path (w w' : World) (id : nat) (t : string) :
  PyStr.truthy t = true →
  set_title id (Some t) w = (Ok tt, w') →
  ∃ b b' tr,
    select_book (db w) id = Some b ∧
    select_book (db w') id = Some b' ∧
    book_title b' = t ∧ book_authors b' = book_authors b ∧
    book_path b' = author_component (PATH_LIMIT w) (book_authors b) +:+ "/" +:+
                   title_component (PATH_LIMIT w) t +:+
                   " (" +:+ PyStr.of_nat id +:+ ")" ∧
    trace w' = trace w ++ EExecute (UpdateTitle id t) :: tr ++ [ENotify "metadata" [id]].
Proof.
  intros Ht. unfold set_title. rewrite Ht. cbn [negb]. intros H.
  rewrite (bind_ok _ _ _ _ _ (execute_run _ _)) in H.
  set (wu := mkWorld _ _ _ _ _ _ _) in H.
  apply bind_inv in H as [([] & w1 & H1 & H2)|(e & _ & [=])].
  rewrite notify_run in H2. injection H2 as <-.
  pose proof (set_path_trace _ _ _ _ H1) as (_ & _ & _ & t1 & Ht1).
  apply set_path_stored in H1 as (bu & pth & Hbu & Hp & Hb1).
  subst wu. cbn [db] in Hbu. rewrite select_book_update_title in Hbu.
  destruct (select_book (db w) id) as [b|] eqn:Hb; [|done].
  cbn [option_map] in Hbu. injection Hbu as <-.
  rewrite construct_path_name_run in Hp. cbn [db] in Hp.
  rewrite select_book_update_title, Hb in Hp. cbn [option_map] in Hp.
  cbn [book_authors book_title PATH_LIMIT] in Hp. injection Hp as <-.
  cbn [book_id book_title book_authors] in Hb1.
  eexists b, _, t1. split; [done|]. cbn [db trace].
  split; [exact Hb1|]. cbn [book_title book_authors book_path].
  split; [done|]. split; [done|]. split; [done|].
  rewrite Ht1. cbn [trace]. by rewrite <- !app_assoc.
Qed.

(** X28 for the correction of the title of book 1 of the example library. *)
Lemma set_title_then_path_witness :
  ∃ w' b', set_title 1 (Some "Emma Woodhouse") Examples.w_emma = (Ok tt, w') ∧
           select_book (db w') 1 = Some b' ∧
           book_path b' = "Jane Austen/Emma Woodhouse (1)".
Proof.
  assert (Hrun : ∃ w', set_title 1 (Some "Emma Woodhouse") Examples.w_emma = (Ok tt, w'))
    by (eexists; vm_compute; reflexivity).
  destruct Hrun as [w' Hrun].
  destruct (set_title_then_path Examples.w_emma w' 1 "Emma Woodhouse" eq_refl Hrun)
    as (b & b' & tr & Hb & Hb' & _ & _ & Hpath & _).
  exists w', b'. split; [exact Hrun|]. split; [exact Hb'|].
  vm_compute in Hb. injection Hb as <-. vm_compute in Hpath. exact Hpath.
Defined.

End LibraryNewBook.

(** ** Library: the directory of a book *)
Section LibraryDirectory.
Import Library Frame LibraryMore.
Local Open Scope lib_scope.
Implicit Types (w : World).

Lemma ancestors_self k :
  forallb Os.is_slash (Os.chars k) = false → k ∈ Os.ancestors (String.length k) k.
Proof.
  intros H. destruct k as [|c k]; [done|]. cbn [String.length Os.ancestors].
  rewrite H. apply elem_of_cons. by left.
Qed.

(** A directory that [os.makedirs] has made exists. *)
Lemma makedirs_exists f f' p :
  forallb Os.is_slash (Os.chars (Os.abspath f p)) = false →
  Os.makedirs f p = Ok f' →
  Os.exists_ f' p = true ∧ Os.files f' = Os.files f ∧ Os.cwd f' = Os.cwd f.
Proof.
  intros Hroot. unfold Os.makedirs. destruct (Os.exists_ f p) eqn:E; [done|].
  intros [= <-]. split; [|done].
  unfold Os.exists_ in *. apply orb_false_elim in E as [Ed _].
  apply orb_true_intro. left. unfold Os.is_dir in *.
  change (Os.abspath (Os.mkFS (Os.cwd f) _ (Os.files f)) p) with (Os.abspath f p).
  apply bool_decide_eq_true_2. cbn [Os.dirs]. apply elem_of_app. left.
  apply list_elem_of_In, filter_In. split.
  - apply list_elem_of_In. by apply ancestors_self.
  - by rewrite Ed.
Qed.

(** X29. [abspath] returns the directory of the book below the library and
    makes sure it exists: for a book of the store whose directory is not
    the root of the file system, the call returns the joined path, the
    directory exists afterwards, the store and the files are as before,
    and a second call returns the same path and changes nothing. *)
Theorem abspath_ensures_directory (w : World) (id : nat) (b : Book) :
  select_book (db w) id = Some b →
  forallb Os.is_slash
    (Os.chars (Os.abspath (fs w) (Os.join (library_path w) [book_path b]))) = false →
  ∃ w', abspath id w = (Ok (Os.join (library_path w) [book_path b]), w') ∧
        Os.exists_ (fs w') (Os.join (library_path w) [book_path b]) = true ∧
        db w' = db w ∧ Os.files (fs w') = Os.files (fs w) ∧
        abspath id w' = (Ok (Os.join (library_path w) [book_path b]), w').
Proof.
  intros Hb Hroot. set (p := Os.join (library_path w) [book_path b]) in *.
  assert (Hrun : ∀ w0, select_book (db w0) id = Some b → library_path w0 = library_path w →
                   Os.exists_ (fs w0) p = true → abspath id w0 = (Ok p, w0)).
  { intros w0 Hb0 Hlib Hex. unfold abspath.
    rewrite (bind_ok get _ w0 w0 w0) by done.
    rewrite (bind_ok (path id) _ w0 (book_path b) w0) by (by rewrite path_run, Hb0).
    rewrite Hlib. fold p.
    rewrite (bind_ok (os_exists p) _ w0 true w0)
      by (unfold os_exists, bind, get, ret; by rewrite Hex).
    done. }
  destruct (Os.exists_ (fs w) p) eqn:E.
  { exists w. split; [by apply Hrun|]. split; [done|]. split; [done|]. split; [done|].
    by apply Hrun. }
  destruct (os_makedirs_fresh p w E) as (f & Hf & Hmk & Hfiles & Hcwd).
  destruct (makedirs_exists _ _ _ Hroot Hf) as (Hex & _ & _).
  eexists. split.
  - unfold abspath. rewrite (bind_ok get _ w w w) by done.
    rewrite (bind_ok (path id) _ w (book_path b) w) by (by rewrite path_run, Hb).
    fold p.
    rewrite (bind_ok (os_exists p) _ w false w)
      by (unfold os_exists, bind, get, ret; by rewrite E).
    cbn [negb when]. rewrite (bind_ok _ _ _ _ _ Hmk). reflexivity.
  - cbn [fs db]. split; [done|]. split; [done|]. split; [done|].
    by apply Hrun.
Qed.

(** X29 for a book whose path is stored and whose directory is not on
    disk yet. *)
Lemma abspath_ensures_directory_witness :
  ∃ w', abspath 3 MoreExamples.w_filed = (Ok "/library/Jane Austen/Persuasion (3)", w') ∧
        Os.exists_ (fs w') "/library/Jane Austen/Persuasion (3)" = true.
Proof.
  destruct (abspath_ensures_directory MoreExamples.w_filed 3 MoreExamples.filed_book
              eq_refl eq_refl) as (w' & H1 & H2 & _).
  exists w'. split; [exact H1|exact H2].
Defined.

End LibraryDirectory.
